(** * Academic Web Clipper: the extraction core of [content.js]

    A shallow embedding of [extractPageContent] and of the functions nested
    in it ([containsLaTeX], [protectLaTeX], [mathMLToLaTeX],
    [shouldSkipElement], [getCleanTextContent], [processNode],
    [findMainContent] and the cleanup passes), with the properties of the
    specification stated over it.

    Strings are JavaScript strings: finite sequences of UTF-16 code units.
    The document is an immutable tree; an exception raised by the script is
    a value of the error type. *)

From Stdlib Require Import String Ascii.
From Stdlib Require Import List NArith ZArith Bool Arith Lia.
Import ListNotations.

Set Implicit Arguments.

(** ** JavaScript strings *)

Module JSString.

Definition jsstring := list N.

(** A literal written with ASCII characters. *)
Definition str (s : string) : jsstring :=
  map N_of_ascii (list_ascii_of_string s).

Definition nl : jsstring := [10%N].
Definition backslash : jsstring := [92%N].
Definition backtick : jsstring := [96%N].

Definition in_range (lo hi c : N) : bool := (lo <=? c)%N && (c <=? hi)%N.

(** [\d], [[A-Z]], [[a-z]] and [\w] of a regular expression without the
    [u] and [i] flags. *)
Definition is_digit (c : N) : bool := in_range 48 57 c.
Definition is_upper (c : N) : bool := in_range 65 90 c.
Definition is_lower (c : N) : bool := in_range 97 122 c.
Definition is_word (c : N) : bool :=
  is_digit c || is_upper c || is_lower c || (c =? 95)%N.

(** Line terminators: LF, CR, LS, PS. *)
Definition is_line_terminator (c : N) : bool :=
  (c =? 10)%N || (c =? 13)%N || (c =? 8232)%N || (c =? 8233)%N.

(** [\s], which is also what [String.prototype.trim] strips: the white
    space code points and the line terminators. *)
Definition is_space (c : N) : bool :=
  in_range 9 13 c || (c =? 32)%N || (c =? 160)%N || (c =? 5760)%N
  || in_range 8192 8202 c || (c =? 8232)%N || (c =? 8233)%N
  || (c =? 8239)%N || (c =? 8287)%N || (c =? 12288)%N || (c =? 65279)%N.

Definition is_char (a : N) (c : N) : bool := (c =? a)%N.
Definition not_char (a : N) (c : N) : bool := negb (c =? a)%N.

Fixpoint eqb (s t : jsstring) : bool :=
  match s, t with
  | [], [] => true
  | a :: s', b :: t' => (a =? b)%N && eqb s' t'
  | _, _ => false
  end.

Fixpoint startsWith (s p : jsstring) : bool :=
  match p, s with
  | [], _ => true
  | a :: p', b :: s' => (a =? b)%N && startsWith s' p'
  | _ :: _, [] => false
  end.

Definition endsWith (s p : jsstring) : bool := startsWith (rev s) (rev p).

Fixpoint includes (s p : jsstring) : bool :=
  startsWith s p ||
  match s with
  | [] => false
  | _ :: s' => includes s' p
  end.

Fixpoint trimStart (s : jsstring) : jsstring :=
  match s with
  | c :: s' => if is_space c then trimStart s' else s
  | [] => []
  end.

Definition trimEnd (s : jsstring) : jsstring := rev (trimStart (rev s)).

Definition trim (s : jsstring) : jsstring := trimEnd (trimStart s).

(** [String.prototype.toLowerCase], exact as far as the Basic Latin range
    goes. The capital letters A to Z go to a to z. Of the code units
    outside the range, two have a lower case that holds a Basic Latin
    letter: the Kelvin sign U+212A goes to [k], and the capital I with
    dot above U+0130 goes to [i] followed by the combining dot U+0307.
    The lower case of every other code unit lies outside the range, and
    the unit is kept as it is here. The script compares lower-cased
    strings with words of the Basic Latin range only (with [includes],
    [===] and the cases of a [switch]), and such a comparison comes out
    the same. *)
Definition lower_units (c : N) : jsstring :=
  if is_upper c then [(c + 32)%N]
  else if (c =? 8490)%N then [107%N]
  else if (c =? 304)%N then [105%N; 775%N]
  else [c].

Definition toLowerCase (s : jsstring) : jsstring := flat_map lower_units s.

(** [s.split(sep)] for a separator of one code unit. *)
Fixpoint split_char (sep : N) (s : jsstring) : list jsstring :=
  match s with
  | [] => [[]]
  | c :: s' =>
      if (c =? sep)%N then [] :: split_char sep s'
      else match split_char sep s' with
           | w :: ws => (c :: w) :: ws
           | [] => [[c]]
           end
  end.

(** [parts.join(sep)]. *)
Fixpoint join (sep : jsstring) (parts : list jsstring) : jsstring :=
  match parts with
  | [] => []
  | [p] => p
  | p :: ps => p ++ sep ++ join sep ps
  end.

(** [s.repeat(n)] for a count that is not negative. *)
Fixpoint repeat_str (s : jsstring) (n : nat) : jsstring :=
  match n with
  | O => []
  | S n' => s ++ repeat_str s n'
  end.

Definition count_char (a : N) (s : jsstring) : nat :=
  length (filter (is_char a) s).

(** A string is truthy when it is not empty. *)
Definition truthy (s : jsstring) : bool :=
  match s with [] => false | _ => true end.

End JSString.
Import JSString.

(** ** Regular expressions

    Every quantifier of the script applies to a character class, so the
    expression type has the repetition of a class as a constructor. The
    matcher is the backtracking matcher of the language: greedy
    repetition, alternatives tried left to right, numbered groups. *)

Module Regex.

Inductive regex : Type :=
| Eps
| Cls (p : N -> bool)
| Seq (r1 r2 : regex)
| Alt (r1 r2 : regex)
| Rep (p : N -> bool)
| Grp (i : nat) (r : regex)
| Bol
| Eol.

Definition caps := list (nat * jsstring).

Fixpoint lit (s : jsstring) : regex :=
  match s with
  | [] => Eps
  | [c] => Cls (is_char c)
  | c :: s' => Seq (Cls (is_char c)) (lit s')
  end.

Definition plus (p : N -> bool) : regex := Seq (Cls p) (Rep p).

(** [p{n,}] *)
Fixpoint at_least (n : nat) (p : N -> bool) : regex :=
  match n with
  | O => Rep p
  | S n' => Seq (Cls p) (at_least n' p)
  end.

Fixpoint seqs (rs : list regex) : regex :=
  match rs with
  | [] => Eps
  | [r] => r
  | r :: rs' => Seq r (seqs rs')
  end.

(** [^] and [$]; [ml] is the [m] flag. *)
Definition at_bol (ml : bool) (prev : option N) : bool :=
  match prev with
  | None => true
  | Some c => ml && is_line_terminator c
  end.

Definition at_eol (ml : bool) (s : jsstring) : bool :=
  match s with
  | [] => true
  | c :: _ => ml && is_line_terminator c
  end.

Section Matcher.
Variable A : Type.

Fixpoint rep_cls (p : N -> bool) (prev : option N) (s : jsstring)
         (k : option N -> jsstring -> option A) : option A :=
  match s with
  | c :: s' =>
      if p c then
        match rep_cls p (Some c) s' k with
        | Some x => Some x
        | None => k prev s
        end
      else k prev s
  | [] => k prev s
  end.

Fixpoint rmatch (ml : bool) (r : regex) (prev : option N) (s : jsstring)
         (cs : caps) (k : option N -> jsstring -> caps -> option A)
  : option A :=
  match r with
  | Eps => k prev s cs
  | Cls p =>
      match s with
      | c :: s' => if p c then k (Some c) s' cs else None
      | [] => None
      end
  | Seq r1 r2 =>
      rmatch ml r1 prev s cs
             (fun prev' s' cs' => rmatch ml r2 prev' s' cs' k)
  | Alt r1 r2 =>
      match rmatch ml r1 prev s cs k with
      | Some x => Some x
      | None => rmatch ml r2 prev s cs k
      end
  | Rep p => rep_cls p prev s (fun prev' s' => k prev' s' cs)
  | Grp i r1 =>
      rmatch ml r1 prev s cs
             (fun prev' s' cs' =>
                k prev' s' ((i, firstn (length s - length s') s) :: cs'))
  | Bol => if at_bol ml prev then k prev s cs else None
  | Eol => if at_eol ml s then k prev s cs else None
  end.
End Matcher.

(** A match that starts at the current position: its length and groups. *)
Definition match_here (ml : bool) (r : regex) (prev : option N)
           (s : jsstring) : option (nat * caps) :=
  rmatch ml r prev s []
         (fun _ s' cs => Some (length s - length s', cs)).

Fixpoint group (i : nat) (cs : caps) : jsstring :=
  match cs with
  | [] => []
  | (j, v) :: cs' => if Nat.eqb i j then v else group i cs'
  end.

(** Replacement patterns: literal text and [$n]. *)
Inductive titem : Type :=
| TLit (s : jsstring)
| TRef (i : nat).

Fixpoint expand (t : list titem) (cs : caps) : jsstring :=
  match t with
  | [] => []
  | TLit s :: t' => s ++ expand t' cs
  | TRef i :: t' => group i cs ++ expand t' cs
  end.

(** [s.replace(/r/g, f)]: the matches are found left to right, each search
    starting where the previous match ended (one code unit further after
    an empty match); [skip] counts the code units of the current match
    still to pass over. *)
Fixpoint replace_go (ml : bool) (r : regex)
         (f : jsstring -> caps -> jsstring)
         (prev : option N) (s : jsstring) (skip : nat) : jsstring :=
  match skip with
  | S n =>
      match s with
      | c :: s' => replace_go ml r f (Some c) s' n
      | [] => []
      end
  | O =>
      match match_here ml r prev s with
      | Some (len, cs) =>
          f (firstn len s) cs ++
          match s with
          | c :: s' =>
              match len with
              | O => c :: replace_go ml r f (Some c) s' 0
              | S n => replace_go ml r f (Some c) s' n
              end
          | [] => []
          end
      | None =>
          match s with
          | c :: s' => c :: replace_go ml r f (Some c) s' 0
          | [] => []
          end
      end
  end.

Definition replace_fn (ml : bool) (r : regex)
           (f : jsstring -> caps -> jsstring) (s : jsstring) : jsstring :=
  replace_go ml r f None s 0.

(** [s.replace(/r/g, 'template')] *)
Definition replace_all (r : regex) (t : list titem) (s : jsstring)
  : jsstring :=
  replace_fn false r (fun _ cs => expand t cs) s.

(** The leftmost match: [r.exec(s)] for an expression without the [g]
    flag. *)
Fixpoint search (ml : bool) (r : regex) (prev : option N) (s : jsstring)
  : option (nat * caps) :=
  match match_here ml r prev s with
  | Some m => Some m
  | None =>
      match s with
      | c :: s' => search ml r (Some c) s'
      | [] => None
      end
  end.

(** [r.test(s)] *)
Definition test (r : regex) (s : jsstring) : bool :=
  match search false r None s with
  | Some _ => true
  | None => false
  end.

(** [s.split(/r/)] for an expression without groups. *)
Fixpoint split_go (r : regex) (prev : option N) (s : jsstring)
         (skip : nat) (cur : jsstring) : list jsstring :=
  match s with
  | [] => [rev cur]
  | c :: s' =>
      match skip with
      | S n => split_go r (Some c) s' n cur
      | O =>
          match match_here false r prev s with
          | Some (S n, _) => rev cur :: split_go r (Some c) s' n []
          | Some (O, _) =>
              match cur with
              | [] => split_go r (Some c) s' 0 [c]
              | _ => rev cur :: split_go r (Some c) s' 0 [c]
              end
          | None => split_go r (Some c) s' 0 (c :: cur)
          end
      end
  end.

Definition split_re (r : regex) (s : jsstring) : list jsstring :=
  match s with
  | [] => match match_here false r None [] with
          | Some _ => []
          | None => [[]]
          end
  | _ => split_go r None s 0 []
  end.

End Regex.
Import Regex.


(** ** Exceptions *)

Inductive exn : Type :=
| TypeError
| RangeError.

Inductive result (A : Type) : Type :=
| Ok (a : A)
| Throw (e : exn).

Arguments Ok {A} a.
Arguments Throw {A} e.

Definition bind {A B : Type} (m : result A) (f : A -> result B) : result B :=
  match m with
  | Ok a => f a
  | Throw e => Throw e
  end.

Notation "x <- m ;; k" := (bind m (fun x => k))
  (at level 61, m at next level, right associativity).

(** [xs.map(f)] for an [f] that can throw: the first exception wins. *)
Fixpoint sequence {A : Type} (rs : list (result A)) : result (list A) :=
  match rs with
  | [] => Ok []
  | r :: rs' => a <- r ;; l <- sequence rs' ;; Ok (a :: l)
  end.

(** ** The document tree *)

Module Dom.

Record ComputedStyle : Type := {
  display : jsstring;
  visibility : jsstring;
  opacity : jsstring
}.

(** A node is a text node, an element, or a node of another type (a
    comment). An element carries what [window.getComputedStyle] answers
    for it. *)
#[warnings="-register-all"]
Inductive Node : Type :=
| TextNode (data : jsstring)
| OtherNode (data : jsstring)
| ElementNode (tagName : jsstring) (attributes : list (jsstring * jsstring))
              (style : ComputedStyle) (childNodes : list Node).

Definition isElement (n : Node) : bool :=
  match n with ElementNode _ _ _ _ => true | _ => false end.

Definition isText (n : Node) : bool :=
  match n with TextNode _ => true | _ => false end.

Fixpoint getAttribute (attrs : list (jsstring * jsstring)) (name : jsstring)
  : option jsstring :=
  match attrs with
  | [] => None
  | (k, v) :: attrs' =>
      if JSString.eqb k name then Some v else getAttribute attrs' name
  end.

Definition hasAttribute (attrs : list (jsstring * jsstring))
           (name : jsstring) : bool :=
  match getAttribute attrs name with Some _ => true | None => false end.

Definition attrIs (attrs : list (jsstring * jsstring))
           (name value : jsstring) : bool :=
  match getAttribute attrs name with
  | Some v => JSString.eqb v value
  | None => false
  end.

(** ASCII white space separates the tokens of the [class] attribute. *)
Definition is_ascii_ws (c : N) : bool :=
  (c =? 9)%N || (c =? 10)%N || (c =? 12)%N || (c =? 13)%N || (c =? 32)%N.

Fixpoint tokens_go (s cur : jsstring) : list jsstring :=
  match s with
  | [] => match cur with [] => [] | _ => [rev cur] end
  | c :: s' =>
      if is_ascii_ws c then
        match cur with
        | [] => tokens_go s' []
        | _ => rev cur :: tokens_go s' []
        end
      else tokens_go s' (c :: cur)
  end.

Definition className (attrs : list (jsstring * jsstring)) : jsstring :=
  match getAttribute attrs (str "class") with Some v => v | None => [] end.

Definition classList (attrs : list (jsstring * jsstring)) : list jsstring :=
  tokens_go (className attrs) [].

Definition classList_contains (attrs : list (jsstring * jsstring))
           (c : jsstring) : bool :=
  existsb (fun t => JSString.eqb t c) (classList attrs).

Definition id (attrs : list (jsstring * jsstring)) : jsstring :=
  match getAttribute attrs (str "id") with Some v => v | None => [] end.

(** [node.textContent]: the data of a text or comment node; for an
    element, the text of its descendant text nodes in tree order. *)
Fixpoint descendantText (n : Node) : jsstring :=
  match n with
  | TextNode d => d
  | OtherNode _ => []
  | ElementNode _ _ _ cs => concat (map descendantText cs)
  end.

Definition textContent (n : Node) : jsstring :=
  match n with
  | TextNode d => d
  | OtherNode d => d
  | ElementNode _ _ _ cs => concat (map descendantText cs)
  end.

Definition childNodesOf (n : Node) : list Node :=
  match n with ElementNode _ _ _ cs => cs | _ => [] end.

(** [node.children]: the child nodes that are elements. *)
Definition children (n : Node) : list Node :=
  filter isElement (childNodesOf n).

Definition tagIs (name : jsstring) (n : Node) : bool :=
  match n with
  | ElementNode t _ _ _ => JSString.eqb (toLowerCase t) name
  | _ => false
  end.

(** The first descendant, in tree order, that satisfies [P]:
    [node.querySelector] for a simple selector. *)
Fixpoint findDescendant (P : Node -> bool) (n : Node) : option Node :=
  match n with
  | ElementNode _ _ _ cs =>
      (fix go (l : list Node) : option Node :=
         match l with
         | [] => None
         | c :: l' =>
             if P c then Some c
             else match findDescendant P c with
                  | Some x => Some x
                  | None => go l'
                  end
         end) cs
  | _ => None
  end.

(** *** Handles and selectors

    A node of the document is designated by its path from the document
    element; two handles denote the same node when the paths are equal. *)

Definition path := list nat.

Fixpoint path_eqb (p q : path) : bool :=
  match p, q with
  | [], [] => true
  | a :: p', b :: q' => Nat.eqb a b && path_eqb p' q'
  | _, _ => false
  end.

Fixpoint nodeAt (n : Node) (p : path) : option Node :=
  match p with
  | [] => Some n
  | i :: p' =>
      match nth_error (childNodesOf n) i with
      | Some c => nodeAt c p'
      | None => None
      end
  end.

(** The elements below and including [n], in tree order, each with its
    handle and the chain of its ancestors (nearest first). *)
Fixpoint elementsFrom (p : path) (ancs : list Node) (n : Node)
  : list (path * list Node * Node) :=
  match n with
  | ElementNode _ _ _ cs =>
      (p, ancs, n) ::
      (fix go (i : nat) (l : list Node) : list (path * list Node * Node) :=
         match l with
         | [] => []
         | c :: l' => elementsFrom (p ++ [i]) (n :: ancs) c ++ go (S i) l'
         end) 0%nat cs
  | _ => []
  end.

Inductive simple : Type :=
| STag (name : jsstring)
| SClass (c : jsstring)
| SId (i : jsstring)
| SAttrEq (name value : jsstring)
| SAttr (name : jsstring).

Inductive selector : Type :=
| Sel (s : simple)
| Desc (anc : simple) (s : simple).

Definition matchesSimple (s : simple) (n : Node) : bool :=
  match n with
  | ElementNode t attrs _ _ =>
      match s with
      | STag name => JSString.eqb (toLowerCase t) name
      | SClass c => classList_contains attrs c
      | SId i => attrIs attrs (str "id") i
      | SAttrEq name v => attrIs attrs name v
      | SAttr name => hasAttribute attrs name
      end
  | _ => false
  end.

Definition matches (sel : selector) (ancs : list Node) (n : Node) : bool :=
  match sel with
  | Sel s => matchesSimple s n
  | Desc a s => matchesSimple s n && existsb (matchesSimple a) ancs
  end.

End Dom.
Import Dom.

(** ** The host window

    [window.location] and the [URL] constructor belong to the browser:
    [resolveURL href base] is [new URL(href, base).href], which throws on
    an input that is not a URL. *)

Record Window : Type := {
  location_href : jsstring;
  location_hostname : jsstring;
  resolveURL : jsstring -> jsstring -> result jsstring
}.

(** ** [containsLaTeX] and [protectLaTeX] *)

Definition c_dollar : N := 36%N.
Definition c_star : N := 42%N.
Definition c_underscore : N := 95%N.
Definition c_caret : N := 94%N.
Definition c_lbrace : N := 123%N.
Definition c_rbrace : N := 125%N.
Definition c_pipe : N := 124%N.
Definition c_nl : N := 10%N.
Definition c_backslash : N := 92%N.

Definition latexPatterns : list regex := [
  (* /\\\w+\{[^}]*\}/ *)
  seqs [Cls (is_char c_backslash); plus is_word; Cls (is_char c_lbrace);
        Rep (not_char c_rbrace); Cls (is_char c_rbrace)];
  (* /\w+_\{[^}]*\}/ *)
  seqs [plus is_word; Cls (is_char c_underscore); Cls (is_char c_lbrace);
        Rep (not_char c_rbrace); Cls (is_char c_rbrace)];
  (* /\w+\^\{[^}]*\}/ *)
  seqs [plus is_word; Cls (is_char c_caret); Cls (is_char c_lbrace);
        Rep (not_char c_rbrace); Cls (is_char c_rbrace)];
  (* /\w+_\w/ *)
  seqs [plus is_word; Cls (is_char c_underscore); Cls is_word];
  (* /\w+\^\w/ *)
  seqs [plus is_word; Cls (is_char c_caret); Cls is_word];
  (* /\\\w+/ *)
  seqs [Cls (is_char c_backslash); plus is_word];
  (* /\$[^$]+\$/ *)
  seqs [Cls (is_char c_dollar); plus (not_char c_dollar);
        Cls (is_char c_dollar)];
  (* /\$\$[^$]+\$\$/ *)
  seqs [lit (str "$$"); plus (not_char c_dollar); lit (str "$$")]
].

Definition containsLaTeX (text : jsstring) : bool :=
  existsb (fun pattern => test pattern text) latexPatterns.

(** The replacement ['$1^{$2}']. *)
Definition t_sup12 : list titem :=
  [TRef 1; TLit (str "^{"); TRef 2; TLit (str "}")].
(** The replacement ['$1_{$2}']. *)
Definition t_sub12 : list titem :=
  [TRef 1; TLit (str "_{"); TRef 2; TLit (str "}")].
(** The replacement ['^{$1}']. *)
Definition t_sup1 : list titem := [TLit (str "^{"); TRef 1; TLit (str "}")].
(** The replacement ['_{$1}']. *)
Definition t_sub1 : list titem := [TLit (str "_{"); TRef 1; TLit (str "}")].

(* /(\w+)\*\*([A-Z]+)/ *)
Definition re_word_stars_caps : regex :=
  seqs [Grp 1 (plus is_word); lit (str "**"); Grp 2 (plus is_upper)].
(* /(\w+)\*\*(\w+)/ *)
Definition re_word_stars_word : regex :=
  seqs [Grp 1 (plus is_word); lit (str "**"); Grp 2 (plus is_word)].
(* /(\w+)__(\w+)/ *)
Definition re_word_unders_word : regex :=
  seqs [Grp 1 (plus is_word); lit (str "__"); Grp 2 (plus is_word)].
(* /\*\*([A-Z]+)\*\*/ *)
Definition re_stars_caps_stars : regex :=
  seqs [lit (str "**"); Grp 1 (plus is_upper); lit (str "**")].
(* /__([^_]+)__/ *)
Definition re_unders_text_unders : regex :=
  seqs [lit (str "__"); Grp 1 (plus (not_char c_underscore));
        lit (str "__")].

Definition protectLaTeX (text : jsstring) : jsstring :=
  replace_all re_unders_text_unders t_sub1
    (replace_all re_stars_caps_stars t_sup1
       (replace_all re_word_unders_word t_sub12
          (replace_all re_word_stars_word t_sup12
             (replace_all re_word_stars_caps t_sup12 text)))).

(** ** [mathMLToLaTeX] *)

Definition operatorSymbol (operator : jsstring) : jsstring :=
  if JSString.eqb operator [0x2212%N] then str "-"
  else if JSString.eqb operator [0x00B1%N] then backslash ++ str "pm"
  else if JSString.eqb operator [0x2211%N] then backslash ++ str "sum"
  else if JSString.eqb operator [0x222B%N] then backslash ++ str "int"
  else if JSString.eqb operator [0x221E%N] then backslash ++ str "infty"
  else if JSString.eqb operator [0x03B1%N] then backslash ++ str "alpha"
  else if JSString.eqb operator [0x03B2%N] then backslash ++ str "beta"
  else if JSString.eqb operator [0x03B3%N] then backslash ++ str "gamma"
  else if JSString.eqb operator [0x03B4%N] then backslash ++ str "delta"
  else if JSString.eqb operator [0x03B5%N] then backslash ++ str "epsilon"
  else if JSString.eqb operator [0x03C0%N] then backslash ++ str "pi"
  else if JSString.eqb operator [0x03C3%N] then backslash ++ str "sigma"
  else if JSString.eqb operator [0x03B8%N] then backslash ++ str "theta"
  else if JSString.eqb operator [0x03BB%N] then backslash ++ str "lambda"
  else if JSString.eqb operator [0x03BC%N] then backslash ++ str "mu"
  else if JSString.eqb operator [0x2264%N] then backslash ++ str "leq"
  else if JSString.eqb operator [0x2265%N] then backslash ++ str "geq"
  else if JSString.eqb operator [0x2260%N] then backslash ++ str "neq"
  else if JSString.eqb operator [0x2208%N] then backslash ++ str "in"
  else if JSString.eqb operator [0x2205%N] then backslash ++ str "emptyset"
  else operator.

(** [mathMLToLaTeX(mathMLNode.children[i])], given the conversions of the
    element children: an index past the last child reads [undefined], and
    the call then throws on [undefined.tagName]. *)
Definition childLaTeX (rs : list (result jsstring)) (i : nat)
  : result jsstring :=
  match nth_error rs i with
  | Some r => r
  | None => Throw TypeError
  end.

(** [Array.from(mathMLNode.children).map(mathMLToLaTeX).join(' ')] *)
Definition joinedLaTeX (rs : list (result jsstring)) : result jsstring :=
  l <- sequence rs ;; Ok (join (str " ") l).

(** The [switch] of [mathMLToLaTeX], given the tag name in lower case,
    the node and the conversions [rs] of its element children. *)
Definition mathMLCase (notionMode : bool) (tagName : jsstring)
           (node : Node) (attrs : list (jsstring * jsstring))
           (rs : list (result jsstring)) : result jsstring :=
  if JSString.eqb tagName (str "mi") then Ok (trim (textContent node))
  else if JSString.eqb tagName (str "mn") then Ok (trim (textContent node))
  else if JSString.eqb tagName (str "mo") then
    Ok (operatorSymbol (trim (textContent node)))
  else if JSString.eqb tagName (str "msup") then
    base <- childLaTeX rs 0 ;;
    exponent <- childLaTeX rs 1 ;;
    Ok (base ++ str "^{" ++ exponent ++ str "}")
  else if JSString.eqb tagName (str "msub") then
    subBase <- childLaTeX rs 0 ;;
    subIndex <- childLaTeX rs 1 ;;
    Ok (subBase ++ str "_{" ++ subIndex ++ str "}")
  else if JSString.eqb tagName (str "mfrac") then
    numerator <- childLaTeX rs 0 ;;
    denominator <- childLaTeX rs 1 ;;
    Ok (backslash ++ str "frac{" ++ numerator ++ str "}{" ++ denominator
        ++ str "}")
  else if JSString.eqb tagName (str "msqrt") then
    radicand <- childLaTeX rs 0 ;;
    Ok (backslash ++ str "sqrt{" ++ radicand ++ str "}")
  else if JSString.eqb tagName (str "mroot") then
    if (2 <=? length rs)%nat then
      radicandRoot <- childLaTeX rs 0 ;;
      index <- childLaTeX rs 1 ;;
      Ok (backslash ++ str "sqrt[" ++ index ++ str "]{" ++ radicandRoot
          ++ str "}")
    else joinedLaTeX rs
  else if JSString.eqb tagName (str "mrow") then joinedLaTeX rs
  else if JSString.eqb tagName (str "msubsup") then
    if (3 <=? length rs)%nat then
      baseSubsup <- childLaTeX rs 0 ;;
      subscript <- childLaTeX rs 1 ;;
      superscript <- childLaTeX rs 2 ;;
      Ok (baseSubsup ++ str "_{" ++ subscript ++ str "}^{" ++ superscript
          ++ str "}")
    else joinedLaTeX rs
  else if JSString.eqb tagName (str "mover") then
    if (2 <=? length rs)%nat then
      baseOver <- childLaTeX rs 0 ;;
      over <- childLaTeX rs 1 ;;
      if JSString.eqb over [0x00AF%N] then
        Ok (backslash ++ str "overline{" ++ baseOver ++ str "}")
      else if JSString.eqb over (str "^") || JSString.eqb over [0x02C6%N]
      then Ok (backslash ++ str "hat{" ++ baseOver ++ str "}")
      else Ok (backslash ++ str "overset{" ++ over ++ str "}{" ++ baseOver
               ++ str "}")
    else joinedLaTeX rs
  else if JSString.eqb tagName (str "munder") then
    if (2 <=? length rs)%nat then
      baseUnder <- childLaTeX rs 0 ;;
      under <- childLaTeX rs 1 ;;
      Ok (backslash ++ str "underset{" ++ under ++ str "}{" ++ baseUnder
          ++ str "}")
    else joinedLaTeX rs
  else if JSString.eqb tagName (str "math") then
    content <- joinedLaTeX rs ;;
    match getAttribute attrs (str "display") with
    | Some v =>
        if JSString.eqb v (str "block") then
          if notionMode then Ok (nl ++ nl ++ content ++ nl ++ nl)
          else Ok (str "$$" ++ content ++ str "$$")
        else if notionMode then Ok content
             else Ok (str "$" ++ content ++ str "$")
    | None =>
        if notionMode then Ok content else Ok (str "$" ++ content ++ str "$")
    end
  else joinedLaTeX rs.

(** The conversion recurses into the element children; applied to
    anything but an element it throws when it reads the tag name. The
    call stack is taken to have room for the tree; [mathMLToLaTeXWithin]
    counts the room. *)
Fixpoint mathMLToLaTeX (notionMode : bool) (mathMLNode : Node)
  : result jsstring :=
  match mathMLNode with
  | ElementNode t attrs _ cs =>
      mathMLCase notionMode (toLowerCase t) mathMLNode attrs
        ((fix kids (l : list Node) : list (result jsstring) :=
            match l with
            | [] => []
            | (ElementNode _ _ _ _ as c) :: l' =>
                mathMLToLaTeX notionMode c :: kids l'
            | _ :: l' => kids l'
            end) cs)
  | _ => Throw TypeError
  end.

(** ** [shouldSkipElement] *)

Definition skipTags : list jsstring :=
  map str ["script"; "style"; "noscript"; "head"; "meta"; "link"; "title"]%string.

Definition skipInteractive : list jsstring :=
  map str ["nav"; "menu"; "button"; "form"; "input"; "textarea"; "select";
           "option"]%string.

Definition skipClasses : list jsstring :=
  map str ["nav"; "navigation"; "menu"; "header"; "footer"; "sidebar";
           "toolbar"; "breadcrumb"; "pagination"; "filter"; "search";
           "social"; "share"; "advertisement"; "ad"; "banner"; "popup";
           "modal"; "overlay"; "comment-form"; "login"; "signup";
           "subscribe"; "newsletter"; "related"; "recommended"; "trending";
           "popular"; "recent"; "widget"; "gadget"; "plugin"; "embed";
           "iframe"]%string.

Definition githubSkipClasses : list jsstring :=
  map str ["header"; "footer"; "subnav"; "tabnav"; "pagehead";
           "underline-nav"; "filter-list"; "menu-item"; "btn"; "button";
           "avatar"; "label"; "counter"; "state"; "timeline-comment-header";
           "js-"; "hide-"; "dropdown"; "select-menu"; "autocomplete";
           "suggester"; "discussion-"; "file-"; "blob-"; "diff-"; "hunk-";
           "octicon"; "tooltipped"; "flash"; "notice"; "border"; "Box";
           "pr-"; "issue-"; "reaction-"; "details-"; "ActionList";
           "SelectPanel"; "Overlay"]%string.

(** [list.includes(x)] on an array of strings. *)
Definition includesStr (l : list jsstring) (x : jsstring) : bool :=
  existsb (fun y => JSString.eqb y x) l.

(** [vocabulary.some(cls => classList.some(nodeClass =>
    nodeClass.toLowerCase().includes(cls)) || id.toLowerCase().includes(cls))] *)
Definition matchesVocabulary (vocabulary : list jsstring)
           (classes : list jsstring) (ident : jsstring) : bool :=
  existsb (fun cls =>
             existsb (fun nodeClass => includes (toLowerCase nodeClass) cls)
                     classes
             || includes (toLowerCase ident) cls)
          vocabulary.

(** [node.getAttribute('aria-label')?.includes(word)] *)
Definition ariaLabelIncludes (attrs : list (jsstring * jsstring))
           (word : jsstring) : bool :=
  match getAttribute attrs (str "aria-label") with
  | Some v => includes v word
  | None => false
  end.

(** The data attributes and ARIA labels of interface components. *)
Definition dataOrLabel (attrs : list (jsstring * jsstring)) : bool :=
  hasAttribute attrs (str "data-hotkey")
  || hasAttribute attrs (str "data-menu-button")
  || hasAttribute attrs (str "data-action")
  || hasAttribute attrs (str "data-target")
  || ariaLabelIncludes attrs (str "filter")
  || ariaLabelIncludes attrs (str "sort")
  || ariaLabelIncludes attrs (str "menu").

(** The roles of interface components, and [aria-hidden]. *)
Definition roleOrHidden (attrs : list (jsstring * jsstring)) : bool :=
  attrIs attrs (str "role") (str "button")
  || attrIs attrs (str "role") (str "menu")
  || attrIs attrs (str "role") (str "menuitem")
  || attrIs attrs (str "role") (str "navigation")
  || attrIs attrs (str "aria-hidden") (str "true").

(** An element that is not displayed, not visible or transparent. *)
Definition notRendered (st : ComputedStyle) : bool :=
  JSString.eqb (display st) (str "none")
  || JSString.eqb (visibility st) (str "hidden")
  || JSString.eqb (opacity st) (str "0").

Definition shouldSkipElement (node : Node) : bool :=
  match node with
  | ElementNode t attrs computedStyle _ =>
      let tagName := toLowerCase t in
      if includesStr skipTags tagName then true
      else if includesStr skipInteractive tagName then true
      else if matchesVocabulary skipClasses (classList attrs) (id attrs)
      then true
      else if matchesVocabulary githubSkipClasses (classList attrs) (id attrs)
      then true
      else if dataOrLabel attrs then true
      else if roleOrHidden attrs then true
      else if notRendered computedStyle then true
      else false
  | _ => false
  end.

(** ** [getCleanTextContent] *)

Definition cleanTextBlockTags : list jsstring :=
  map str ["div"; "p"; "h1"; "h2"; "h3"; "h4"; "h5"; "h6"; "li"; "td"; "th";
           "section"; "article"; "aside"]%string.

Fixpoint getCleanTextContent (node : Node) : jsstring :=
  match node with
  | TextNode d => trim d
  | OtherNode _ => []
  | ElementNode _ _ _ cs =>
      (fix loop (l : list Node) (text : jsstring) : jsstring :=
         match l with
         | [] => text
         | child :: l' =>
             match child with
             | TextNode d => loop l' (text ++ d)
             | ElementNode ct _ _ _ =>
                 if shouldSkipElement child then loop l' text
                 else
                   let isBlockElement :=
                     includesStr cleanTextBlockTags (toLowerCase ct) in
                   let text1 :=
                     if isBlockElement && truthy text
                        && negb (endsWith text (str " "))
                     then text ++ str " " else text in
                   loop l' (text1 ++ getCleanTextContent child)
             | OtherNode _ => loop l' text
             end
         end) cs []
  end.

(** ** [processNode] *)

(** What a node sees of its surroundings: the tag name of its parent
    element, whether an ancestor is a [math] element, and its previous
    sibling. *)
Record Ctx : Type := {
  parentTag : option jsstring;
  mathAncestor : bool;
  previousSibling : option Node
}.

(* /\s+/ *)
Definition re_spaces : regex := plus is_space.
(* /\$\$([^$]+)\$\$/ *)
Definition re_block_eq : regex :=
  seqs [lit (str "$$"); Grp 1 (plus (not_char c_dollar)); lit (str "$$")].
(* /\$([^$]+)\$/ *)
Definition re_inline_eq : regex :=
  seqs [Cls (is_char c_dollar); Grp 1 (plus (not_char c_dollar));
        Cls (is_char c_dollar)].
(* /^\w+$/ *)
Definition re_single_word : regex := seqs [Bol; plus is_word; Eol].
(* /\w$/ *)
Definition re_word_end : regex := seqs [Cls is_word; Eol].
(* /^[A-Z]+$/ *)
Definition re_all_caps : regex := seqs [Bol; plus is_upper; Eol].
(* /^\d+$/ *)
Definition re_all_digits : regex := seqs [Bol; plus is_digit; Eol].
(* /language-(\w+)/ *)
Definition re_language : regex :=
  seqs [lit (str "language-"); Grp 1 (plus is_word)].
(* /\|/ *)
Definition re_pipe : regex := Cls (is_char c_pipe).
(* /\$+/ *)
Definition re_dollars : regex := plus (is_char c_dollar).

(** The text-node branch. *)
Definition processText (notionMode : bool) (data : jsstring) : jsstring :=
  let textContent := trim (replace_all re_spaces [TLit (str " ")] data) in
  if negb (truthy textContent) then []
  else
    let textContent := protectLaTeX textContent in
    if containsLaTeX textContent && notionMode then
      replace_all re_inline_eq [TRef 1]
        (replace_all re_block_eq [TLit (nl ++ nl); TRef 1; TLit (nl ++ nl)]
           textContent)
    else textContent.

Definition inlineTags : list jsstring :=
  map str ["span"; "a"; "strong"; "em"; "code"]%string.

(** One turn of the loop over the child nodes: [childrenMarkdown] after
    the result of [child] has been added. *)
Definition appendChild (childrenMarkdown : jsstring) (child : Node)
           (childResult : jsstring) : jsstring :=
  if truthy childResult then
    (if truthy childrenMarkdown
        && negb (endsWith childrenMarkdown (str " "))
        && negb (startsWith childResult (str " "))
     then
       let needsSpace :=
         match child with
         | ElementNode ct _ _ _ =>
             truthy ct && includesStr inlineTags (toLowerCase ct)
         | _ => false
         end in
       if needsSpace then childrenMarkdown ++ str " " else childrenMarkdown
     else childrenMarkdown) ++ childResult
  else childrenMarkdown.

Definition heading (level : nat) (childrenMarkdown : jsstring) : jsstring :=
  let content := trim childrenMarkdown in
  if truthy content then
    repeat_str (str "#") level ++ str " " ++ content ++ nl ++ nl
  else [].

(** The [table] case. *)
Definition tableRow (acc : jsstring * bool) (row : jsstring)
  : result (jsstring * bool) :=
  let '(tableMarkdown, isFirstRow) := acc in
  let cleanRow := trim row in
  let cleanRow :=
    if negb (startsWith cleanRow (str "|")) then str "| " ++ cleanRow
    else cleanRow in
  let cleanRow :=
    if negb (endsWith cleanRow (str "|")) then cleanRow ++ str " |"
    else cleanRow in
  let tableMarkdown := tableMarkdown ++ cleanRow ++ nl in
  if isFirstRow then
    let cellCount := (Z.of_nat (count_char c_pipe cleanRow) - 1)%Z in
    if (cellCount <? 0)%Z then Throw RangeError
    else
      let separator :=
        str "| " ++ repeat_str (str "--- | ") (Z.to_nat cellCount) in
      Ok (tableMarkdown ++ separator ++ nl, false)
  else Ok (tableMarkdown, false).

Fixpoint tableRows (rows : list jsstring) (acc : jsstring * bool)
  : result (jsstring * bool) :=
  match rows with
  | [] => Ok acc
  | row :: rows' => acc' <- tableRow acc row ;; tableRows rows' acc'
  end.

Definition table (childrenMarkdown : jsstring) : result jsstring :=
  let tableContent := trim childrenMarkdown in
  if truthy tableContent then
    let rows :=
      filter (fun row => truthy (trim row)) (split_char c_nl tableContent) in
    match rows with
    | [] => Ok []
    | _ =>
        acc <- tableRows rows ([], true) ;;
        Ok (fst acc ++ nl)
    end
  else Ok [].

Definition tableRowElement (childrenMarkdown : jsstring) : jsstring :=
  childrenMarkdown ++ str "|" ++ nl.

Definition tableCell (childrenMarkdown : jsstring) : jsstring :=
  let cellContent :=
    replace_all re_pipe [TLit (backslash ++ str "|")] (trim childrenMarkdown)
  in str " " ++ cellContent ++ str " |".

Definition containerBlockTags : list jsstring :=
  map str ["p"; "div"; "h1"; "h2"; "h3"; "h4"; "h5"; "h6"; "ul"; "ol";
           "blockquote"]%string.

Definition containerTags : list jsstring :=
  map str ["div"; "section"; "article"; "main"; "aside"; "header";
           "footer"]%string.

Definition ignoredTags : list jsstring :=
  map str ["script"; "style"; "noscript"; "head"; "meta"; "link"; "title";
           "nav"; "menu"; "button"; "form"; "input"; "textarea";
           "select"]%string.

(** [url.startsWith('http') ? url : new URL(url, window.location.href).href] *)
Definition absoluteURL (w : Window) (url : jsstring) : result jsstring :=
  if startsWith url (str "http") then Ok url
  else resolveURL w url (location_href w).

(** [node.previousSibling?.textContent || ''] *)
Definition prevTextOf (ctx : Ctx) : jsstring :=
  match previousSibling ctx with
  | Some n => textContent n
  | None => []
  end.

Definition parentIs (ctx : Ctx) (name : jsstring) : bool :=
  match parentTag ctx with
  | Some t => JSString.eqb (toLowerCase t) name
  | None => false
  end.

Definition strongCase (ctx : Ctx) (isInsideMath : bool)
           (childrenMarkdown : jsstring) : jsstring :=
  let content := trim childrenMarkdown in
  let prevText := prevTextOf ctx in
  let isLikelyMathNotation :=
    isInsideMath
    || containsLaTeX childrenMarkdown
    || test re_single_word content
    || (test re_word_end prevText && test re_all_caps content)
    || (test re_word_end prevText && test re_all_digits content) in
  if isLikelyMathNotation then
    if test re_word_end prevText then str "^{" ++ content ++ str "}"
    else content
  else str "**" ++ content ++ str "**".

Definition emCase (isInsideMath : bool) (childrenMarkdown : jsstring)
  : jsstring :=
  let emContent := trim childrenMarkdown in
  let isLikelyMathNotationEm :=
    isInsideMath
    || containsLaTeX childrenMarkdown
    || test re_single_word emContent in
  if isLikelyMathNotationEm then emContent
  else str "*" ++ emContent ++ str "*".

Definition fence : jsstring := backtick ++ backtick ++ backtick.

Definition preCase (node : Node) : jsstring :=
  match findDescendant (tagIs (str "code")) node with
  | Some codeElement =>
      let codeContent := trim (textContent codeElement) in
      let language :=
        match codeElement with
        | ElementNode _ cattrs _ _ =>
            match search false re_language None (className cattrs) with
            | Some (_, cs) => group 1 cs
            | None => []
            end
        | _ => []
        end in
      fence ++ language ++ nl ++ codeContent ++ nl ++ fence ++ nl ++ nl
  | None =>
      fence ++ nl ++ trim (textContent node) ++ nl ++ fence ++ nl ++ nl
  end.

Definition anchorCase (w : Window) (attrs : list (jsstring * jsstring))
           (childrenMarkdown : jsstring) : result jsstring :=
  let linkText := trim childrenMarkdown in
  match getAttribute attrs (str "href") with
  | Some href =>
      if truthy href && truthy linkText && negb (JSString.eqb href linkText)
      then
        absoluteUrl <- absoluteURL w href ;;
        Ok (str "[" ++ linkText ++ str "](" ++ absoluteUrl ++ str ")")
      else Ok linkText
  | None => Ok linkText
  end.

Definition imgCase (w : Window) (attrs : list (jsstring * jsstring))
  : result jsstring :=
  let alt :=
    match getAttribute attrs (str "alt") with
    | Some a => if truthy a then a else str "image"
    | None => str "image"
    end in
  match getAttribute attrs (str "src") with
  | Some src =>
      if truthy src then
        absoluteSrc <- absoluteURL w src ;;
        Ok (str "![" ++ alt ++ str "](" ++ absoluteSrc ++ str ")" ++ nl ++ nl)
      else Ok []
  | None => Ok []
  end.

Definition spanCase (notionMode : bool) (attrs : list (jsstring * jsstring))
           (childrenMarkdown : jsstring) : jsstring :=
  if classList_contains attrs (str "math")
     || classList_contains attrs (str "katex")
     || classList_contains attrs (str "mathjax")
     || containsLaTeX childrenMarkdown
  then
    if notionMode then replace_all re_dollars [] childrenMarkdown
    else childrenMarkdown
  else childrenMarkdown.

Definition containerCase (node : Node) (childrenMarkdown : jsstring)
  : jsstring :=
  let hasBlockChildren :=
    existsb (fun child =>
               match child with
               | ElementNode ct _ _ _ =>
                   includesStr containerBlockTags (toLowerCase ct)
               | _ => false
               end) (children node) in
  if hasBlockChildren then childrenMarkdown
  else
    let trimmed := trim childrenMarkdown in
    if truthy trimmed then trimmed ++ nl ++ nl else [].

(** The [switch (tagName)] of [processNode], entered once the children
    have been processed. *)
Definition formatElement (w : Window) (notionMode : bool) (ctx : Ctx)
           (node : Node) (tagName : jsstring)
           (attrs : list (jsstring * jsstring)) (isInsideMath : bool)
           (childrenMarkdown : jsstring) : result jsstring :=
  let tag name := JSString.eqb tagName (str name) in
  if tag "h1"%string then Ok (heading 1 childrenMarkdown)
  else if tag "h2"%string then Ok (heading 2 childrenMarkdown)
  else if tag "h3"%string then Ok (heading 3 childrenMarkdown)
  else if tag "h4"%string then Ok (heading 4 childrenMarkdown)
  else if tag "h5"%string then Ok (heading 5 childrenMarkdown)
  else if tag "h6"%string then Ok (heading 6 childrenMarkdown)
  else if tag "p"%string then
    let trimmedP := trim childrenMarkdown in
    Ok (if truthy trimmedP then trimmedP ++ nl ++ nl else [])
  else if tag "br"%string then Ok nl
  else if tag "strong"%string || tag "b"%string then
    Ok (strongCase ctx isInsideMath childrenMarkdown)
  else if tag "em"%string || tag "i"%string then
    Ok (emCase isInsideMath childrenMarkdown)
  else if tag "code"%string then
    match parentTag ctx with
    | Some _ =>
        if negb (parentIs ctx (str "pre")) then
          Ok (backtick ++ trim childrenMarkdown ++ backtick)
        else Ok childrenMarkdown
    | None => Ok childrenMarkdown
    end
  else if tag "pre"%string then Ok (preCase node)
  else if tag "blockquote"%string then
    Ok (str "> " ++ trim childrenMarkdown ++ nl ++ nl)
  else if tag "ul"%string then Ok (childrenMarkdown ++ nl)
  else if tag "ol"%string then Ok (childrenMarkdown ++ nl)
  else if tag "li"%string then
    let trimmedLi := trim childrenMarkdown in
    if truthy trimmedLi then
      if parentIs ctx (str "ol") then Ok (str "1. " ++ trimmedLi ++ nl)
      else Ok (str "- " ++ trimmedLi ++ nl)
    else Ok []
  else if tag "a"%string then anchorCase w attrs childrenMarkdown
  else if tag "img"%string then imgCase w attrs
  else if tag "math"%string then
    markdown <- mathMLToLaTeX notionMode node ;;
    if attrIs attrs (str "display") (str "block") && negb notionMode
    then Ok (markdown ++ nl ++ nl)
    else Ok markdown
  else if tag "table"%string then table childrenMarkdown
  else if tag "tr"%string then Ok (tableRowElement childrenMarkdown)
  else if tag "td"%string || tag "th"%string then
    Ok (tableCell childrenMarkdown)
  else if tag "span"%string then
    Ok (spanCase notionMode attrs childrenMarkdown)
  else if includesStr containerTags tagName then
    Ok (containerCase node childrenMarkdown)
  else if includesStr ignoredTags tagName then Ok []
  else Ok childrenMarkdown.

(** The loop over the child nodes: each child is processed with its
    parent, the math flag and its previous sibling in view, and its result
    is added to [childrenMarkdown]. An exception ends the loop. *)
Definition processChildren (process : Ctx -> Node -> result jsstring)
           (t : jsstring) (isInsideMath : bool)
  : option Node -> list Node -> jsstring -> result jsstring :=
  fix loop (prev : option Node) (l : list Node)
      (childrenMarkdown : jsstring) : result jsstring :=
    match l with
    | [] => Ok childrenMarkdown
    | child :: l' =>
        match process {| parentTag := Some t;
                         mathAncestor := isInsideMath;
                         previousSibling := prev |} child with
        | Ok childResult =>
            loop (Some child) l'
                 (appendChild childrenMarkdown child childResult)
        | Throw e => Throw e
        end
    end.

(** [processNode]: a text node is repaired, an element that
    [shouldSkipElement] rejects gives the empty string before any child is
    looked at, any other element has its children processed in order and
    is then formatted by its tag. The call stack is taken to have room
    for the tree; [processNodeWithin] counts the room. *)
Fixpoint processNode (w : Window) (notionMode : bool) (ctx : Ctx)
         (node : Node) : result jsstring :=
  match node with
  | TextNode d => Ok (processText notionMode d)
  | OtherNode _ => Ok []
  | ElementNode t attrs _ cs =>
      if shouldSkipElement node then Ok []
      else
        let tagName := toLowerCase t in
        let isInsideMath :=
          mathAncestor ctx || JSString.eqb tagName (str "math") in
        match processChildren (processNode w notionMode) t isInsideMath
                              None cs [] with
        | Ok childrenMarkdown =>
            formatElement w notionMode ctx node tagName attrs isInsideMath
                          childrenMarkdown
        | Throw e => Throw e
        end
  end.

(** ** The document and [findMainContent] *)

Record Page : Type := {
  window : Window;
  documentElement : Node
}.

(** An element located in the document: its handle, its ancestors
    (nearest first) and the element itself. *)
Record Located : Type := {
  handle : path;
  ancestors : list Node;
  element : Node
}.

Definition allElements (d : Page) : list Located :=
  map (fun x => {| handle := fst (fst x);
                   ancestors := snd (fst x);
                   element := snd x |})
      (elementsFrom [] [] (documentElement d)).

(** [document.querySelector(sel)] *)
Definition querySelector (d : Page) (sel : selector) : option Located :=
  find (fun l => matches sel (ancestors l) (element l)) (allElements d).

(** [document.querySelectorAll('a, b, ...')] *)
Definition querySelectorAll (d : Page) (sels : list selector)
  : list Located :=
  filter (fun l => existsb (fun sel => matches sel (ancestors l) (element l))
                           sels)
         (allElements d).

(** [a || b] on two lookups. *)
Definition orElse {A : Type} (a b : option A) : option A :=
  match a with Some _ => a | None => b end.

Fixpoint firstOf {A : Type} (f : selector -> option A) (sels : list selector)
  : option A :=
  match sels with
  | [] => None
  | sel :: sels' => orElse (f sel) (firstOf f sels')
  end.

(** [el.closest(sel)]: the element itself or its nearest ancestor that
    matches. *)
Fixpoint closestFrom (s : simple) (p : path) (chain : list Node)
  : option Located :=
  match chain with
  | [] => None
  | n :: chain' =>
      if matchesSimple s n
      then Some {| handle := p; ancestors := chain'; element := n |}
      else closestFrom s (removelast p) chain'
  end.

Definition closest (s : simple) (l : Located) : option Located :=
  closestFrom s (handle l) (element l :: ancestors l).

(** [document.body]: the first [body] or [frameset] child of the [html]
    document element, [null] when there is none. *)
Fixpoint bodyIndex (cs : list Node) (i : nat) : option (nat * Node) :=
  match cs with
  | [] => None
  | c :: cs' =>
      if tagIs (str "body") c || tagIs (str "frameset") c then Some (i, c)
      else bodyIndex cs' (S i)
  end.

Definition body (d : Page) : option Located :=
  if tagIs (str "html") (documentElement d) then
    match bodyIndex (childNodesOf (documentElement d)) 0 with
    | Some (i, b) =>
        Some {| handle := [i]; ancestors := [documentElement d];
                element := b |}
    | None => None
    end
  else None.

Definition semanticSelectors : list selector :=
  [Sel (STag (str "article")); Sel (STag (str "main"));
   Sel (SAttrEq (str "role") (str "main"))].

Definition contentSelectors : list selector :=
  [Sel (SClass (str "content")); Sel (SId (str "content"));
   Sel (SClass (str "post")); Sel (SClass (str "entry-content"));
   Sel (SClass (str "post-content")); Sel (SClass (str "article-content"));
   Sel (SClass (str "page-content")); Sel (SClass (str "container"));
   Sel (SClass (str "wrapper")); Sel (SClass (str "main-content"))].

Definition githubSelectors : list selector :=
  [Sel (SAttrEq (str "data-testid") (str "results-list"));
   Desc (SClass (str "js-navigation-container")) (SClass (str "js-issue-row"));
   Sel (SClass (str "js-navigation-container"));
   Sel (SClass (str "repository-content"));
   Sel (SClass (str "application-main"));
   Sel (SAttr (str "data-turbo-permanent"));
   Sel (SId (str "js-repo-pjax-container"))].

Definition candidateSelectors : list selector :=
  [Sel (STag (str "div")); Sel (STag (str "section"));
   Sel (STag (str "article")); Sel (STag (str "main"))].

(** Strategy 4: the candidate with the longest clean text; a later
    candidate replaces the best one only when strictly longer. *)
Fixpoint largestCandidate (candidates : list Located)
         (bestCandidate : option Located) (maxTextLength : nat)
  : option Located :=
  match candidates with
  | [] => bestCandidate
  | candidate :: rest =>
      if shouldSkipElement (element candidate)
      then largestCandidate rest bestCandidate maxTextLength
      else
        let textLength := length (getCleanTextContent (element candidate)) in
        if (maxTextLength <? textLength)%nat
        then largestCandidate rest (Some candidate) textLength
        else largestCandidate rest bestCandidate maxTextLength
  end.

Definition githubContent (d : Page) : option Located :=
  if includes (location_hostname (window d)) (str "github.com") then
    match firstOf (querySelector d) githubSelectors with
    | Some mainContent =>
        orElse (closest (SClass (str "js-navigation-container")) mainContent)
               (Some mainContent)
    | None => None
    end
  else None.

(** The result is [None] when every strategy fails and the document has
    no body ([document.body] is [null]). *)
Definition findMainContent (d : Page) : option Located :=
  orElse (firstOf (querySelector d) semanticSelectors)
    (orElse (firstOf (querySelector d) contentSelectors)
       (orElse (githubContent d)
          (orElse (largestCandidate (querySelectorAll d candidateSelectors)
                                    None 0)
                  (body d)))).

(** ** The cleanup passes *)

Definition is_blank (c : N) : bool := (c =? 32)%N || (c =? 9)%N.
Definition is_sentence_end (c : N) : bool :=
  (c =? 46)%N || (c =? 33)%N || (c =? 63)%N.
Definition is_nl (c : N) : bool := (c =? 10)%N.
(** [.] without the [s] flag *)
Definition is_dot (c : N) : bool := negb (is_line_terminator c).

(* /\n{4,}/ *)
Definition re_nl4 : regex := at_least 4 is_nl.
(* /[ \t]+\n/ *)
Definition re_blank_nl : regex := seqs [plus is_blank; Cls is_nl].
(* /\n[ \t]+/ *)
Definition re_nl_blank : regex := seqs [Cls is_nl; plus is_blank].
(* /[ \t]{2,}/ *)
Definition re_blank2 : regex := at_least 2 is_blank.
(* /([.!?])\s*([A-Z])/ *)
Definition re_sentence_cap : regex :=
  seqs [Grp 1 (Cls is_sentence_end); Rep is_space; Grp 2 (Cls is_upper)].
(* /([a-z])([A-Z])/ *)
Definition re_camel : regex := seqs [Grp 1 (Cls is_lower); Grp 2 (Cls is_upper)].
(* /(\w)([.!?])\s*(\w)/ *)
Definition re_punct_word : regex :=
  seqs [Grp 1 (Cls is_word); Grp 2 (Cls is_sentence_end); Rep is_space;
        Grp 3 (Cls is_word)].
(* /\n{3,}/ *)
Definition re_nl3 : regex := at_least 3 is_nl.
(* /\|\s*\n/ *)
Definition re_pipe_nl : regex :=
  seqs [Cls (is_char c_pipe); Rep is_space; Cls is_nl].
(* /^\s+|\s+$/ *)
Definition re_trim : regex :=
  Alt (seqs [Bol; plus is_space]) (seqs [plus is_space; Eol]).
(* an opening bracket, group 1 = any run without a closing bracket, then the three characters ]() *)
Definition re_empty_target : regex :=
  seqs [Cls (is_char 91); Grp 1 (Rep (not_char 93)); lit (str "]()")].
(* the three characters []( , any run without a closing parenthesis, then a closing parenthesis *)
Definition re_empty_text : regex :=
  seqs [lit (str "[]("); Rep (not_char 41); Cls (is_char 41)].
(* /\|\s*\|\s*\n/ *)
Definition re_empty_cell : regex :=
  seqs [Cls (is_char c_pipe); Rep is_space; Cls (is_char c_pipe);
        Rep is_space; Cls is_nl].
(* /(\w+)\*\*([A-Z]+)\*\*/ *)
Definition re_word_bold_caps : regex :=
  seqs [Grp 1 (plus is_word); lit (str "**"); Grp 2 (plus is_upper);
        lit (str "**")].
(* /(\w+)\*\*(\w+)\*\*/ *)
Definition re_word_bold_word : regex :=
  seqs [Grp 1 (plus is_word); lit (str "**"); Grp 2 (plus is_word);
        lit (str "**")].
(* /\*\*(\w+)\*\*/ *)
Definition re_bold_word : regex :=
  seqs [lit (str "**"); Grp 1 (plus is_word); lit (str "**")].
(* /\n\n\n+/ *)
Definition re_nl_nl_nl : regex := seqs [lit (nl ++ nl); plus is_nl].
(* /([.!?])\n([A-Z])/ *)
Definition re_sentence_nl_cap : regex :=
  seqs [Grp 1 (Cls is_sentence_end); Cls is_nl; Grp 2 (Cls is_upper)].
(* /^(.+)$/gm *)
Definition re_line : regex := seqs [Bol; Grp 1 (plus is_dot); Eol].
(* /\$\$/ *)
Definition re_dollar2 : regex := lit (str "$$").
(* /\$/ *)
Definition re_dollar : regex := Cls (is_char c_dollar).

(** The first to fifth pass, in the order of the chain of [replace]
    calls. *)
Definition cleanupPasses : list (jsstring -> jsstring) := [
  replace_all re_nl4 [TLit (nl ++ nl ++ nl)];
  replace_all re_blank_nl [TLit nl];
  replace_all re_nl_blank [TLit nl];
  replace_all re_blank2 [TLit (str " ")];
  replace_all re_sentence_cap [TRef 1; TLit (str " "); TRef 2];
  replace_all re_camel [TRef 1; TLit (str " "); TRef 2];
  replace_all re_punct_word [TRef 1; TRef 2; TLit (str " "); TRef 3];
  replace_all re_nl3 [TLit (nl ++ nl)];
  replace_all re_pipe_nl [TLit (str "|" ++ nl)];
  replace_all re_trim [];
  replace_all re_empty_target [TRef 1];
  replace_all re_empty_text [];
  replace_all re_empty_cell [TLit (str "|" ++ nl)];
  replace_all re_word_bold_caps t_sup12;
  replace_all re_word_bold_word t_sup12;
  replace_all re_word_stars_caps t_sup12;
  replace_all re_word_stars_word t_sup12;
  replace_all re_stars_caps_stars t_sup1;
  replace_all re_bold_word t_sup1;
  replace_all re_nl_nl_nl [TLit (nl ++ nl)];
  replace_all re_sentence_nl_cap [TRef 1; TLit (nl ++ nl); TRef 2];
  replace_fn true re_line (fun m _ => trim m)
].

(** The additional passes of Notion mode. *)
Definition notionPasses : list (jsstring -> jsstring) := [
  replace_all re_dollar2 [];
  replace_all re_dollar [];
  replace_all re_nl3 [TLit (nl ++ nl)]
].

Definition applyPasses (passes : list (jsstring -> jsstring))
           (s : jsstring) : jsstring :=
  fold_left (fun acc pass => pass acc) passes s.

Definition cleanup (result : jsstring) (notionMode : bool) : jsstring :=
  let result := applyPasses cleanupPasses result in
  if notionMode then applyPasses notionPasses result else result.

(** [result.split(/\s+/).filter(word => word.length > 0).length] *)
Definition wordCount (result : jsstring) : nat :=
  length (filter (fun word => (0 <? length word)%nat)
                 (split_re re_spaces result)).

(** ** [extractPageContent] *)

Definition sameNode (a b : option Located) : bool :=
  match a, b with
  | Some x, Some y => path_eqb (handle x) (handle y)
  | None, None => true
  | _, _ => false
  end.

(** The previous sibling of a located element. *)
Definition previousSiblingOf (l : Located) : option Node :=
  match ancestors l with
  | parent :: _ =>
      match last (handle l) 0%nat with
      | O => None
      | S i => nth_error (childNodesOf parent) i
      end
  | [] => None
  end.

Definition ctxOf (l : Located) : Ctx :=
  {| parentTag :=
       match ancestors l with
       | ElementNode t _ _ _ :: _ => Some t
       | _ => None
       end;
     mathAncestor := existsb (tagIs (str "math")) (ancestors l);
     previousSibling := previousSiblingOf l |}.

(** What one activation of [extractPageContent] does before it returns
    or calls itself. *)
Inductive activation : Type :=
| Returns (result : jsstring)
| CallsItself
| Throws (e : exn).

(** [processNode(mainContent)]; reading [nodeType] of [null] throws. *)
Definition processRoot (d : Page) (notionMode : bool)
           (root : option Located) : result jsstring :=
  match root with
  | Some l => processNode (window d) notionMode (ctxOf l) (element l)
  | None => Throw TypeError
  end.

Definition extractOnce (d : Page) (notionMode : bool) : activation :=
  let mainContent := findMainContent d in
  match processRoot d notionMode mainContent with
  | Throw e => Throws e
  | Ok raw =>
      let result := cleanup raw notionMode in
      if (wordCount result <? 3)%nat then
        if negb (sameNode mainContent (body d)) then CallsItself
        else Returns result
      else Returns result
  end.

(** [stack] bounds the depth of the nested activations: the engine throws
    a [RangeError] when the call stack is exhausted. The self-call passes
    [notionMode] and nothing else; the document is the same. *)
Fixpoint extractPageContent (stack : nat) (d : Page) (notionMode : bool)
  : result jsstring :=
  match stack with
  | O => Throw RangeError
  | S stack' =>
      match extractOnce d notionMode with
      | Returns result => Ok result
      | CallsItself => extractPageContent stack' d notionMode
      | Throws e => Throw e
      end
  end.

(** The number of activations of [extractPageContent] that are entered
    when the call stack has room for [stack] of them. *)
Fixpoint activations (stack : nat) (d : Page) (notionMode : bool) : nat :=
  match stack with
  | O => O
  | S stack' =>
      match extractOnce d notionMode with
      | CallsItself => S (activations stack' d notionMode)
      | _ => 1%nat
      end
  end.

(** What the specification describes as the retry: the pipeline run with
    the document body as the root. *)
Definition extractFromBody (d : Page) (notionMode : bool) : result jsstring :=
  raw <- processRoot d notionMode (body d) ;; Ok (cleanup raw notionMode).

(** The condition of the fallback: the located root is not the document
    body, and the cleaned result of its rendering has fewer than three
    words. *)
Definition escalates (d : Page) (notionMode : bool) : Prop :=
  sameNode (findMainContent d) (body d) = false
  /\ exists raw,
       processRoot d notionMode (findMainContent d) = Ok raw
       /\ (wordCount (cleanup raw notionMode) < 3)%nat.

(** ** Documents used in the statements *)

Module Sample.

Definition visible : ComputedStyle :=
  {| display := str "block"; visibility := str "visible";
     opacity := str "1" |}.

Definition el (t : string) (attrs : list (string * string))
           (cs : list Node) : Node :=
  ElementNode (str t) (map (fun kv => (str (fst kv), str (snd kv))) attrs)
              visible cs.

Definition txt (s : string) : Node := TextNode (str s).

Definition win : Window :=
  {| location_href := str "https://example.org/notes/page.html";
     location_hostname := str "example.org";
     resolveURL := fun href base => Ok (base ++ str "#" ++ href) |}.

(** An HTML document with the given children of its body. *)
Definition page (content : list Node) : Page :=
  {| window := win;
     documentElement :=
       el "HTML" [] [el "HEAD" [] [el "TITLE" [] [txt "Notes"]];
                     el "BODY" [] content] |}.

Definition ctx0 : Ctx :=
  {| parentTag := Some (str "BODY"); mathAncestor := false;
     previousSibling := None |}.

(** [<article>Hi</article><p>Plenty of words in the body here</p>] *)
Definition shortArticle : Page :=
  page [el "ARTICLE" [] [txt "Hi"];
        el "P" [] [txt "Plenty of words in the body here"]].

(** [<main>Hi</main>]: the body has fewer than three words too. *)
Definition shortEverywhere : Page := page [el "MAIN" [] [txt "Hi"]].

(** [<msup><mi>x</mi></msup>] *)
Definition msupOneChild : Node := el "msup" [] [el "mi" [] [txt "x"]].

(** [<p>The square <math>m</math> is positive.</p>] as the body. *)
Definition squarePage (m : Node) : Page :=
  page [el "P" [] [txt "The square "; el "math" [] [m];
                   txt " is positive."]].

(** [<mroot><mi>x</mi></mroot>] *)
Definition mrootOneChild : Node := el "mroot" [] [el "mi" [] [txt "x"]].

(** [<math><mi>x</mi><msup><mi>x</mi><mn>2</mn></msup></math>] with the
    given attributes on the [math] element. *)
Definition xTimesXSquared (attrs : list (jsstring * jsstring))
           (st : ComputedStyle) : Node :=
  ElementNode (str "math") attrs st
    [el "mi" [] [txt "x"];
     el "msup" [] [el "mi" [] [txt "x"]; el "mn" [] [txt "2"]]].

(** [<div class="Box">Repository files</div>] *)
Definition boxDiv : Node :=
  el "DIV" [("class", "Box")%string] [txt "Repository files"].

(** [<div class="gradient">Banner text</div>] *)
Definition gradientDiv : Node :=
  el "DIV" [("class", "gradient")%string] [txt "Banner text"].

(** [<div class="border-top">Closing remarks</div>] *)
Definition borderTopDiv : Node :=
  el "DIV" [("class", "border-top")%string] [txt "Closing remarks"].

(** [<div class="sidebar"><h2>menu entries</h2></div>] *)
Definition sidebarDiv : Node :=
  el "DIV" [("class", "sidebar")%string] [el "H2" [] [txt "menu entries"]].

(** [<pre><div class="sidebar"><h2>menu entries</h2></div>let x = 1</pre>]
    as the body. *)
Definition prePage : Page :=
  page [el "PRE" [] [sidebarDiv; txt "let x = 1"]].

(** [<p>q**S</p>] as the body. *)
Definition exponentPage : Page := page [el "P" [] [txt "q**S"]].

(** [<p>**bold**</p>] as the body. *)
Definition boldPage : Page := page [el "P" [] [txt "**bold**"]].

(** [<p>Let $aX+b$ be linear.</p>] as the body. *)
Definition linearPage : Page :=
  page [el "P" [] [txt "Let $aX+b$ be linear."]].

(** A table of two rows of two cells, as the parser builds it (the rows
    in a [tbody]); the first row holds header cells. *)
Definition tableOf (a b c d : list Node) : Node :=
  el "TABLE" []
     [el "TBODY" []
         [el "TR" [] [el "TH" [] a; el "TH" [] b];
          el "TR" [] [el "TD" [] c; el "TD" [] d]]].

Definition table2x2 : Node :=
  tableOf [txt "a"] [txt "b"] [txt "c"] [txt "d"].

(** An article with a heading, paragraphs, lists, a link, inline math, a
    quotation, a code block, a table and emphasis. *)
Definition notes : Node :=
  el "ARTICLE" []
     [el "H1" [] [txt "Clean notes"];
      el "P" [] [txt "A first paragraph. It has two sentences."];
      el "UL" [] [el "LI" [] [txt "item one"]; el "LI" [] [txt "item two"]];
      el "OL" [] [el "LI" [] [txt "step one"]];
      el "P" [] [txt "See ";
                 el "A" [("href", "https://example.org/p.pdf")%string]
                    [txt "the paper"];
                 txt " and let "; xTimesXSquared [] visible;
                 txt " be given."];
      el "BLOCKQUOTE" [] [txt "quoted text"];
      el "PRE" [] [el "CODE" [("class", "language-c")%string] [txt "int x;"]];
      table2x2;
      el "P" [] [el "STRONG" [] [txt "two words"]; txt " and ";
                 el "EM" [] [txt "more words"]]].

(** What the transducer produces for a node, the empty string when it
    throws. *)
Definition rendering (notionMode : bool) (n : Node) : jsstring :=
  match processNode win notionMode ctx0 n with
  | Ok s => s
  | Throw _ => []
  end.

(** Markdown fragments: renderings of the sample trees in both modes and
    fragments written by hand. *)
Definition fragments : list jsstring :=
  [rendering false notes; rendering true notes;
   rendering false table2x2;
   rendering false (el "H2" [] [txt "A heading"]);
   rendering false (el "P" [] [txt "One sentence. Another sentence."]);
   rendering false (el "UL" [] [el "LI" [] [txt "first"];
                                el "LI" [] [txt "second"]]);
   str "# Title" ++ nl ++ nl ++ str "Some text here." ++ nl ++ nl
   ++ str "- one" ++ nl ++ str "- two" ++ nl;
   str "Let $x^{2}$ be given and $$E=mc^{2}$$ too.";
   str "1. first" ++ nl ++ str "1. second" ++ nl ++ nl ++ str "> quoted"].

(** The rendering of a table whose first row ends with an empty cell. *)
Definition emptyCellTable : jsstring :=
  rendering false (tableOf [txt "a"] [] [txt "b"] [txt "c"]).

End Sample.

(** ** Predicates of the statements *)

(** Lower-casing leaves every code unit of [t] as it is. *)
Definition lower_fixed (t : jsstring) : Prop :=
  forall x, In x t -> lower_units x = [x].

Definition all_lower_fixed (vocabulary : list jsstring) : bool :=
  forallb (forallb (fun x => JSString.eqb (lower_units x) [x])) vocabulary.


(** Some class name of the element holds a term of the generic noise
    vocabulary. *)
Definition hasNoiseClass (attrs : list (jsstring * jsstring)) : Prop :=
  exists c t,
    In c (classList attrs) /\ In t skipClasses /\ includes c t = true.

(** The non-empty lines of a Markdown text. *)
Definition lines (s : jsstring) : list jsstring :=
  filter truthy (split_char c_nl s).



(** The text that a table cell shows for a text node: the repaired text,
    trimmed. *)
Definition cellText (notionMode : bool) (x : jsstring) : jsstring :=
  trim (processText notionMode x).

(** A cell text that is not empty and has neither a line break nor a
    pipe. *)
Definition plainCell (y : jsstring) : Prop :=
  y <> [] /\ Forall (fun ch => ch <> c_nl /\ ch <> c_pipe) y.

(** The text of a row of two cells after the leading pipe that the table
    rule adds. *)
Definition rowBody (a b : jsstring) : jsstring :=
  a ++ str " | " ++ b ++ str " ||".

(** The line of a row of two cells, as the transducer emits it. *)
Definition tableLine (a b : jsstring) : jsstring :=
  str "| " ++ a ++ str " | " ++ b ++ str " ||".

(** A separator line of [k] cells. *)
Definition separatorLine (k : nat) : jsstring :=
  str "| " ++ repeat_str (str "--- | ") k.


(** ** Strings that the cleanup leaves alone *)

(** Every match of the expression holds a code unit of the class [Q]. *)
Inductive requires (Q : N -> bool) : regex -> Prop :=
| req_cls p : (forall c, p c = true -> Q c = true) -> requires Q (Cls p)
| req_seq_l r1 r2 : requires Q r1 -> requires Q (Seq r1 r2)
| req_seq_r r1 r2 : requires Q r2 -> requires Q (Seq r1 r2)
| req_alt r1 r2 : requires Q r1 -> requires Q r2 -> requires Q (Alt r1 r2)
| req_grp i r : requires Q r -> requires Q (Grp i r).

(** No code unit of the string is of the class [Q]. *)
Definition without (Q : N -> bool) (s : jsstring) : Prop :=
  Forall (fun c => Q c = false) s.

(** A code unit that no cleanup pass looks for: no white space, no capital
    letter, none of [. ! ? * [ $]. *)
Definition inert (c : N) : bool :=
  negb (is_space c) && negb (is_upper c) && negb (is_sentence_end c)
  && negb (c =? c_star)%N && negb (c =? 91)%N && negb (c =? c_dollar)%N.

(** What can follow an inert code unit on a plain line: inert code units,
    single spaces each followed by an inert code unit. *)
Inductive inertTail : jsstring -> Prop :=
| it_nil : inertTail []
| it_char c s : inert c = true -> inertTail s -> inertTail (c :: s)
| it_space c s : inert c = true -> inertTail s -> inertTail (32%N :: c :: s).

(** A plain line: empty, or inert words separated by single spaces. *)
Definition plainLine (x : jsstring) : Prop :=
  inertTail x /\ startsWith x (str " ") = false.

(** A class of which the inert code units and the space are not. *)
Definition avoided (Q : N -> bool) : Prop :=
  Q 32%N = false /\ forall c, inert c = true -> Q c = false.


(** ** Predicates of the further properties *)

Unset Implicit Arguments.

(** Induction on a node with the property of the child nodes at hand. *)
Fixpoint Node_induction (P : Node -> Prop)
         (Htext : forall d, P (TextNode d))
         (Hother : forall d, P (OtherNode d))
         (Helement : forall t attrs st cs,
             Forall P cs -> P (ElementNode t attrs st cs))
         (n : Node) : P n :=
  match n with
  | TextNode d => Htext d
  | OtherNode d => Hother d
  | ElementNode t attrs st cs =>
      Helement t attrs st cs
        ((fix all (l : list Node) : Forall P l :=
            match l with
            | [] => Forall_nil P
            | c :: l' =>
                Forall_cons c
                  (Node_induction P Htext Hother Helement c) (all l')
            end) cs)
  end.

(** The chain of ancestors of a handle, nearest first, up to some
    ancestor. *)
Fixpoint chainOf (root : Node) (p : path) (chain : list Node) : Prop :=
  match chain with
  | [] => True
  | a :: chain' =>
      p <> [] /\ nodeAt root (removelast p) = Some a
      /\ chainOf root (removelast p) chain'
  end.

(** A located element of the document below [root]: the handle leads to
    the element, and the ancestors are the nodes on the way. *)
Definition inDocument (root : Node) (l : Located) : Prop :=
  nodeAt root (handle l) = Some (element l)
  /\ isElement (element l) = true
  /\ chainOf root (handle l) (ancestors l).

(** The measure of the fourth strategy, and the candidates that it
    measures. *)
Definition cleanLength (l : Located) : nat :=
  length (getCleanTextContent (element l)).

Definition accepted (l : Located) : bool :=
  negb (shouldSkipElement (element l)).

(** The number of element children that the rule of a MathML tag reads
    without asking how many there are. *)
Definition requiredChildren (tagName : jsstring) : nat :=
  if JSString.eqb tagName (str "msup") then 2
  else if JSString.eqb tagName (str "msub") then 2
  else if JSString.eqb tagName (str "mfrac") then 2
  else if JSString.eqb tagName (str "msqrt") then 1
  else 0.

(** Every element of the tree has the element children that its rule
    reads. *)
Fixpoint arityOK (n : Node) : bool :=
  match n with
  | ElementNode t _ _ cs =>
      (requiredChildren (toLowerCase t) <=? length (filter isElement cs))%nat
      && forallb arityOK cs
  | _ => true
  end.

(** Every [math] element of the tree is well formed in that sense. *)
Fixpoint mathReady (n : Node) : bool :=
  match n with
  | ElementNode t _ _ cs =>
      (if JSString.eqb (toLowerCase t) (str "math") then arityOK n else true)
      && forallb mathReady cs
  | _ => true
  end.

(** The references of the tree resolve: the [URL] constructor accepts
    the [href] of every [a] element and the [src] of every [img]
    element that does not start with [http]. *)
Definition isOk {A : Type} (r : result A) : bool :=
  match r with Ok _ => true | Throw _ => false end.

Definition refOK (w : Window) (attrs : list (jsstring * jsstring))
           (name : jsstring) : bool :=
  match getAttribute attrs name with
  | Some url => isOk (absoluteURL w url)
  | None => true
  end.

Fixpoint refsResolve (w : Window) (n : Node) : bool :=
  match n with
  | ElementNode t attrs _ cs =>
      (if JSString.eqb (toLowerCase t) (str "a")
       then refOK w attrs (str "href") else true)
      && (if JSString.eqb (toLowerCase t) (str "img")
          then refOK w attrs (str "src") else true)
      && forallb (refsResolve w) cs
  | _ => true
  end.

(** ** The call stack of the recursive conversions

    [mathMLToLaTeX] and [processNode] call themselves once for each
    level of the tree, and the engine throws a [RangeError] when the
    call stack is exhausted. The two functions are defined above for a
    stack that has room for the tree; here they are again with the room
    counted: [room] is the number of nested calls that the stack still
    takes. With no room left every call throws, whatever its argument. *)

Definition rangeOnly {A : Type} (r : result A) : result A :=
  match r with
  | Ok a => Ok a
  | Throw _ => Throw RangeError
  end.

Fixpoint mathMLToLaTeXWithin (room : nat) (notionMode : bool)
         (mathMLNode : Node) : result jsstring :=
  match mathMLNode with
  | ElementNode t attrs _ _ =>
      match room with
      | O =>
          rangeOnly
            (mathMLCase notionMode (toLowerCase t) mathMLNode attrs
               (map (fun _ => Throw RangeError) (children mathMLNode)))
      | S room' =>
          mathMLCase notionMode (toLowerCase t) mathMLNode attrs
            (map (mathMLToLaTeXWithin room' notionMode)
                 (children mathMLNode))
      end
  | _ => Throw TypeError
  end.

(** The [switch] of [processNode] with the room counted: the [math] case
    is the one that calls a recursive function. *)
Definition formatElementWithin (room : nat) (w : Window) (notionMode : bool)
           (ctx : Ctx) (node : Node) (tagName : jsstring)
           (attrs : list (jsstring * jsstring)) (isInsideMath : bool)
           (childrenMarkdown : jsstring) : result jsstring :=
  if JSString.eqb tagName (str "math") then
    markdown <- match room with
                | O => Throw RangeError
                | S room' => mathMLToLaTeXWithin room' notionMode node
                end ;;
    if attrIs attrs (str "display") (str "block") && negb notionMode
    then Ok (markdown ++ nl ++ nl)
    else Ok markdown
  else formatElement w notionMode ctx node tagName attrs isInsideMath
                     childrenMarkdown.

Fixpoint processNodeWithin (room : nat) (w : Window) (notionMode : bool)
         (ctx : Ctx) (node : Node) : result jsstring :=
  match node with
  | TextNode d => Ok (processText notionMode d)
  | OtherNode _ => Ok []
  | ElementNode t attrs _ cs =>
      if shouldSkipElement node then Ok []
      else
        let tagName := toLowerCase t in
        let isInsideMath :=
          mathAncestor ctx || JSString.eqb tagName (str "math") in
        match processChildren
                match room with
                | O => fun _ _ => Throw RangeError
                | S room' => processNodeWithin room' w notionMode
                end
                t isInsideMath None cs [] with
        | Ok childrenMarkdown =>
            formatElementWithin room w notionMode ctx node tagName attrs
                                isInsideMath childrenMarkdown
        | Throw e => Throw e
        end
  end.

(** The number of levels of a tree. *)
Fixpoint depth (n : Node) : nat :=
  match n with
  | ElementNode _ _ _ cs => S (list_max (map depth cs))
  | _ => 1
  end.

(** The result with the room counted is the result without, or the
    [RangeError] of the exhausted stack. *)
Definition orOverflow {A : Type} (r' r : result A) : Prop :=
  r' = r \/ r' = Throw RangeError.

(** The three code units that the repair of a text node looks for: the
    asterisk, the underscore and the dollar sign. *)
Definition marker (c : N) : bool :=
  is_char c_star c || is_char c_underscore c || is_char c_dollar c.

(** A letter of the Basic Latin range or a digit. *)
Definition alnum (c : N) : bool := is_digit c || is_upper c || is_lower c.

(** The number of line feeds that a string starts with. *)
Fixpoint leadingNewlines (s : jsstring) : nat :=
  match s with
  | c :: s' => if is_nl c then S (leadingNewlines s') else 0
  | [] => 0
  end.

(** Three line feeds in a row, that is two empty lines. *)
Definition blankLines : jsstring := nl ++ nl ++ nl.

(** What the [li] rule puts before an item, given the tag name of the
    list in lower case. *)
Definition itemMarker (tagName : jsstring) : jsstring :=
  if JSString.eqb tagName (str "ol") then str "1. " else str "- ".

(** The lines of the items with the given texts. *)
Definition itemLines (tagName : jsstring) (bodies : list jsstring)
  : jsstring :=
  flat_map (fun b => itemMarker tagName ++ b ++ nl) bodies.

(** The token elements of MathML, whose rule reads the text. *)
Definition isToken (tagName : jsstring) : bool :=
  JSString.eqb tagName (str "mi") || JSString.eqb tagName (str "mn")
  || JSString.eqb tagName (str "mo").

(** The tree without the child nodes that are not elements, the token
    elements left as they are. *)
Fixpoint elementsOnly (n : Node) : Node :=
  match n with
  | ElementNode t attrs st cs =>
      if isToken (toLowerCase t) then n
      else
        ElementNode t attrs st
          ((fix kids (l : list Node) : list Node :=
              match l with
              | [] => []
              | (ElementNode _ _ _ _ as c) :: l' => elementsOnly c :: kids l'
              | _ :: l' => kids l'
              end) cs)
  | _ => n
  end.

(** The code units that the repair of a text node and the detection of
    LaTeX look for: the markers, the backslash and the caret. *)
Definition mathChar (c : N) : bool :=
  marker c || is_char c_backslash c || is_char c_caret c.

(** Words separated by single spaces: every white space code unit is a
    space that is followed by a code unit that is not white space. *)
Inductive spaced : jsstring -> Prop :=
| sp_nil : spaced []
| sp_char c s : is_space c = false -> spaced s -> spaced (c :: s)
| sp_space c s :
    is_space c = false -> spaced s -> spaced (32%N :: c :: s).

(** A phrase: words separated by single spaces, the first code unit not
    a space, without asterisk, underscore, dollar sign, backslash and
    caret. *)
Definition phrase (x : jsstring) : Prop :=
  x <> [] /\ spaced x /\ startsWith x (str " ") = false
  /\ without mathChar x.

(** The child nodes of a list whose items hold one phrase each:
    [itemsOf cs xs] when the items of [cs] are [li] elements that
    [shouldSkipElement] accepts and hold the phrases [xs], in this order,
    the other child nodes being white space and comments. *)
Inductive itemsOf : list Node -> list jsstring -> Prop :=
| io_nil : itemsOf [] []
| io_gap d cs xs :
    Forall (fun c => is_space c = true) d -> itemsOf cs xs ->
    itemsOf (TextNode d :: cs) xs
| io_comment d cs xs : itemsOf cs xs -> itemsOf (OtherNode d :: cs) xs
| io_item ct cattrs cst x cs xs :
    toLowerCase ct = str "li" ->
    shouldSkipElement (ElementNode ct cattrs cst [TextNode x]) = false ->
    phrase x -> itemsOf cs xs ->
    itemsOf (ElementNode ct cattrs cst [TextNode x] :: cs) (x :: xs).

(** ** What is inside a rejected element *)

(** The tree without the child nodes of the elements that
    [shouldSkipElement] rejects. *)
Fixpoint hollow (n : Node) : Node :=
  match n with
  | ElementNode t attrs st cs =>
      if shouldSkipElement n then ElementNode t attrs st []
      else ElementNode t attrs st (map hollow cs)
  | _ => n
  end.

(** The rules that read the raw text of the element, or of its
    descendants, without asking [shouldSkipElement]: [pre] copies the
    text content, [math] is converted by [mathMLToLaTeX]. *)
Definition readsRawText (tagName : jsstring) : bool :=
  JSString.eqb tagName (str "pre") || JSString.eqb tagName (str "math").

(** The elements whose rule tests the text content of the previous
    sibling. *)
Definition boldNode (n : Node) : bool :=
  match n with
  | ElementNode t _ _ _ =>
      JSString.eqb (toLowerCase t) (str "strong")
      || JSString.eqb (toLowerCase t) (str "b")
  | _ => false
  end.

(** [previousSibling?.textContent || ''] *)
Definition textOf (prev : option Node) : jsstring :=
  match prev with Some p => textContent p | None => [] end.

(** The child nodes [l], the first one after [prev]: each is calm, and a
    [strong] or [b] among them follows a node whose text content is not
    inside a rejected element. *)
Definition siblingsCalm (calm : Node -> Prop)
  : option Node -> list Node -> Prop :=
  fix siblings (prev : option Node) (l : list Node) : Prop :=
    match l with
    | [] => True
    | c :: l' =>
        calm c
        /\ (boldNode c = true ->
            textOf (option_map hollow prev) = textOf prev)
        /\ siblings (Some c) l'
    end.

(** A tree in which no rule reads raw text from inside a rejected
    element: outside the rejected elements, a [pre] or [math] element
    holds no rejected element with child nodes, and the node before a
    [strong] or [b] element has no text inside a rejected element. *)
Fixpoint calm (n : Node) : Prop :=
  match n with
  | ElementNode t attrs st cs =>
      shouldSkipElement n = true
      \/ ((readsRawText (toLowerCase t) = true -> map hollow cs = cs)
          /\ siblingsCalm calm None cs)
  | _ => True
  end.

(** ** Text that keeps its content *)

(** Text that neither the repair of a text node nor the cleanup
    rewrites: a plain line without underscore and pipe. *)
Definition quiet (x : jsstring) : Prop :=
  plainLine x /\ without (is_char c_underscore) x
  /\ without (is_char c_pipe) x.

(** What can follow a code unit of a plain line that ends a paragraph:
    the rest of the line, then at most two line feeds. *)
Inductive closedTail : jsstring -> Prop :=
| ct_nil : closedTail []
| ct_nl : closedTail nl
| ct_end : closedTail (nl ++ nl)
| ct_char c s : inert c = true -> closedTail s -> closedTail (c :: s)
| ct_space c s :
    inert c = true -> closedTail s -> closedTail (32%N :: c :: s).

(** ** Documents of the further properties *)

Module Cases.
Import Sample.

(** [<article class="post-header"><p>Some words of the header</p></article>] *)
Definition headerArticle : Node :=
  el "ARTICLE" [("class", "post-header")%string]
     [el "P" [] [txt "Some words of the header"]].

Definition headerPage : Page := page [headerArticle].

(** The article of [headerPage], as [findMainContent] locates it. *)
Definition headerLocated : Located :=
  {| handle := [1; 0]%nat;
     ancestors := [el "BODY" [] [headerArticle];
                   documentElement headerPage];
     element := headerArticle |}.

(** [<ol><li>step one</li> <li>step two</li></ol>] *)
Definition steps : Node :=
  el "OL" [] [el "LI" [] [txt "step one"]; txt " ";
              el "LI" [] [txt "step two"]].

(** [<strong>Note</strong>] and [<em>Note</em>] *)
Definition strongNote : Node := el "STRONG" [] [txt "Note"].
Definition emNote : Node := el "EM" [] [txt "Note"].

(** A window whose [URL] constructor refuses the references that hold
    a bracket, as for [//[]. *)
Definition strictWin : Window :=
  {| location_href := str "https://example.org/notes/page.html";
     location_hostname := str "example.org";
     resolveURL := fun href base =>
                     if includes href (str "[") then Throw TypeError
                     else Ok (base ++ str "#" ++ href) |}.

(** An article with a relative link, an image and an equation. *)
Definition linked : Node :=
  el "ARTICLE" []
     [el "P" [] [txt "See ";
                 el "A" [("href", "papers/first.pdf")%string]
                    [txt "the first paper"];
                 txt " and let "; xTimesXSquared [] visible;
                 txt " be given."];
      el "IMG" [("src", "figures/one.png"); ("alt", "figure one")]%string
         []].

Definition linkedPage : Page :=
  {| window := strictWin;
     documentElement :=
       el "HTML" [] [el "HEAD" [] [el "TITLE" [] [txt "Notes"]];
                     el "BODY" [] [linked]] |}.

(** A list of pull requests on GitHub:
    [<div class="js-navigation-container"><div class="js-issue-row">Fix
    the parser of dates</div></div>] *)
Definition pullsContainer : Node :=
  el "DIV" [("class", "js-navigation-container")%string]
     [el "DIV" [("class", "js-issue-row")%string]
         [txt "Fix the parser of dates"]].

Definition pullsPage : Page :=
  {| window :=
       {| location_href := str "https://github.com/o/r/pulls";
          location_hostname := str "github.com";
          resolveURL := fun href base => Ok (base ++ str "#" ++ href) |};
     documentElement :=
       el "HTML" [] [el "HEAD" [] [el "TITLE" [] [txt "Pull requests"]];
                     el "BODY" [] [pullsContainer]] |}.

(** The container of [pullsPage], as [findMainContent] locates it. *)
Definition pullsLocated : Located :=
  {| handle := [1; 0]%nat;
     ancestors := [el "BODY" [] [pullsContainer];
                   documentElement pullsPage];
     element := pullsContainer |}.

(** [<article><h1>Kept title</h1><div class="sidebar"><h2>menu
    entries</h2></div><p>Kept text</p></article>] *)
Definition withSidebar : Node :=
  el "ARTICLE" []
     [el "H1" [] [txt "Kept title"]; Sample.sidebarDiv;
      el "P" [] [txt "Kept text"]].

(** [<math><mi class="sidebar">x</mi></math>] *)
Definition mathWithSidebar : Node :=
  el "math" [] [el "mi" [("class", "sidebar")%string] [txt "x"]].

(** [<p><span class="sidebar">n</span><strong>2</strong></p>] *)
Definition boldAfterSidebar : Node :=
  el "P" [] [el "SPAN" [("class", "sidebar")%string] [txt "n"];
             el "STRONG" [] [txt "2"]].

(** [<p>data</p>] as the body. *)
Definition paragraphPage (data : jsstring) : Page :=
  Sample.page [el "P" [] [TextNode data]].

(** [k] [span] elements, each in the one before, around the text [x]. *)
Fixpoint spans (k : nat) : Node :=
  match k with
  | O => txt "x"
  | S k' => el "SPAN" [] [spans k']
  end.

(** [<strong class="HUNK-x">two words</strong>], the K of the class
    being the Kelvin sign U+212A, whose lower case is [k]. *)
Definition kelvinStrong : Node :=
  ElementNode (str "STRONG")
    [(str "class", str "HUN" ++ [8490%N] ++ str "-x")] Sample.visible
    [txt "two words"].

End Cases.
(** * Properties *)

Unset Implicit Arguments.

(** ** Strings *)

Lemma eqb_refl (s : jsstring) : JSString.eqb s s = true.
Proof.
  induction s as [|c s IH]; simpl.
  - reflexivity.
  - rewrite N.eqb_refl, IH. reflexivity.
Qed.

Lemma eqb_eq (s t : jsstring) : JSString.eqb s t = true <-> s = t.
Proof.
  split.
  - revert t. induction s as [|a s IH]; intros [|b t] H; simpl in H;
      try discriminate.
    + reflexivity.
    + apply andb_true_iff in H. destruct H as [Hab Hst].
      apply N.eqb_eq in Hab. apply IH in Hst. subst. reflexivity.
  - intros ->. apply eqb_refl.
Qed.

Lemma startsWith_refl (s : jsstring) : startsWith s s = true.
Proof.
  induction s as [|c s IH]; simpl.
  - reflexivity.
  - rewrite N.eqb_refl, IH. reflexivity.
Qed.

Lemma startsWith_single (h : N) (t : jsstring) (a : N) :
  startsWith (h :: t) [a] = (a =? h)%N.
Proof.
  cbn [startsWith]. destruct t; apply andb_true_r.
Qed.

Lemma endsWith_last (s : jsstring) (c : N) : endsWith (s ++ [c]) [c] = true.
Proof.
  unfold endsWith. rewrite rev_app_distr. simpl.
  rewrite N.eqb_refl. destruct (rev s); reflexivity.
Qed.

Lemma includes_refl (s : jsstring) : includes s s = true.
Proof.
  destruct s as [|c s].
  - reflexivity.
  - cbn [includes]. rewrite startsWith_refl. reflexivity.
Qed.

Lemma startsWith_In (p s : jsstring) :
  startsWith s p = true -> forall x, In x p -> In x s.
Proof.
  revert s. induction p as [|a p IH]; intros s H x Hx.
  - destruct Hx.
  - destruct s as [|b s]; simpl in H; [discriminate|].
    apply andb_true_iff in H. destruct H as [Hab Hs].
    apply N.eqb_eq in Hab. subst b.
    destruct Hx as [->|Hx]; [left; reflexivity|].
    right. apply (IH s Hs x Hx).
Qed.

Lemma includes_In (p s : jsstring) :
  includes s p = true -> forall x, In x p -> In x s.
Proof.
  induction s as [|b s IH]; intros H x Hx.
  - simpl in H. rewrite orb_false_r in H.
    apply (startsWith_In p [] H x Hx).
  - cbn [includes] in H. apply orb_true_iff in H. destruct H as [H|H].
    + apply (startsWith_In p (b :: s) H x Hx).
    + right. apply IH; assumption.
Qed.

Ltac norm_app :=
  cbn [app str map list_ascii_of_string N_of_ascii N_of_digits nl
       N.add N.mul Pos.add Pos.mul Pos.succ];
  repeat (rewrite <- app_assoc;
          cbn [app str map list_ascii_of_string N_of_ascii N_of_digits nl
               N.add N.mul Pos.add Pos.mul Pos.succ]).

(** *** Lower case *)

(** Lower-casing leaves no upper-case letter. *)
Lemma lower_units_not_upper (c : N) :
  Forall (fun y => is_upper y = false) (lower_units c).
Proof.
  unfold lower_units. destruct (is_upper c) eqn:E.
  - unfold is_upper, in_range in *.
    apply andb_true_iff in E. destruct E as [E1 E2].
    apply N.leb_le in E1. apply N.leb_le in E2.
    repeat constructor.
    apply andb_false_iff. right. apply N.leb_gt. lia.
  - destruct (c =? 8490)%N; [repeat constructor|].
    destruct (c =? 304)%N; repeat constructor. exact E.
Qed.

Lemma toLowerCase_cons (c : N) (s : jsstring) :
  toLowerCase (c :: s) = lower_units c ++ toLowerCase s.
Proof. reflexivity. Qed.

Lemma startsWith_lower (p : jsstring) :
  lower_fixed p ->
  forall s, startsWith s p = true -> startsWith (toLowerCase s) p = true.
Proof.
  induction p as [|a p IH]; intros Hp s H.
  - destruct (toLowerCase s); reflexivity.
  - destruct s as [|b s]; simpl in H; [discriminate|].
    apply andb_true_iff in H. destruct H as [Hab Hs].
    apply N.eqb_eq in Hab. subst b.
    rewrite toLowerCase_cons, (Hp a (or_introl eq_refl)).
    cbn [app startsWith]. rewrite N.eqb_refl. simpl.
    apply IH; [|exact Hs].
    intros x Hx. apply Hp. right. exact Hx.
Qed.

Lemma includes_app_r (l s p : jsstring) :
  includes s p = true -> includes (l ++ s) p = true.
Proof.
  intros H. induction l as [|c l IH]; [exact H|].
  cbn [app includes]. rewrite IH. apply orb_true_r.
Qed.

(** A term without upper-case letters that occurs in a string occurs in
    its lower-cased form too. *)
Lemma includes_lower (p : jsstring) :
  lower_fixed p ->
  forall s, includes s p = true -> includes (toLowerCase s) p = true.
Proof.
  intros Hp. induction s as [|b s IH]; intros H.
  - simpl in *. rewrite orb_false_r in *.
    apply (startsWith_lower p Hp [] H).
  - cbn [includes] in H. apply orb_true_iff in H. destruct H as [H|H].
    + pose proof (startsWith_lower p Hp (b :: s) H) as S.
      destruct (toLowerCase (b :: s)); cbn [includes]; rewrite S;
        reflexivity.
    + rewrite toLowerCase_cons. apply includes_app_r. apply IH. exact H.
Qed.

(** A term that holds an upper-case letter occurs in no lower-cased
    string. *)
Lemma includes_lower_mixed_case (p : jsstring) (x : N) :
  In x p -> is_upper x = true ->
  forall s, includes (toLowerCase s) p = false.
Proof.
  intros Hx Hup s.
  destruct (includes (toLowerCase s) p) eqn:E; [|reflexivity].
  pose proof (includes_In p (toLowerCase s) E x Hx) as Hin.
  unfold toLowerCase in Hin. apply in_flat_map in Hin.
  destruct Hin as [y [_ Hy]].
  pose proof (lower_units_not_upper y) as F.
  rewrite Forall_forall in F. rewrite (F x Hy) in Hup. discriminate.
Qed.

(** *** Trimming *)

Lemma trimStart_suffix (s : jsstring) : exists p, s = p ++ trimStart s.
Proof.
  induction s as [|c s [p IH]]; simpl.
  - exists []. reflexivity.
  - destruct (is_space c).
    + exists (c :: p). simpl. rewrite <- IH. reflexivity.
    + exists []. reflexivity.
Qed.

Lemma trimStart_head (s : jsstring) (h : N) (t : jsstring) :
  trimStart s = h :: t -> is_space h = false.
Proof.
  induction s as [|c s IH]; simpl; intros H.
  - discriminate.
  - destruct (is_space c) eqn:E.
    + apply IH. exact H.
    + inversion H; subst. exact E.
Qed.

Lemma trimStart_keep (h : N) (t : jsstring) :
  is_space h = false -> trimStart (h :: t) = h :: t.
Proof. intros H. simpl. rewrite H. reflexivity. Qed.

Lemma trimStart_drop (h : N) (t : jsstring) :
  is_space h = true -> trimStart (h :: t) = trimStart t.
Proof. intros H. simpl. rewrite H. reflexivity. Qed.

Lemma trimStart_app (r t : jsstring) :
  trimStart r <> [] -> trimStart (r ++ t) = trimStart r ++ t.
Proof.
  induction r as [|c r IH]; simpl; intros H.
  - contradiction.
  - destruct (is_space c); [apply IH; exact H|reflexivity].
Qed.

Lemma trimEnd_keep (t : jsstring) (l : N) :
  is_space l = false -> trimEnd (t ++ [l]) = t ++ [l].
Proof.
  intros H. unfold trimEnd. rewrite rev_app_distr.
  change (rev [l] ++ rev t) with (l :: rev t).
  rewrite trimStart_keep by exact H.
  change (rev (l :: rev t)) with (rev (rev t) ++ [l]).
  rewrite rev_involutive. reflexivity.
Qed.

Lemma trimEnd_drop (t : jsstring) (l : N) :
  is_space l = true -> trimEnd (t ++ [l]) = trimEnd t.
Proof.
  intros H. unfold trimEnd. rewrite rev_app_distr.
  change (rev [l] ++ rev t) with (l :: rev t).
  rewrite trimStart_drop by exact H. reflexivity.
Qed.

Lemma trimEnd_prefix (s : jsstring) : exists p, s = trimEnd s ++ p.
Proof.
  unfold trimEnd. destruct (trimStart_suffix (rev s)) as [p Hp].
  exists (rev p).
  rewrite <- rev_app_distr, <- Hp, rev_involutive. reflexivity.
Qed.

Lemma trimEnd_cons (c : N) (u : jsstring) :
  trimEnd u <> [] -> trimEnd (c :: u) = c :: trimEnd u.
Proof.
  unfold trimEnd. intros H. cbn [rev].
  rewrite trimStart_app.
  - rewrite rev_app_distr. reflexivity.
  - intros E. apply H. rewrite E. reflexivity.
Qed.

Lemma trimEnd_single (c : N) : is_space c = false -> trimEnd [c] = [c].
Proof. intros H. unfold trimEnd. simpl. rewrite H. reflexivity. Qed.

(** The trimmed string does not start with white space. *)
Lemma trim_head (s : jsstring) (h : N) (t : jsstring) :
  trim s = h :: t -> is_space h = false.
Proof.
  unfold trim. intros H.
  destruct (trimEnd_prefix (trimStart s)) as [p Hp].
  rewrite H in Hp. simpl in Hp.
  apply (trimStart_head s h (t ++ p)). exact Hp.
Qed.

(** A string that starts and ends with other characters than white space
    is left as it is. *)
Lemma trim_keep (h : N) (m : jsstring) (l : N) :
  is_space h = false -> is_space l = false ->
  trim (h :: m ++ [l]) = h :: m ++ [l].
Proof.
  intros Hh Hl. unfold trim. rewrite trimStart_keep by exact Hh.
  apply (trimEnd_keep (h :: m) l Hl).
Qed.

(** *** Splitting and counting *)

Lemma split_char_none (sep : N) (s : jsstring) :
  Forall (fun c => c <> sep) s -> split_char sep s = [s].
Proof.
  induction 1 as [|c s Hc Hs IH]; simpl.
  - reflexivity.
  - apply N.eqb_neq in Hc. rewrite Hc, IH. reflexivity.
Qed.

Lemma split_char_app (sep : N) (s r : jsstring) :
  Forall (fun c => c <> sep) s ->
  split_char sep (s ++ sep :: r) = s :: split_char sep r.
Proof.
  induction 1 as [|c s Hc Hs IH]; simpl.
  - rewrite N.eqb_refl. reflexivity.
  - apply N.eqb_neq in Hc. rewrite Hc, IH. reflexivity.
Qed.

Lemma count_char_app (a : N) (s t : jsstring) :
  count_char a (s ++ t) = (count_char a s + count_char a t)%nat.
Proof.
  unfold count_char. rewrite filter_app, length_app. reflexivity.
Qed.

Lemma count_char_none (a : N) (s : jsstring) :
  Forall (fun c => c <> a) s -> count_char a s = 0%nat.
Proof.
  unfold count_char. induction 1 as [|c s Hc Hs IH]; simpl.
  - reflexivity.
  - unfold is_char at 1. apply N.eqb_neq in Hc. rewrite Hc. exact IH.
Qed.

(** ** Regular expressions *)

Example greedy_backtracks :
  replace_all re_inline_eq [TRef 1] (str "a $b$ c $d$") = str "a b c d".
Proof. vm_compute. reflexivity. Qed.

Example split_words :
  split_re re_spaces (str "  ab  c ") = [[]; str "ab"; str "c"; []].
Proof. vm_compute. reflexivity. Qed.

Example wordCount_three : wordCount (str " one  two three ") = 3%nat.
Proof. vm_compute. reflexivity. Qed.

Lemma match_here_cls (ml : bool) (p : N -> bool) (prev : option N)
      (c : N) (s : jsstring) :
  match_here ml (Cls p) prev (c :: s)
  = if p c then Some (1%nat, []) else None.
Proof.
  unfold match_here. cbn [rmatch]. destruct (p c); [|reflexivity].
  change (length (c :: s)) with (S (length s)).
  rewrite Nat.sub_succ_l by lia. rewrite Nat.sub_diag. reflexivity.
Qed.

Lemma rep_cls_all (A : Type) (p : N -> bool)
      (k : option N -> jsstring -> option A) (v : A) :
  (forall prev, k prev [] = Some v) ->
  forall s prev, Forall (fun c => p c = true) s ->
                 rep_cls p prev s k = Some v.
Proof.
  intros Hk. induction s as [|c s IH]; intros prev Hs; simpl.
  - apply Hk.
  - inversion Hs as [|c' s' Hc Hs']; subst. rewrite Hc.
    rewrite (IH (Some c) Hs'). reflexivity.
Qed.

(** *** Global replacement *)

(** Every code unit of the result comes from the subject or from a
    replacement. *)
Lemma replace_go_Forall (P : N -> Prop) (ml : bool) (r : regex)
      (f : jsstring -> caps -> jsstring) :
  (forall m cs, Forall P (f m cs)) ->
  forall s prev skip, Forall P s -> Forall P (replace_go ml r f prev s skip).
Proof.
  intros Hf. induction s as [|c s IH]; intros prev skip Hs.
  - destruct skip; simpl.
    + destruct (match_here ml r prev []) as [[len cs]|].
      * rewrite app_nil_r. apply Hf.
      * constructor.
    + constructor.
  - inversion Hs as [|c' s' Hc Hs']; subst.
    destruct skip; simpl.
    + destruct (match_here ml r prev (c :: s)) as [[len cs]|].
      * apply Forall_app. split; [apply Hf|].
        destruct len.
        -- constructor; [exact Hc|]. apply IH. exact Hs'.
        -- apply IH. exact Hs'.
      * constructor; [exact Hc|]. apply IH. exact Hs'.
    + apply IH. exact Hs'.
Qed.

Lemma replace_all_literal_Forall (P : N -> Prop) (r : regex)
      (l : jsstring) (s : jsstring) :
  Forall P l -> Forall P s -> Forall P (replace_all r [TLit l] s).
Proof.
  intros Hl Hs. unfold replace_all, replace_fn.
  apply replace_go_Forall; [|exact Hs].
  intros m cs. simpl. rewrite app_nil_r. exact Hl.
Qed.

(** Nothing is replaced where no code unit is of the class. *)
Lemma replace_cls_noop (p : N -> bool) (t : list titem) (s : jsstring) :
  Forall (fun c => p c = false) s -> replace_all (Cls p) t s = s.
Proof.
  intros H. unfold replace_all, replace_fn. generalize (@None N).
  induction H as [|c s Hc Hs IH]; intros prev.
  - reflexivity.
  - cbn [replace_go]. rewrite match_here_cls, Hc. rewrite IH. reflexivity.
Qed.

(** Where no match starts at any position, nothing is replaced. *)
Lemma replace_go_noop (ml : bool) (r : regex)
      (f : jsstring -> caps -> jsstring) (I : option N -> jsstring -> Prop) :
  (forall prev c s, I prev (c :: s) -> I (Some c) s) ->
  (forall prev s, I prev s -> match_here ml r prev s = None) ->
  forall s prev, I prev s -> replace_go ml r f prev s 0 = s.
Proof.
  intros Hstep Hnone. induction s as [|c s IH]; intros prev HI.
  - cbn [replace_go]. rewrite (Hnone prev [] HI). reflexivity.
  - cbn [replace_go]. rewrite (Hnone prev (c :: s) HI).
    rewrite (IH (Some c) (Hstep prev c s HI)). reflexivity.
Qed.

(** *** Expressions that cannot match *)

Section NoMatch.
Variable A : Type.
Variable Q : N -> bool.
Variable ml : bool.

Lemma rep_cls_dead (p : N -> bool) (k : option N -> jsstring -> option A) :
  (forall prev s, without Q s -> k prev s = None) ->
  forall s prev, without Q s -> rep_cls p prev s k = None.
Proof.
  intros Hk. induction s as [|c s IH]; intros prev Hs; simpl.
  - apply Hk. exact Hs.
  - inversion Hs; subst. destruct (p c).
    + rewrite IH by assumption. apply Hk. exact Hs.
    + apply Hk. exact Hs.
Qed.

(** A continuation that fails on every string without [Q] makes the
    match fail. *)
Lemma rmatch_dead (r : regex) :
  forall (k : option N -> jsstring -> caps -> option A),
    (forall prev s cs, without Q s -> k prev s cs = None) ->
    forall prev s cs, without Q s -> rmatch ml r prev s cs k = None.
Proof.
  induction r as [|p|r1 IH1 r2 IH2|r1 IH1 r2 IH2|p|i r IH| |];
    intros k Hk prev s cs Hs; cbn [rmatch].
  - apply Hk. exact Hs.
  - destruct s as [|c s]; [reflexivity|]. inversion Hs; subst.
    destruct (p c); [|reflexivity]. apply Hk. assumption.
  - apply IH1; [|exact Hs]. intros prev' s' cs' Hs'.
    apply IH2; assumption.
  - rewrite IH1 by assumption. apply IH2; assumption.
  - apply rep_cls_dead; [|exact Hs]. intros prev' s' Hs'. apply Hk. exact Hs'.
  - apply IH; [|exact Hs]. intros prev' s' cs' Hs'. apply Hk. exact Hs'.
  - destruct (at_bol ml prev); [|reflexivity]. apply Hk. exact Hs.
  - destruct (at_eol ml s); [|reflexivity]. apply Hk. exact Hs.
Qed.

Lemma rmatch_requires (r : regex) :
  requires Q r ->
  forall (k : option N -> jsstring -> caps -> option A) prev s cs,
    without Q s -> rmatch ml r prev s cs k = None.
Proof.
  induction 1 as [p Hp|r1 r2 H IH|r1 r2 H IH|r1 r2 H1 IH1 H2 IH2|i r H IH];
    intros k prev s cs Hs; cbn [rmatch].
  - destruct s as [|c s]; [reflexivity|]. inversion Hs as [|c' s' Hc Hs']; subst.
    destruct (p c) eqn:E; [|reflexivity].
    apply Hp in E. rewrite E in Hc. discriminate.
  - apply IH. exact Hs.
  - apply rmatch_dead; [|exact Hs]. intros prev' s' cs' Hs'. apply IH. exact Hs'.
  - rewrite IH1 by exact Hs. apply IH2. exact Hs.
  - apply IH. exact Hs.
Qed.
End NoMatch.

Lemma without_tail (Q : N -> bool) (c : N) (s : jsstring) :
  without Q (c :: s) -> without Q s.
Proof. intros H. inversion H; assumption. Qed.

Lemma replace_all_requires (Q : N -> bool) (r : regex) (t : list titem)
      (x : jsstring) :
  requires Q r -> without Q x -> replace_all r t x = x.
Proof.
  intros Hr Hx. unfold replace_all, replace_fn.
  apply (replace_go_noop false r _ (fun _ s => without Q s)).
  - intros prev c s. apply without_tail.
  - intros prev s Hs. unfold match_here.
    apply (rmatch_requires _ Q false r Hr). exact Hs.
  - exact Hx.
Qed.

Ltac req :=
  first [ apply req_cls; intros ? H; exact H
        | apply req_grp; req
        | apply req_alt; req
        | apply req_seq_l; req
        | apply req_seq_r; req ].

(** ** Activations of the orchestrator *)

Section Orchestrator.
Variable d : Page.
Variable notionMode : bool.

(** An activation that calls itself is followed by an activation that
    does the same: the document and the argument have not changed. *)
Hypothesis retry : extractOnce d notionMode = CallsItself.

Lemma extract_overflows :
  forall stack, extractPageContent stack d notionMode = Throw RangeError.
Proof using retry.
  induction stack as [|stack IH]; simpl.
  - reflexivity.
  - rewrite retry. exact IH.
Qed.

Lemma activations_fill_stack :
  forall stack, activations stack d notionMode = stack.
Proof using retry.
  induction stack as [|stack IH]; simpl.
  - reflexivity.
  - rewrite retry, IH. reflexivity.
Qed.
End Orchestrator.

(** An activation that returns ends the extraction, whatever the stack. *)
Lemma extract_returns (d : Page) (notionMode : bool) (out : jsstring) :
  extractOnce d notionMode = Returns out ->
  forall stack, extractPageContent (S stack) d notionMode = Ok out.
Proof.
  intros H stack. cbn [extractPageContent]. rewrite H. reflexivity.
Qed.

(** An activation that throws ends the extraction with its exception. *)
Lemma extract_throws (d : Page) (notionMode : bool) (e : exn) :
  extractOnce d notionMode = Throws e ->
  forall stack, extractPageContent (S stack) d notionMode = Throw e.
Proof.
  intros H stack. cbn [extractPageContent]. rewrite H. reflexivity.
Qed.

(** Under the condition of the fallback an activation calls itself. *)
Lemma escalates_callsItself (d : Page) (notionMode : bool) :
  escalates d notionMode -> extractOnce d notionMode = CallsItself.
Proof.
  intros [Hroot [raw [Hraw Hwords]]]. unfold extractOnce.
  rewrite Hraw. apply Nat.ltb_lt in Hwords. rewrite Hwords, Hroot.
  reflexivity.
Qed.

(** A returned string is the cleanup of what the transducer produced. *)
Lemma extract_returns_cleanup (d : Page) (notionMode : bool) :
  forall stack out,
    extractPageContent stack d notionMode = Ok out ->
    exists raw, out = cleanup raw notionMode.
Proof.
  induction stack as [|stack IH]; intros out H; simpl in H.
  - discriminate.
  - destruct (extractOnce d notionMode) as [result| |e] eqn:E.
    + inversion H; subst. unfold extractOnce in E.
      destruct (processRoot d notionMode (findMainContent d)) as [raw|e];
        [|discriminate].
      exists raw.
      destruct (wordCount (cleanup raw notionMode) <? 3)%nat;
        [destruct (negb _); [discriminate|]|]; inversion E; reflexivity.
    + apply IH. exact H.
    + discriminate.
Qed.

(** ** The pattern matcher *)

Example protect_x2 : protectLaTeX (str "x**2 and y__1") = str "x^{2} and y_{1}".
Proof. vm_compute. reflexivity. Qed.

(** ** The math converter *)

Lemma mathMLToLaTeX_element (notionMode : bool) (t : jsstring)
      (attrs : list (jsstring * jsstring)) (st : ComputedStyle)
      (cs : list Node) :
  mathMLToLaTeX notionMode (ElementNode t attrs st cs)
  = mathMLCase notionMode (toLowerCase t) (ElementNode t attrs st cs) attrs
      (map (mathMLToLaTeX notionMode) (children (ElementNode t attrs st cs))).
Proof.
  simpl. f_equal. unfold children. simpl.
  induction cs as [|c cs IH]; simpl.
  - reflexivity.
  - destruct c; simpl; rewrite IH; reflexivity.
Qed.

Lemma mathMLCase_math (notionMode : bool) (node : Node)
      (attrs : list (jsstring * jsstring)) (rs : list (result jsstring)) :
  mathMLCase notionMode (str "math") node attrs rs
  = (content <- joinedLaTeX rs ;;
     if attrIs attrs (str "display") (str "block") then
       if notionMode then Ok (nl ++ nl ++ content ++ nl ++ nl)
       else Ok (str "$$" ++ content ++ str "$$")
     else if notionMode then Ok content
          else Ok (str "$" ++ content ++ str "$")).
Proof.
  change (mathMLCase notionMode (str "math") node attrs rs)
    with (content <- joinedLaTeX rs ;;
          match getAttribute attrs (str "display") with
          | Some v =>
              if JSString.eqb v (str "block") then
                if notionMode then Ok (nl ++ nl ++ content ++ nl ++ nl)
                else Ok (str "$$" ++ content ++ str "$$")
              else if notionMode then Ok content
                   else Ok (str "$" ++ content ++ str "$")
          | None =>
              if notionMode then Ok content
              else Ok (str "$" ++ content ++ str "$")
          end).
  unfold attrIs. destruct (joinedLaTeX rs) as [content|e]; simpl.
  - destruct (getAttribute attrs (str "display")); reflexivity.
  - reflexivity.
Qed.

(** Reading the child at an index that is not there throws. *)
Lemma childLaTeX_missing (rs : list (result jsstring)) (i : nat) :
  (length rs <= i)%nat -> childLaTeX rs i = Throw TypeError.
Proof.
  intros H. unfold childLaTeX.
  apply nth_error_None in H. rewrite H. reflexivity.
Qed.

(** A conversion that reads its first two children throws when given a
    single child node, whatever that node is. *)
Lemma two_children_read (rs : list (result jsstring))
      (k : jsstring -> jsstring -> result jsstring) :
  (length rs <= 1)%nat ->
  exists e, (a <- childLaTeX rs 0 ;; b <- childLaTeX rs 1 ;; k a b) = Throw e.
Proof.
  intros H. destruct rs as [|r rs].
  - exists TypeError. reflexivity.
  - destruct rs as [|r' rs]; [|simpl in H; lia].
    destruct r as [a|e]; simpl.
    + exists TypeError. reflexivity.
    + exists e. reflexivity.
Qed.

Lemma children_single_length (t : jsstring)
      (attrs : list (jsstring * jsstring)) (st : ComputedStyle) (c : Node) :
  (length (children (ElementNode t attrs st [c])) <= 1)%nat.
Proof.
  unfold children. simpl. destruct (isElement c); simpl; lia.
Qed.

(** C3: a superscript, subscript or fraction node with a single child and
    a square-root node without children make the converter throw: the
    absent child is read as [undefined] and the recursive call fails on its
    tag name. The exception is not caught: the extraction of a page that
    holds [<msup><mi>x</mi></msup>] throws too, where the specification has
    the absent child count as an empty string. The n-th-root case, which
    guards the number of children, degrades as the specification says. *)
Theorem C3_missing_child_throws :
  (forall notionMode attrs st c,
      exists e, mathMLToLaTeX notionMode
                  (ElementNode (str "msup") attrs st [c]) = Throw e)
  /\ (forall notionMode attrs st c,
      exists e, mathMLToLaTeX notionMode
                  (ElementNode (str "msub") attrs st [c]) = Throw e)
  /\ (forall notionMode attrs st c,
      exists e, mathMLToLaTeX notionMode
                  (ElementNode (str "mfrac") attrs st [c]) = Throw e)
  /\ (forall notionMode attrs st,
      mathMLToLaTeX notionMode (ElementNode (str "mfrac") attrs st [])
      = Throw TypeError)
  /\ (forall notionMode attrs st,
      mathMLToLaTeX notionMode (ElementNode (str "msqrt") attrs st [])
      = Throw TypeError)
  /\ (forall notionMode,
      mathMLToLaTeX notionMode Sample.msupOneChild = Throw TypeError)
  /\ (forall notionMode stack,
      extractPageContent (S stack) (Sample.squarePage Sample.msupOneChild)
                         notionMode = Throw TypeError)
  /\ (forall stack,
      extractPageContent (S stack) (Sample.squarePage Sample.mrootOneChild)
                         false = Ok (str "The square$x$is positive.")).
Proof.
  repeat apply conj.
  - intros. rewrite mathMLToLaTeX_element.
    apply two_children_read. rewrite length_map.
    apply children_single_length.
  - intros. rewrite mathMLToLaTeX_element.
    apply two_children_read. rewrite length_map.
    apply children_single_length.
  - intros. rewrite mathMLToLaTeX_element.
    apply two_children_read. rewrite length_map.
    apply children_single_length.
  - intros. rewrite mathMLToLaTeX_element. vm_compute. reflexivity.
  - intros. rewrite mathMLToLaTeX_element. vm_compute. reflexivity.
  - intros []; vm_compute; reflexivity.
  - intros [] stack; apply extract_throws; vm_compute; reflexivity.
  - intros stack. apply extract_returns. vm_compute. reflexivity.
Qed.

(** C5: the inline math node [x], [msup(x, 2)] is rendered as [$x x^{2}$]
    when the delimiters are kept and as [x x^{2}], without any dollar
    sign, in compact mode. *)
Theorem C5_inline_math_rendering :
  forall (attrs : list (jsstring * jsstring)) (st : ComputedStyle),
    attrIs attrs (str "display") (str "block") = false ->
    mathMLToLaTeX false (Sample.xTimesXSquared attrs st)
    = Ok (str "$x x^{2}$")
    /\ mathMLToLaTeX true (Sample.xTimesXSquared attrs st)
       = Ok (str "x x^{2}")
    /\ count_char c_dollar (str "x x^{2}") = 0%nat.
Proof.
  intros attrs st H. unfold Sample.xTimesXSquared.
  repeat split.
  - rewrite mathMLToLaTeX_element.
    change (toLowerCase (str "math")) with (str "math").
    rewrite mathMLCase_math, H. vm_compute. reflexivity.
  - rewrite mathMLToLaTeX_element.
    change (toLowerCase (str "math")) with (str "math").
    rewrite mathMLCase_math, H. vm_compute. reflexivity.
Qed.

Lemma C5_inline_math_rendering_witness :
  attrIs [] (str "display") (str "block") = false
  /\ mathMLToLaTeX false (Sample.xTimesXSquared [] Sample.visible)
     = Ok (str "$x x^{2}$")
  /\ mathMLToLaTeX true (Sample.xTimesXSquared [] Sample.visible)
     = Ok (str "x x^{2}")
  /\ count_char c_dollar (str "x x^{2}") = 0%nat.
Proof.
  split; [reflexivity|].
  apply (C5_inline_math_rendering [] Sample.visible). reflexivity.
Defined.

(** ** The content-relevance filter *)

(** The chain of early returns is the disjunction of its conditions. *)
Lemma shouldSkipElement_element (t : jsstring)
      (attrs : list (jsstring * jsstring)) (st : ComputedStyle)
      (cs : list Node) :
  shouldSkipElement (ElementNode t attrs st cs)
  = includesStr skipTags (toLowerCase t)
    || includesStr skipInteractive (toLowerCase t)
    || matchesVocabulary skipClasses (classList attrs) (id attrs)
    || matchesVocabulary githubSkipClasses (classList attrs) (id attrs)
    || dataOrLabel attrs
    || roleOrHidden attrs
    || notRendered st.
Proof.
  unfold shouldSkipElement. cbv zeta.
  destruct (includesStr skipTags (toLowerCase t)); [reflexivity|].
  destruct (includesStr skipInteractive (toLowerCase t)); [reflexivity|].
  destruct (matchesVocabulary skipClasses (classList attrs) (id attrs));
    [reflexivity|].
  destruct (matchesVocabulary githubSkipClasses (classList attrs) (id attrs));
    [reflexivity|].
  destruct (dataOrLabel attrs); [reflexivity|].
  destruct (roleOrHidden attrs); [reflexivity|].
  destruct (notRendered st); reflexivity.
Qed.

(** A rejected element gives the empty string; its child nodes do not
    enter the result. *)
Lemma processNode_skipped (w : Window) (notionMode : bool) (ctx : Ctx)
      (t : jsstring) (attrs : list (jsstring * jsstring))
      (st : ComputedStyle) (cs : list Node) :
  shouldSkipElement (ElementNode t attrs st cs) = true ->
  processNode w notionMode ctx (ElementNode t attrs st cs) = Ok [].
Proof.
  intros H. cbn [processNode]. rewrite H. reflexivity.
Qed.

Lemma matchesVocabulary_class (vocabulary classes : list jsstring)
      (ident c t : jsstring) :
  In t vocabulary -> In c classes -> includes (toLowerCase c) t = true ->
  matchesVocabulary vocabulary classes ident = true.
Proof.
  intros Ht Hc H. unfold matchesVocabulary.
  apply existsb_exists. exists t. split; [exact Ht|].
  apply orb_true_iff. left.
  apply existsb_exists. exists c. split; assumption.
Qed.

Lemma matchesVocabulary_id (vocabulary classes : list jsstring)
      (ident t : jsstring) :
  In t vocabulary -> includes (toLowerCase ident) t = true ->
  matchesVocabulary vocabulary classes ident = true.
Proof.
  intros Ht H. unfold matchesVocabulary.
  apply existsb_exists. exists t. split; [exact Ht|].
  apply orb_true_iff. right. exact H.
Qed.

Lemma all_lower_fixed_spec (vocabulary : list jsstring) :
  all_lower_fixed vocabulary = true ->
  forall t, In t vocabulary -> lower_fixed t.
Proof.
  intros H t Ht x Hx. unfold all_lower_fixed in H.
  rewrite forallb_forall in H. specialize (H t Ht).
  rewrite forallb_forall in H. specialize (H x Hx).
  apply eqb_eq. exact H.
Qed.

Lemma skipClasses_lower : forall t, In t skipClasses -> lower_fixed t.
Proof. apply all_lower_fixed_spec. vm_compute. reflexivity. Qed.

Lemma classes_mixed_case (classes : list jsstring) (t : jsstring) (x : N) :
  In x t -> is_upper x = true ->
  existsb (fun nodeClass => includes (toLowerCase nodeClass) t) classes
  = false.
Proof.
  intros Hx Hup. induction classes as [|c classes IH]; simpl.
  - reflexivity.
  - rewrite (includes_lower_mixed_case t x Hx Hup c). exact IH.
Qed.

(** Terms that hold an upper-case letter match no class name and no id. *)
Lemma existsb_mixed_case (vocabulary classes : list jsstring)
      (ident : jsstring) :
  (forall t, In t vocabulary -> exists x, In x t /\ is_upper x = true) ->
  existsb (fun cls =>
             existsb (fun nodeClass => includes (toLowerCase nodeClass) cls)
                     classes
             || includes (toLowerCase ident) cls)
          vocabulary = false.
Proof.
  intros H. induction vocabulary as [|t vocabulary IH]; simpl.
  - reflexivity.
  - destruct (H t (or_introl eq_refl)) as [x [Hx Hup]].
    rewrite (includes_lower_mixed_case t x Hx Hup ident).
    rewrite (classes_mixed_case classes t x Hx Hup).
    apply IH. intros u Hu. apply H. right. exact Hu.
Qed.

(** A term written in lower case skips every element of which a class
    name or the id holds it, in whatever case. *)
Lemma lowercase_term_skips (vocabulary : list jsstring) (term : jsstring)
      (t : jsstring) (attrs : list (jsstring * jsstring))
      (st : ComputedStyle) (cs : list Node) :
  vocabulary = skipClasses \/ vocabulary = githubSkipClasses ->
  In term vocabulary ->
  (exists c, In c (classList attrs) /\ includes (toLowerCase c) term = true)
  \/ includes (toLowerCase (id attrs)) term = true ->
  shouldSkipElement (ElementNode t attrs st cs) = true.
Proof.
  intros Hv Hterm H.
  assert (M : matchesVocabulary vocabulary (classList attrs) (id attrs)
              = true).
  { destruct H as [[c [Hc Hin]]|Hin].
    - apply (matchesVocabulary_class vocabulary (classList attrs) (id attrs)
               c term Hterm Hc Hin).
    - apply (matchesVocabulary_id vocabulary (classList attrs) (id attrs)
               term Hterm Hin). }
  rewrite shouldSkipElement_element.
  destruct Hv as [-> | ->]; rewrite M; rewrite !orb_true_r; reflexivity.
Qed.

(** C10: the vocabulary terms are compared as they are written with the
    lower-cased class names and id, and four terms of the site-specific
    vocabulary are written with upper-case letters (Box, ActionList,
    SelectPanel, Overlay): no class name or id can match them. An element
    of class "Box", which holds the term "Box", is therefore not skipped
    and its text is rendered, where the claim has every element whose
    class holds a vocabulary term skipped. The terms written in lower
    case match as the claim says (the classes "gradient" and
    "border-top"), and nothing in the filter depends on the site. *)
Theorem C10_terms_with_capitals_never_match :
  In (str "Box") githubSkipClasses
  /\ includes (str "Box") (str "Box") = true
  /\ shouldSkipElement Sample.boxDiv = false
  /\ (forall notionMode,
        processNode Sample.win notionMode Sample.ctx0 Sample.boxDiv
        = Ok (str "Repository files" ++ nl ++ nl))
  /\ (forall classes ident,
        matchesVocabulary
          (map str ["Box"; "ActionList"; "SelectPanel"; "Overlay"]%string)
          classes ident = false)
  /\ shouldSkipElement Sample.gradientDiv = true
  /\ shouldSkipElement Sample.borderTopDiv = true.
Proof.
  repeat apply conj.
  - vm_compute. tauto.
  - reflexivity.
  - vm_compute. reflexivity.
  - intros []; vm_compute; reflexivity.
  - intros classes ident. unfold matchesVocabulary.
    apply existsb_mixed_case.
    intros t Ht. simpl in Ht.
    destruct Ht as [<-|[<-|[<-|[<-|[]]]]];
      [exists 66%N|exists 65%N|exists 83%N|exists 79%N];
      (split; [vm_compute; tauto|reflexivity]).
  - vm_compute. reflexivity.
  - vm_compute. reflexivity.
Qed.

(** The counterexample of C7: the [div] of class "sidebar" is rejected by
    the filter and rendered as the empty string, and the text of the
    heading nested in it is in the output all the same, because the
    enclosing preformatted block is rendered from its raw text content. *)
Lemma C7_counterexample_pre_copies_skipped_text :
  hasNoiseClass [(str "class", str "sidebar")]
  /\ shouldSkipElement Sample.sidebarDiv = true
  /\ extractPageContent 1 Sample.prePage false
     = Ok (fence ++ nl ++ str "menu entrieslet x = 1" ++ nl ++ fence)
  /\ includes (fence ++ nl ++ str "menu entrieslet x = 1" ++ nl ++ fence)
              (str "menu entries") = true.
Proof.
  repeat apply conj.
  - exists (str "sidebar"), (str "sidebar").
    repeat split; vm_compute; tauto.
  - vm_compute. reflexivity.
  - vm_compute. reflexivity.
  - vm_compute. reflexivity.
Qed.

(** An element with a class of the generic noise vocabulary, or that is
    not displayed, is rejected. *)
Lemma noise_rejected (t : jsstring) (attrs : list (jsstring * jsstring))
      (st : ComputedStyle) (cs : list Node) :
  hasNoiseClass attrs \/ display st = str "none" ->
  shouldSkipElement (ElementNode t attrs st cs) = true.
Proof.
  intros H.
  rewrite shouldSkipElement_element. destruct H as [[c [v [Hc [Hv Hin]]]]|H].
  - assert (M : matchesVocabulary skipClasses (classList attrs) (id attrs)
                = true).
    { apply matchesVocabulary_class with (c := c) (t := v);
        [exact Hv|exact Hc|].
      apply includes_lower; [|exact Hin].
      apply skipClasses_lower. exact Hv. }
    rewrite M. rewrite !orb_true_r. reflexivity.
  - unfold notRendered. rewrite H.
    change (JSString.eqb (str "none") (str "none")) with true.
    rewrite !orb_true_r. reflexivity.
Qed.

(** ** The transducer on elements *)

Lemma processNode_element (w : Window) (notionMode : bool) (ctx : Ctx)
      (t : jsstring) (attrs : list (jsstring * jsstring))
      (st : ComputedStyle) (cs : list Node) :
  shouldSkipElement (ElementNode t attrs st cs) = false ->
  processNode w notionMode ctx (ElementNode t attrs st cs)
  = (childrenMarkdown <-
       processChildren (processNode w notionMode) t
         (mathAncestor ctx || JSString.eqb (toLowerCase t) (str "math"))
         None cs [] ;;
     formatElement w notionMode ctx (ElementNode t attrs st cs)
       (toLowerCase t) attrs
       (mathAncestor ctx || JSString.eqb (toLowerCase t) (str "math"))
       childrenMarkdown).
Proof.
  intros H. cbn [processNode]. rewrite H. reflexivity.
Qed.

Lemma processChildren_nil process t m prev acc :
  processChildren process t m prev [] acc = Ok acc.
Proof. reflexivity. Qed.

Lemma processChildren_cons process t m prev child l acc :
  processChildren process t m prev (child :: l) acc
  = (childResult <- process {| parentTag := Some t; mathAncestor := m;
                               previousSibling := prev |} child ;;
     processChildren process t m (Some child) l
                     (appendChild acc child childResult)).
Proof. reflexivity. Qed.

Lemma appendChild_first child r : appendChild [] child r = r.
Proof. unfold appendChild. destruct r; reflexivity. Qed.

Lemma appendChild_spaced acc child r :
  startsWith r (str " ") = true -> appendChild acc child r = acc ++ r.
Proof.
  intros H. unfold appendChild.
  destruct r as [|c r]; [discriminate|]. cbn [truthy].
  rewrite H. rewrite andb_false_r. reflexivity.
Qed.

(** A cell that holds one text node. *)
Lemma cell_text w nm ctx (tag : string) x :
  tag = "TD"%string \/ tag = "TH"%string ->
  processNode w nm ctx (Sample.el tag [] [TextNode x])
  = Ok (tableCell (processText nm x)).
Proof.
  intros [->| ->].
  - unfold Sample.el. rewrite processNode_element by reflexivity.
    rewrite processChildren_cons. cbn [processNode bind].
    rewrite processChildren_nil, appendChild_first. reflexivity.
  - unfold Sample.el. rewrite processNode_element by reflexivity.
    rewrite processChildren_cons. cbn [processNode bind].
    rewrite processChildren_nil, appendChild_first. reflexivity.
Qed.

Lemma startsWith_tableCell (cm : jsstring) :
  startsWith (tableCell cm) (str " ") = true.
Proof.
  unfold tableCell. change (str " ") with [32%N].
  change ([32%N] ++ ?x) with (32%N :: x).
  apply startsWith_single.
Qed.

Lemma row_of_cells (w : Window) (nm : bool) (ctx : Ctx)
      (tag : string) (x y : jsstring) :
  tag = "TD"%string \/ tag = "TH"%string ->
  processNode w nm ctx
    (Sample.el "TR" [] [Sample.el tag [] [TextNode x];
                        Sample.el tag [] [TextNode y]])
  = Ok (tableRowElement (tableCell (processText nm x)
                         ++ tableCell (processText nm y))).
Proof.
  intros Htag.
  unfold Sample.el at 1. rewrite processNode_element by reflexivity.
  rewrite processChildren_cons, (cell_text w nm _ tag x Htag). cbn [bind].
  rewrite processChildren_cons, (cell_text w nm _ tag y Htag). cbn [bind].
  rewrite processChildren_nil. cbn [bind].
  rewrite appendChild_first.
  rewrite appendChild_spaced by apply startsWith_tableCell.
  reflexivity.
Qed.

Lemma startsWith_tableRowElement (x y : jsstring) :
  startsWith (tableRowElement (tableCell x ++ tableCell y)) (str " ") = true.
Proof.
  unfold tableRowElement, tableCell. change (str " ") with [32%N].
  norm_app. apply startsWith_single.
Qed.

Lemma table_of_cells (w : Window) (nm : bool) (ctx : Ctx)
      (a b c d : jsstring) :
  processNode w nm ctx
    (Sample.tableOf [TextNode a] [TextNode b] [TextNode c] [TextNode d])
  = table (tableRowElement (tableCell (processText nm a)
                            ++ tableCell (processText nm b))
           ++ tableRowElement (tableCell (processText nm c)
                               ++ tableCell (processText nm d))).
Proof.
  unfold Sample.tableOf.
  unfold Sample.el at 1. rewrite processNode_element by reflexivity.
  rewrite processChildren_cons.
  unfold Sample.el at 1. rewrite processNode_element by reflexivity.
  rewrite processChildren_cons.
  rewrite (row_of_cells w nm _ "TH" a b) by (right; reflexivity).
  cbn [bind]. rewrite processChildren_cons.
  rewrite (row_of_cells w nm _ "TD" c d) by (left; reflexivity).
  cbn [bind]. rewrite processChildren_nil. cbn [bind].
  rewrite appendChild_first.
  rewrite appendChild_spaced by apply startsWith_tableRowElement.
  change (formatElement _ _ _ _ (toLowerCase (str "TBODY")) _ _ ?cm)
    with (Ok (A := jsstring) cm).
  cbn [bind]. rewrite processChildren_nil. cbn [bind].
  rewrite appendChild_first.
  reflexivity.
Qed.

(** ** The table rule *)

(** A row whose trimmed text starts with something else than a pipe and
    ends with a pipe. *)
Lemma tableRow_first (tableMarkdown row : jsstring) (h : N) (m : jsstring) :
  trim row = h :: m ++ [c_pipe] -> h <> c_pipe ->
  tableRow (tableMarkdown, true) row
  = Ok (tableMarkdown ++ (str "| " ++ h :: m ++ [c_pipe]) ++ nl
        ++ (str "| "
            ++ repeat_str (str "--- | ") (S (count_char c_pipe (h :: m))))
        ++ nl, false).
Proof.
  intros Ht Hh. unfold tableRow. rewrite Ht.
  assert (S1 : startsWith (h :: m ++ [c_pipe]) (str "|") = false).
  { change (str "|") with [c_pipe]. rewrite startsWith_single.
    apply N.eqb_neq. intros E. apply Hh. symmetry. exact E. }
  rewrite S1. cbn [negb].
  assert (E1 : endsWith (str "| " ++ h :: m ++ [c_pipe]) (str "|") = true).
  { change (str "| " ++ h :: m ++ [c_pipe])
      with ((str "| " ++ h :: m) ++ [c_pipe]).
    apply endsWith_last. }
  rewrite E1. cbn [negb].
  assert (C : count_char c_pipe (str "| " ++ h :: m ++ [c_pipe])
              = S (S (count_char c_pipe (h :: m)))).
  { change (str "| " ++ h :: m ++ [c_pipe])
      with (str "| " ++ (h :: m) ++ [c_pipe]).
    rewrite !count_char_app.
    change (count_char c_pipe (str "| ")) with 1%nat.
    change (count_char c_pipe [c_pipe]) with 1%nat. lia. }
  rewrite C.
  replace (Z.of_nat (S (S (count_char c_pipe (h :: m)))) - 1)%Z
    with (Z.of_nat (S (count_char c_pipe (h :: m)))) by lia.
  destruct (Z.of_nat (S (count_char c_pipe (h :: m))) <? 0)%Z eqn:E.
  - apply Z.ltb_lt in E. lia.
  - rewrite Nat2Z.id. rewrite <- !app_assoc. reflexivity.
Qed.

Lemma tableRow_next (tableMarkdown row : jsstring) (h : N) (m : jsstring) :
  trim row = h :: m ++ [c_pipe] -> h <> c_pipe ->
  tableRow (tableMarkdown, false) row
  = Ok (tableMarkdown ++ (str "| " ++ h :: m ++ [c_pipe]) ++ nl, false).
Proof.
  intros Ht Hh. unfold tableRow. rewrite Ht.
  assert (S1 : startsWith (h :: m ++ [c_pipe]) (str "|") = false).
  { change (str "|") with [c_pipe]. rewrite startsWith_single.
    apply N.eqb_neq. intros E. apply Hh. symmetry. exact E. }
  rewrite S1. cbn [negb].
  assert (E1 : endsWith (str "| " ++ h :: m ++ [c_pipe]) (str "|") = true).
  { change (str "| " ++ h :: m ++ [c_pipe])
      with ((str "| " ++ h :: m) ++ [c_pipe]).
    apply endsWith_last. }
  rewrite E1. cbn [negb]. reflexivity.
Qed.

Lemma plainCell_no_nl (y : jsstring) :
  plainCell y -> Forall (fun ch => ch <> c_nl) y.
Proof.
  intros [_ H]. apply (Forall_impl _ (fun ch (P : ch <> c_nl /\ ch <> c_pipe) => proj1 P) H).
Qed.

Lemma plainCell_no_pipe (y : jsstring) :
  plainCell y -> Forall (fun ch => ch <> c_pipe) y.
Proof.
  intros [_ H]. apply (Forall_impl _ (fun ch (P : ch <> c_nl /\ ch <> c_pipe) => proj2 P) H).
Qed.

Lemma plainCell_head (h : N) (t : jsstring) :
  plainCell (h :: t) -> h <> c_pipe.
Proof.
  intros [_ H]. inversion H as [|x l [_ P] _]. exact P.
Qed.

Lemma tableCell_plain (childrenMarkdown : jsstring) :
  plainCell (trim childrenMarkdown) ->
  tableCell childrenMarkdown = str " " ++ trim childrenMarkdown ++ str " |".
Proof.
  intros H. unfold tableCell, re_pipe.
  rewrite replace_cls_noop; [reflexivity|].
  apply (Forall_impl _ (fun ch (P : ch <> c_pipe) => proj2 (N.eqb_neq ch c_pipe) P)
                     (plainCell_no_pipe _ H)).
Qed.

Lemma row_markdown (a b : jsstring) :
  tableRowElement ((str " " ++ a ++ str " |") ++ (str " " ++ b ++ str " |"))
  = str " " ++ rowBody a b ++ nl.
Proof.
  unfold tableRowElement, rowBody. norm_app. reflexivity.
Qed.

Lemma rowBody_last (a b : jsstring) :
  rowBody a b = (a ++ str " | " ++ b ++ str " |") ++ [c_pipe].
Proof. unfold rowBody. norm_app. reflexivity. Qed.

Lemma rowBody_cons (h : N) (t b : jsstring) :
  rowBody (h :: t) b = h :: (t ++ str " | " ++ b ++ str " |") ++ [c_pipe].
Proof. unfold rowBody. norm_app. reflexivity. Qed.

Lemma rowBody_no_nl (a b : jsstring) :
  plainCell a -> plainCell b -> Forall (fun ch => ch <> c_nl) (rowBody a b).
Proof.
  intros Ha Hb. unfold rowBody.
  repeat (apply Forall_app; split);
    try (apply plainCell_no_nl; assumption);
    repeat constructor; discriminate.
Qed.

Lemma rowBody_pipes (a b : jsstring) :
  plainCell a -> plainCell b ->
  count_char c_pipe ((a ++ str " | " ++ b ++ str " |")) = 2%nat.
Proof.
  intros Ha Hb. rewrite !count_char_app.
  rewrite (count_char_none c_pipe a (plainCell_no_pipe a Ha)).
  rewrite (count_char_none c_pipe b (plainCell_no_pipe b Hb)).
  reflexivity.
Qed.

Lemma trim_rowBody (h : N) (t b : jsstring) :
  is_space h = false -> trim (rowBody (h :: t) b) = rowBody (h :: t) b.
Proof.
  intros H. rewrite rowBody_cons. apply trim_keep; [exact H|reflexivity].
Qed.

Lemma trim_indented_rowBody (h : N) (t b : jsstring) :
  is_space h = false ->
  trim (str " " ++ rowBody (h :: t) b) = rowBody (h :: t) b.
Proof.
  intros H. unfold trim.
  change (str " " ++ rowBody (h :: t) b) with (32%N :: rowBody (h :: t) b).
  rewrite trimStart_drop by reflexivity.
  apply (trim_rowBody h t b H).
Qed.

Section TwoRows.
Variables (ha : N) (ta b : jsstring) (hc : N) (tc d : jsstring).
Hypothesis Ha : plainCell (ha :: ta).
Hypothesis Hb : plainCell b.
Hypothesis Hc : plainCell (hc :: tc).
Hypothesis Hd : plainCell d.
Hypothesis Sa : is_space ha = false.
Hypothesis Sc : is_space hc = false.

Lemma two_rows_trim :
  trim ((str " " ++ rowBody (ha :: ta) b ++ nl)
        ++ (str " " ++ rowBody (hc :: tc) d ++ nl))
  = rowBody (ha :: ta) b ++ nl ++ str " " ++ rowBody (hc :: tc) d.
Proof using Sa.
  unfold trim.
  replace ((str " " ++ rowBody (ha :: ta) b ++ nl)
           ++ str " " ++ rowBody (hc :: tc) d ++ nl)
    with (32%N :: ha :: (ta ++ str " | " ++ b ++ str " ||" ++ nl ++ str " "
                            ++ rowBody (hc :: tc) d ++ nl))
    by (unfold rowBody; norm_app; reflexivity).
  rewrite trimStart_drop by reflexivity.
  rewrite trimStart_keep by exact Sa.
  replace (ha :: ta ++ str " | " ++ b ++ str " ||" ++ nl ++ str " "
              ++ rowBody (hc :: tc) d ++ nl)
    with ((rowBody (ha :: ta) b ++ nl ++ str " " ++ rowBody (hc :: tc) d)
            ++ [c_nl])
    by (unfold rowBody; norm_app; reflexivity).
  rewrite trimEnd_drop by reflexivity.
  replace (rowBody (ha :: ta) b ++ nl ++ str " " ++ rowBody (hc :: tc) d)
    with ((rowBody (ha :: ta) b ++ nl ++ str " " ++ hc :: tc ++ str " | "
                   ++ d ++ str " |") ++ [c_pipe])
    by (unfold rowBody; norm_app; reflexivity).
  apply trimEnd_keep. reflexivity.
Qed.

Lemma two_rows_table :
  table ((str " " ++ rowBody (ha :: ta) b ++ nl)
         ++ (str " " ++ rowBody (hc :: tc) d ++ nl))
  = Ok (tableLine (ha :: ta) b ++ nl ++ separatorLine 3 ++ nl
        ++ tableLine (hc :: tc) d ++ nl ++ nl).
Proof using Ha Hb Hc Hd Sa Sc.
  unfold table. rewrite two_rows_trim.
  change (rowBody (ha :: ta) b ++ nl ++ str " " ++ rowBody (hc :: tc) d)
    with (rowBody (ha :: ta) b ++ c_nl :: str " " ++ rowBody (hc :: tc) d).
  replace (truthy (rowBody (ha :: ta) b
                   ++ c_nl :: str " " ++ rowBody (hc :: tc) d))
    with true by (rewrite rowBody_cons; reflexivity).
  rewrite (split_char_app c_nl _ _ (rowBody_no_nl _ _ Ha Hb)).
  rewrite split_char_none.
  2:{ change (str " " ++ rowBody (hc :: tc) d)
        with (32%N :: rowBody (hc :: tc) d).
      constructor; [discriminate|]. apply rowBody_no_nl; assumption. }
  cbn [filter].
  rewrite (trim_rowBody ha ta b Sa), (trim_indented_rowBody hc tc d Sc).
  replace (truthy (rowBody (ha :: ta) b)) with true
    by (rewrite rowBody_cons; reflexivity).
  replace (truthy (rowBody (hc :: tc) d)) with true
    by (rewrite rowBody_cons; reflexivity).
  cbn [tableRows].
  rewrite (tableRow_first _ _ ha
             (ta ++ str " | " ++ b ++ str " |")).
  2:{ rewrite (trim_rowBody ha ta b Sa). apply rowBody_cons. }
  2:{ apply (plainCell_head ha ta Ha). }
  cbn [bind].
  rewrite (tableRow_next _ _ hc
             (tc ++ str " | " ++ d ++ str " |")).
  2:{ rewrite (trim_indented_rowBody hc tc d Sc). apply rowBody_cons. }
  2:{ apply (plainCell_head hc tc Hc). }
  cbn [bind fst].
  replace (count_char c_pipe (ha :: ta ++ str " | " ++ b ++ str " |"))
    with 2%nat
    by (symmetry; apply (rowBody_pipes (ha :: ta) b Ha Hb)).
  unfold tableLine, separatorLine, rowBody. f_equal. norm_app.
  cbn [repeat_str]. norm_app. reflexivity.
Qed.
End TwoRows.







(** The rendering of a table of two rows of two plain cells. *)
Lemma two_rows_rendering (w : Window) (notionMode : bool) (ctx : Ctx)
      (a b c d : jsstring) :
  plainCell (cellText notionMode a) -> plainCell (cellText notionMode b) ->
  plainCell (cellText notionMode c) -> plainCell (cellText notionMode d) ->
  processNode w notionMode ctx
    (Sample.tableOf [TextNode a] [TextNode b] [TextNode c] [TextNode d])
  = Ok (tableLine (cellText notionMode a) (cellText notionMode b) ++ nl
        ++ separatorLine 3 ++ nl
        ++ tableLine (cellText notionMode c) (cellText notionMode d)
        ++ nl ++ nl).
Proof.
  intros Ha Hb Hc Hd.
  rewrite table_of_cells.
  rewrite !tableCell_plain by assumption.
  rewrite !row_markdown.
  fold (cellText notionMode a) (cellText notionMode b)
       (cellText notionMode c) (cellText notionMode d).
  destruct (cellText notionMode a) as [|ha ta] eqn:Ea;
    [destruct Ha as [Ha _]; contradiction|].
  destruct (cellText notionMode c) as [|hc tc] eqn:Ec;
    [destruct Hc as [Hc _]; contradiction|].
  apply two_rows_table; try assumption.
  - apply (trim_head _ _ _ Ea).
  - apply (trim_head _ _ _ Ec).
Qed.



(** ** The cleanup passes *)

(** C4: the text [q**S] is extracted as [q^{S}]. The text [**bold**] alone
    passes the repair of the text node unchanged, but the last rewrite of
    the fourth cleanup pass, which its comment reserves to a math context,
    is applied to the whole output: the extraction returns [^{bold}], where
    the claim has [**bold**]. *)
Theorem C4_bold_word_becomes_exponent :
  protectLaTeX (str "q**S") = str "q^{S}"
  /\ (forall notionMode stack,
        extractPageContent (S stack) Sample.exponentPage notionMode
        = Ok (str "q^{S}"))
  /\ protectLaTeX (str "**bold**") = str "**bold**"
  /\ (forall notionMode,
        processNode Sample.win notionMode Sample.ctx0 (Sample.txt "**bold**")
        = Ok (str "**bold**"))
  /\ replace_all re_bold_word t_sup1 (str "**bold**") = str "^{bold}"
  /\ (forall notionMode stack,
        extractPageContent (S stack) Sample.boldPage notionMode
        = Ok (str "^{bold}")).
Proof.
  repeat apply conj.
  - vm_compute. reflexivity.
  - intros [] stack; apply extract_returns; vm_compute; reflexivity.
  - vm_compute. reflexivity.
  - intros []; vm_compute; reflexivity.
  - vm_compute. reflexivity.
  - intros [] stack; apply extract_returns; vm_compute; reflexivity.
Qed.

(** *** Compact mode *)

(** Removing the dollar signs leaves none. *)
Lemma replace_dollar_clean (s : jsstring) :
  Forall (fun c => c <> c_dollar) (replace_all re_dollar [] s).
Proof.
  unfold replace_all, replace_fn. generalize (@None N).
  induction s as [|c s IH]; intros prev.
  - simpl. constructor.
  - cbn [replace_go]. unfold re_dollar. rewrite match_here_cls.
    unfold is_char. destruct (c =? c_dollar)%N eqn:E.
    + simpl. apply IH.
    + constructor; [|apply IH]. apply N.eqb_neq. exact E.
Qed.

(** The compact-mode passes end without a dollar sign, whatever they are
    given. *)
Lemma notionPasses_clean (s : jsstring) :
  Forall (fun c => c <> c_dollar) (applyPasses notionPasses s).
Proof.
  unfold applyPasses, notionPasses. simpl fold_left.
  apply replace_all_literal_Forall.
  - repeat constructor; discriminate.
  - apply replace_dollar_clean.
Qed.

Lemma cleanup_compact_clean (raw : jsstring) :
  count_char c_dollar (cleanup raw true) = 0%nat.
Proof.
  unfold cleanup. apply count_char_none, notionPasses_clean.
Qed.

(** The counterexample of C6: the document holds [$aX+b$]; the string
    returned in compact mode has no dollar sign, but the cleanup pass that
    separates a lower-case letter from an upper-case one has rewritten the
    content, and [aX+b] is not in the output. *)
Lemma C6_counterexample_content_is_rewritten :
  includes (descendantText (documentElement Sample.linearPage))
           (str "$aX+b$") = true
  /\ extractPageContent 1 Sample.linearPage true
     = Ok (str "Let a X+b be linear.")
  /\ includes (str "Let a X+b be linear.") (str "aX+b") = false.
Proof.
  repeat apply conj; vm_compute; reflexivity.
Qed.

(** *** Plain lines *)

Lemma inert_spec (c : N) :
  inert c = true ->
  is_space c = false /\ is_upper c = false /\ is_sentence_end c = false
  /\ (c =? c_star)%N = false /\ (c =? 91)%N = false
  /\ (c =? c_dollar)%N = false.
Proof.
  unfold inert. intros H.
  repeat (apply andb_true_iff in H; destruct H as [H ?]).
  repeat split; apply negb_true_iff; assumption.
Qed.

Lemma inert_not_blank (c : N) : inert c = true -> is_blank c = false.
Proof.
  intros H. apply inert_spec in H. destruct H as [H _].
  unfold is_blank. destruct (c =? 32)%N eqn:E1.
  - apply N.eqb_eq in E1. subst. discriminate.
  - destruct (c =? 9)%N eqn:E2; [|reflexivity].
    apply N.eqb_eq in E2. subst. discriminate.
Qed.

Lemma inertTail_tail (c : N) (s : jsstring) :
  inertTail (c :: s) -> inertTail s.
Proof.
  intros H. inversion H; subst.
  - assumption.
  - apply it_char; assumption.
Qed.

Lemma inertTail_without (Q : N -> bool) (s : jsstring) :
  avoided Q -> inertTail s -> without Q s.
Proof.
  intros [Hsp Hin]. induction 1 as [|c s Hc Hs IH|c s Hc Hs IH].
  - constructor.
  - constructor; [apply Hin; exact Hc|exact IH].
  - constructor; [exact Hsp|]. constructor; [apply Hin; exact Hc|exact IH].
Qed.

Lemma replace_all_avoided (Q : N -> bool) (r : regex) (t : list titem)
      (x : jsstring) :
  requires Q r -> avoided Q -> inertTail x -> replace_all r t x = x.
Proof.
  intros Hr HQ Hx. apply (replace_all_requires Q r t x Hr).
  apply inertTail_without; assumption.
Qed.

Lemma avoided_nl : avoided is_nl.
Proof.
  split; [reflexivity|]. intros c H. apply inert_spec in H.
  destruct H as [H _]. unfold is_nl.
  destruct (c =? 10)%N eqn:E; [|reflexivity].
  apply N.eqb_eq in E. subst. discriminate.
Qed.

Lemma avoided_upper : avoided is_upper.
Proof. split; [reflexivity|]. intros c H. apply inert_spec in H. tauto. Qed.

Lemma avoided_sentence_end : avoided is_sentence_end.
Proof. split; [reflexivity|]. intros c H. apply inert_spec in H. tauto. Qed.

Lemma avoided_star : avoided (is_char c_star).
Proof. split; [reflexivity|]. intros c H. apply inert_spec in H. tauto. Qed.

Lemma avoided_bracket : avoided (is_char 91).
Proof. split; [reflexivity|]. intros c H. apply inert_spec in H. tauto. Qed.

Lemma avoided_dollar : avoided (is_char c_dollar).
Proof. split; [reflexivity|]. intros c H. apply inert_spec in H. tauto. Qed.

Lemma avoided_line_terminator : avoided is_line_terminator.
Proof.
  split; [reflexivity|]. intros c H. apply inert_spec in H.
  destruct H as [H _]. destruct (is_line_terminator c) eqn:E; [|reflexivity].
  unfold is_line_terminator in E.
  repeat (apply orb_true_iff in E; destruct E as [E|E]);
    apply N.eqb_eq in E; subst; discriminate.
Qed.

Lemma req_nl4 : requires is_nl re_nl4. Proof. req. Qed.
Lemma req_blank_nl : requires is_nl re_blank_nl. Proof. req. Qed.
Lemma req_nl_blank : requires is_nl re_nl_blank. Proof. req. Qed.
Lemma req_sentence_cap : requires is_sentence_end re_sentence_cap. Proof. req. Qed.
Lemma req_camel : requires is_upper re_camel. Proof. req. Qed.
Lemma req_punct_word : requires is_sentence_end re_punct_word. Proof. req. Qed.
Lemma req_nl3 : requires is_nl re_nl3. Proof. req. Qed.
Lemma req_pipe_nl : requires is_nl re_pipe_nl. Proof. req. Qed.
Lemma req_empty_target : requires (is_char 91) re_empty_target. Proof. req. Qed.
Lemma req_empty_text : requires (is_char 91) re_empty_text. Proof. req. Qed.
Lemma req_empty_cell : requires is_nl re_empty_cell. Proof. req. Qed.
Lemma req_word_bold_caps : requires (is_char c_star) re_word_bold_caps. Proof. req. Qed.
Lemma req_word_bold_word : requires (is_char c_star) re_word_bold_word. Proof. req. Qed.
Lemma req_word_stars_caps : requires (is_char c_star) re_word_stars_caps. Proof. req. Qed.
Lemma req_word_stars_word : requires (is_char c_star) re_word_stars_word. Proof. req. Qed.
Lemma req_stars_caps_stars : requires (is_char c_star) re_stars_caps_stars. Proof. req. Qed.
Lemma req_bold_word : requires (is_char c_star) re_bold_word. Proof. req. Qed.
Lemma req_nl_nl_nl : requires is_nl re_nl_nl_nl. Proof. req. Qed.
Lemma req_sentence_nl_cap : requires is_sentence_end re_sentence_nl_cap. Proof. req. Qed.
Lemma req_dollar2 : requires (is_char c_dollar) re_dollar2. Proof. req. Qed.
Lemma req_dollar : requires (is_char c_dollar) re_dollar. Proof. req. Qed.

(** No two blanks in a row. *)
Lemma blank2_none (prev : option N) (s : jsstring) :
  inertTail s -> match_here false re_blank2 prev s = None.
Proof.
  intros H. unfold match_here, re_blank2. cbn [at_least rmatch].
  inversion H as [|c s' Hc Hs|c s' Hc Hs]; subst.
  - reflexivity.
  - rewrite (inert_not_blank c Hc). reflexivity.
  - change (is_blank 32) with true. cbn iota.
    rewrite (inert_not_blank c Hc). reflexivity.
Qed.

Lemma replace_blank2_plain (t : list titem) (x : jsstring) :
  inertTail x -> replace_all re_blank2 t x = x.
Proof.
  intros Hx. unfold replace_all, replace_fn.
  apply (replace_go_noop false re_blank2 _ (fun _ s => inertTail s)).
  - intros prev c s. apply inertTail_tail.
  - intros prev s Hs. apply blank2_none. exact Hs.
  - exact Hx.
Qed.

(** No white space at the start or at the end. *)
Lemma trim_none (prev : option N) (s : jsstring) :
  inertTail s -> (prev = None -> startsWith s (str " ") = false) ->
  match_here false re_trim prev s = None.
Proof.
  intros H Hstart. unfold match_here, re_trim.
  cbn [seqs plus rmatch].
  inversion H as [|c s' Hc Hs|c s' Hc Hs]; subst.
  - destruct (at_bol false prev); reflexivity.
  - destruct (inert_spec c Hc) as [Sp _]. rewrite Sp.
    destruct (at_bol false prev); reflexivity.
  - destruct prev as [p|].
    + cbn [at_bol andb]. change (is_space 32) with true. cbn iota.
      cbn [rep_cls]. destruct (inert_spec c Hc) as [Sp _]. rewrite Sp.
      reflexivity.
    + specialize (Hstart eq_refl). discriminate.
Qed.

Lemma replace_trim_plain (x : jsstring) :
  plainLine x -> replace_all re_trim [] x = x.
Proof.
  intros [Hx Hs]. unfold replace_all, replace_fn.
  apply (replace_go_noop false re_trim _
           (fun prev s => inertTail s
                          /\ (prev = None -> startsWith s (str " ") = false))).
  - intros prev c s [H _]. split; [apply (inertTail_tail c s H)|].
    intros E. discriminate.
  - intros prev s [H1 H2]. apply trim_none; assumption.
  - split; [exact Hx|]. intros _. exact Hs.
Qed.

Lemma inertTail_trimEnd (s : jsstring) :
  inertTail s -> forall c, inert c = true -> trimEnd (c :: s) = c :: s.
Proof.
  induction 1 as [|c' s Hc' Hs IH|c' s Hc' Hs IH]; intros c Hc.
  - apply trimEnd_single. apply (inert_spec c Hc).
  - rewrite trimEnd_cons; rewrite (IH c' Hc'); [reflexivity|discriminate].
  - assert (E : trimEnd (32%N :: c' :: s) = 32%N :: c' :: s).
    { rewrite trimEnd_cons; rewrite (IH c' Hc'); [reflexivity|discriminate]. }
    rewrite trimEnd_cons; rewrite E; [reflexivity|discriminate].
Qed.

Lemma plainLine_trim (x : jsstring) : plainLine x -> trim x = x.
Proof.
  intros [Hx Hs]. unfold trim. inversion Hx as [|c s Hc Ht|c s Hc Ht]; subst.
  - reflexivity.
  - rewrite trimStart_keep by apply (inert_spec c Hc).
    apply inertTail_trimEnd; assumption.
  - discriminate.
Qed.

Lemma line_match (c : N) (s : jsstring) :
  without is_line_terminator (c :: s) ->
  match_here true re_line None (c :: s)
  = Some (S (length s), [(1%nat, c :: s)]).
Proof.
  intros H. inversion H as [|c' s' Hc Hs]; subst.
  unfold match_here, re_line. cbn [seqs plus rmatch at_bol].
  unfold is_dot at 1. rewrite Hc. cbn [negb].
  rewrite (rep_cls_all _ is_dot _
             (S (length s), [(1%nat, c :: s)])).
  - reflexivity.
  - intros prev. cbn [at_eol length]. rewrite !Nat.sub_0_r.
    change (S (length s)) with (length (c :: s)).
    rewrite (firstn_all (c :: s)). reflexivity.
  - apply (Forall_impl _ (fun a (P : is_line_terminator a = false) =>
                            proj2 (negb_true_iff _) P) Hs).
Qed.

Lemma line_rest (f : jsstring -> caps -> jsstring) :
  forall (s : jsstring) (p : N),
    is_line_terminator p = false -> without is_line_terminator s ->
    replace_go true re_line f (Some p) s (length s) = [].
Proof.
  induction s as [|c s IH]; intros p Hp Hs.
  - cbn [length replace_go]. unfold match_here, re_line.
    cbn [seqs rmatch at_bol]. rewrite Hp. reflexivity.
  - inversion Hs as [|c' s' Hc Hs']; subst.
    cbn [length replace_go]. apply IH; assumption.
Qed.

Lemma replace_line_plain (x : jsstring) :
  plainLine x -> replace_fn true re_line (fun m _ => trim m) x = x.
Proof.
  intros Hx. pose proof (plainLine_trim x Hx) as Ht.
  destruct Hx as [Hx Hs].
  pose proof (inertTail_without is_line_terminator x
                avoided_line_terminator Hx) as Hw.
  unfold replace_fn. destruct x as [|c s].
  - reflexivity.
  - cbn [replace_go]. rewrite (line_match c s Hw).
    change (S (length s)) with (length (c :: s)) at 1.
    rewrite (firstn_all (c :: s)).
    inversion Hw as [|c' s' Hc Hs']; subst.
    rewrite (line_rest _ s c Hc Hs'). rewrite app_nil_r. exact Ht.
Qed.

(** The cleanup leaves a plain line as it is. *)
Lemma cleanupPasses_plain (x : jsstring) :
  plainLine x -> applyPasses cleanupPasses x = x.
Proof.
  intros Hp. pose proof Hp as [Hx _].
  unfold applyPasses, cleanupPasses. cbn [fold_left].
  rewrite (replace_all_avoided is_nl re_nl4 _ x req_nl4 avoided_nl Hx).
  rewrite (replace_all_avoided is_nl re_blank_nl _ x req_blank_nl avoided_nl
             Hx).
  rewrite (replace_all_avoided is_nl re_nl_blank _ x req_nl_blank avoided_nl
             Hx).
  rewrite (replace_blank2_plain _ x Hx).
  rewrite (replace_all_avoided is_sentence_end re_sentence_cap _ x
             req_sentence_cap avoided_sentence_end Hx).
  rewrite (replace_all_avoided is_upper re_camel _ x req_camel avoided_upper
             Hx).
  rewrite (replace_all_avoided is_sentence_end re_punct_word _ x
             req_punct_word avoided_sentence_end Hx).
  rewrite (replace_all_avoided is_nl re_nl3 _ x req_nl3 avoided_nl Hx).
  rewrite (replace_all_avoided is_nl re_pipe_nl _ x req_pipe_nl avoided_nl
             Hx).
  rewrite (replace_trim_plain x Hp).
  rewrite (replace_all_avoided (is_char 91) re_empty_target _ x
             req_empty_target avoided_bracket Hx).
  rewrite (replace_all_avoided (is_char 91) re_empty_text _ x
             req_empty_text avoided_bracket Hx).
  rewrite (replace_all_avoided is_nl re_empty_cell _ x req_empty_cell
             avoided_nl Hx).
  rewrite (replace_all_avoided (is_char c_star) re_word_bold_caps _ x
             req_word_bold_caps avoided_star Hx).
  rewrite (replace_all_avoided (is_char c_star) re_word_bold_word _ x
             req_word_bold_word avoided_star Hx).
  rewrite (replace_all_avoided (is_char c_star) re_word_stars_caps _ x
             req_word_stars_caps avoided_star Hx).
  rewrite (replace_all_avoided (is_char c_star) re_word_stars_word _ x
             req_word_stars_word avoided_star Hx).
  rewrite (replace_all_avoided (is_char c_star) re_stars_caps_stars _ x
             req_stars_caps_stars avoided_star Hx).
  rewrite (replace_all_avoided (is_char c_star) re_bold_word _ x
             req_bold_word avoided_star Hx).
  rewrite (replace_all_avoided is_nl re_nl_nl_nl _ x req_nl_nl_nl avoided_nl
             Hx).
  rewrite (replace_all_avoided is_sentence_end re_sentence_nl_cap _ x
             req_sentence_nl_cap avoided_sentence_end Hx).
  apply (replace_line_plain x Hp).
Qed.

Lemma notionPasses_plain (x : jsstring) :
  plainLine x -> applyPasses notionPasses x = x.
Proof.
  intros [Hx _]. unfold applyPasses, notionPasses. cbn [fold_left].
  rewrite (replace_all_avoided (is_char c_dollar) re_dollar2 _ x req_dollar2
             avoided_dollar Hx).
  rewrite (replace_all_avoided (is_char c_dollar) re_dollar _ x req_dollar
             avoided_dollar Hx).
  apply (replace_all_avoided is_nl re_nl3 _ x req_nl3 avoided_nl Hx).
Qed.

Lemma cleanup_plain (x : jsstring) (notionMode : bool) :
  plainLine x -> cleanup x notionMode = x.
Proof.
  intros H. unfold cleanup. rewrite (cleanupPasses_plain x H).
  destruct notionMode; [apply (notionPasses_plain x H)|reflexivity].
Qed.

Example plain_example : plainLine (str "- see (this) note, ok | fine_1").
Proof.
  split; [|reflexivity].
  repeat first [ apply it_nil
               | apply it_space; [reflexivity|]
               | apply it_char; [reflexivity|] ].
Qed.

(** *** A second run *)

(** The counterexample of C9: the transducer renders a table whose first
    row ends with an empty cell as [| a |  ||] and two more lines; one run
    of the cleanup leaves [| a | |] as the first line, a second run leaves
    [| a |]. *)
Lemma C9_counterexample_second_pass_changes_table :
  Sample.emptyCellTable
  = str "| a |  ||" ++ nl ++ str "| --- | --- | --- | " ++ nl
    ++ str "| b | c ||" ++ nl ++ nl
  /\ cleanup Sample.emptyCellTable false
     = str "| a | |" ++ nl ++ str "| --- | --- | --- |" ++ nl
       ++ str "| b | c ||"
  /\ cleanup (cleanup Sample.emptyCellTable false) false
     = str "| a |" ++ nl ++ str "| --- | --- | --- |" ++ nl
       ++ str "| b | c ||"
  /\ cleanup (cleanup Sample.emptyCellTable false) false
     <> cleanup Sample.emptyCellTable false.
Proof.
  repeat apply conj; try (vm_compute; reflexivity).
  vm_compute. discriminate.
Qed.

(** C9, amended: a second run of the cleanup changes nothing, in both
    modes, for every plain line (words of code units other than white
    space, capital letters and [. ! ? * [ $], separated by single spaces;
    the cleanup leaves such a line as it is), for every string whose
    cleaned form is a plain line, and for the sample fragments (the rendering of an article with a
    heading, paragraphs, lists, a link, inline math, a quotation, a code
    block, a table and emphasis; single headings, paragraphs, lists and
    tables; hand-written Markdown with math). It is not promised for every
    string. *)
Theorem C9_cleanup_idempotent_on_plain_text :
  forall (x : jsstring) (notionMode : bool),
    In x Sample.fragments \/ plainLine x \/ plainLine (cleanup x notionMode) ->
    cleanup (cleanup x notionMode) notionMode = cleanup x notionMode.
Proof.
  intros x notionMode [H|[H|H]].
  - assert (A : forallb (fun y =>
                           JSString.eqb (cleanup (cleanup y true) true)
                                        (cleanup y true)
                           && JSString.eqb (cleanup (cleanup y false) false)
                                           (cleanup y false))
                        Sample.fragments = true)
      by (vm_compute; reflexivity).
    rewrite forallb_forall in A. specialize (A x H).
    apply andb_true_iff in A. destruct A as [A1 A2].
    destruct notionMode; apply eqb_eq; assumption.
  - rewrite (cleanup_plain x notionMode H). apply cleanup_plain. exact H.
  - apply cleanup_plain. exact H.
Qed.

(** The cleaned form of [some  plain   text ] is the plain line
    [some plain text]. *)
Lemma C9_cleanup_idempotent_on_plain_text_witness :
  (In (str "some  plain   text ") Sample.fragments
   \/ plainLine (str "some  plain   text ")
   \/ plainLine (cleanup (str "some  plain   text ") false))
  /\ cleanup (str "some  plain   text ") false = str "some plain text"
  /\ cleanup (cleanup (str "some  plain   text ") false) false
     = cleanup (str "some  plain   text ") false.
Proof.
  assert (E : cleanup (str "some  plain   text ") false
              = str "some plain text") by (vm_compute; reflexivity).
  assert (H : In (str "some  plain   text ") Sample.fragments
              \/ plainLine (str "some  plain   text ")
              \/ plainLine (cleanup (str "some  plain   text ") false)).
  { right. right. rewrite E. split; [|reflexivity].
    repeat first [ apply it_nil
                 | apply it_space; [reflexivity|]
                 | apply it_char; [reflexivity|] ]. }
  split; [exact H|]. split; [exact E|].
  exact (C9_cleanup_idempotent_on_plain_text
           (str "some  plain   text ") false H).
Defined.

(** ** The fallback of the orchestrator *)

(** C1: when the located root is not the body and its cleaned result has
    fewer than three words, the specification has the pipeline rerun with
    the document body as the root and the result of that run returned.
    The script calls itself with [notionMode] alone: the new activation
    locates the same root again, and so does every further one. For every
    such document, in both modes and for every depth of the call stack,
    the extraction ends in the [RangeError] of the exhausted stack; the
    result of the body is never returned. *)
Theorem C1_retry_locates_the_same_root :
  forall (d : Page) (notionMode : bool),
    escalates d notionMode ->
    forall stack, extractPageContent stack d notionMode = Throw RangeError.
Proof.
  intros d notionMode H. apply extract_overflows.
  apply escalates_callsItself. exact H.
Qed.

(** On [<article>Hi</article><p>Plenty of words in the body here</p>] the
    located root is the article; the body would give the whole text. *)
Lemma C1_retry_locates_the_same_root_witness :
  escalates Sample.shortArticle false
  /\ option_map handle (findMainContent Sample.shortArticle)
     = Some [1; 0]%nat
  /\ option_map handle (body Sample.shortArticle) = Some [1]%nat
  /\ extractFromBody Sample.shortArticle false
     = Ok (str "Hi" ++ nl ++ nl ++ str "Plenty of words in the body here")
  /\ forall stack,
       extractPageContent stack Sample.shortArticle false = Throw RangeError.
Proof.
  assert (H : escalates Sample.shortArticle false).
  { split; [reflexivity|]. exists (str "Hi" ++ nl ++ nl).
    split; [vm_compute; reflexivity|]. vm_compute. lia. }
  split; [exact H|]. split; [reflexivity|]. split; [reflexivity|].
  split; [vm_compute; reflexivity|].
  exact (C1_retry_locates_the_same_root Sample.shortArticle false H).
Defined.

(** C2: the specification caps the escalation at one retry, so at most
    two activations and a returned string, also when the retry yields
    fewer than three words again. In the script each activation under the
    condition of the fallback calls the next one: with room for [stack]
    activations, [stack] activations are entered. *)
Theorem C2_retries_are_not_capped :
  forall (d : Page) (notionMode : bool),
    escalates d notionMode ->
    forall stack, activations stack d notionMode = stack.
Proof.
  intros d notionMode H. apply activations_fill_stack.
  apply escalates_callsItself. exact H.
Qed.

(** On [<main>Hi</main>] the body too has fewer than three words. *)
Lemma C2_retries_are_not_capped_witness :
  escalates Sample.shortEverywhere true
  /\ extractFromBody Sample.shortEverywhere true = Ok (str "Hi")
  /\ forall stack, activations stack Sample.shortEverywhere true = stack.
Proof.
  assert (H : escalates Sample.shortEverywhere true).
  { split; [reflexivity|]. exists (str "Hi" ++ nl ++ nl).
    split; [vm_compute; reflexivity|]. vm_compute. lia. }
  split; [exact H|]. split; [vm_compute; reflexivity|].
  exact (C2_retries_are_not_capped Sample.shortEverywhere true H).
Defined.

(** * Further properties *)

(** ** A located root that the filter rejects *)

Lemma rejected_root_escalates (d : Page) (notionMode : bool) (l : Located) :
  findMainContent d = Some l ->
  shouldSkipElement (element l) = true ->
  sameNode (Some l) (body d) = false ->
  escalates d notionMode.
Proof.
  intros Hl Hskip Hbody. split.
  - rewrite Hl. exact Hbody.
  - exists []. rewrite Hl. split.
    + unfold processRoot. destruct (element l) as [x|x|t attrs st cs];
        try discriminate.
      apply processNode_skipped. exact Hskip.
    + destruct notionMode; vm_compute; lia.
Qed.

(** X1: the strategies of [findMainContent] that go by a selector do not
    ask [shouldSkipElement], and [processNode] does. When the located
    root is an element that the filter rejects and is not the body, its
    rendering is empty, the word count is zero, and the function calls
    itself on the same document: in both modes and for every depth of
    the call stack the extraction ends in the [RangeError] of the
    exhausted stack. *)
Theorem rejected_root_never_returns :
  forall (d : Page) (notionMode : bool) (l : Located),
    findMainContent d = Some l ->
    shouldSkipElement (element l) = true ->
    sameNode (Some l) (body d) = false ->
    forall stack, extractPageContent stack d notionMode = Throw RangeError.
Proof.
  intros d notionMode l Hl Hskip Hbody.
  apply extract_overflows. apply escalates_callsItself.
  apply (rejected_root_escalates d notionMode l Hl Hskip Hbody).
Qed.

(** [<article class="post-header">] is found by the selector [article]
    and rejected for the term [header]. *)
Lemma rejected_root_never_returns_witness :
  findMainContent Cases.headerPage = Some Cases.headerLocated
  /\ shouldSkipElement (element Cases.headerLocated) = true
  /\ sameNode (Some Cases.headerLocated) (body Cases.headerPage) = false
  /\ forall stack,
       extractPageContent stack Cases.headerPage false = Throw RangeError.
Proof.
  assert (H1 : findMainContent Cases.headerPage = Some Cases.headerLocated)
    by (vm_compute; reflexivity).
  assert (H2 : shouldSkipElement (element Cases.headerLocated) = true)
    by (vm_compute; reflexivity).
  assert (H3 : sameNode (Some Cases.headerLocated) (body Cases.headerPage)
               = false)
    by (vm_compute; reflexivity).
  repeat apply conj; try assumption.
  exact (rejected_root_never_returns Cases.headerPage false
           Cases.headerLocated H1 H2 H3).
Defined.

Lemma classList_contains_In (attrs : list (jsstring * jsstring))
      (c : jsstring) :
  classList_contains attrs c = true -> In c (classList attrs).
Proof.
  unfold classList_contains. intros H. apply existsb_exists in H.
  destruct H as [x [Hin Heq]]. apply eqb_eq in Heq. subst x. exact Hin.
Qed.

Lemma attrIs_id (attrs : list (jsstring * jsstring)) (v : jsstring) :
  attrIs attrs (str "id") v = true -> id attrs = v.
Proof.
  unfold attrIs, id. destruct (getAttribute attrs (str "id")) as [x|];
    [|discriminate].
  intros H. apply eqb_eq in H. exact H.
Qed.

Lemma github_selectors_rejected (n : Node) :
  matchesSimple (SClass (str "js-navigation-container")) n = true
  \/ matchesSimple (SId (str "js-repo-pjax-container")) n = true ->
  shouldSkipElement n = true.
Proof.
  destruct n as [x|x|t attrs st cs]; cbn [matchesSimple];
    try (intros [H|H]; discriminate).
  intros H.
  apply (lowercase_term_skips githubSkipClasses (str "js-") t attrs st cs).
  - right. reflexivity.
  - vm_compute. auto 20.
  - destruct H as [H|H].
    + left. exists (str "js-navigation-container"). split.
      * apply classList_contains_In. exact H.
      * reflexivity.
    + right. rewrite (attrIs_id attrs _ H). reflexivity.
Qed.

(** X17: the third strategy of [findMainContent] looks on GitHub for the
    class [js-navigation-container] and the id [js-repo-pjax-container];
    the site vocabulary of [shouldSkipElement] holds the term [js-], so
    each element found that way is rejected. When such an element is the
    located root and is not the body, the extraction ends in the
    [RangeError] of the exhausted stack, in both modes, whatever the
    element holds. *)
Theorem github_container_never_returns :
  forall (d : Page) (notionMode : bool) (l : Located),
    findMainContent d = Some l ->
    matchesSimple (SClass (str "js-navigation-container")) (element l) = true
    \/ matchesSimple (SId (str "js-repo-pjax-container")) (element l)
       = true ->
    sameNode (Some l) (body d) = false ->
    forall stack, extractPageContent stack d notionMode = Throw RangeError.
Proof.
  intros d notionMode l Hl Hsel Hbody.
  apply extract_overflows. apply escalates_callsItself.
  apply (rejected_root_escalates d notionMode l Hl); [|exact Hbody].
  apply github_selectors_rejected. exact Hsel.
Qed.

(** A list of pull requests, located through the row and its closest
    container. *)
Lemma github_container_never_returns_witness :
  findMainContent Cases.pullsPage = Some Cases.pullsLocated
  /\ (matchesSimple (SClass (str "js-navigation-container"))
                    (element Cases.pullsLocated) = true
      \/ matchesSimple (SId (str "js-repo-pjax-container"))
                       (element Cases.pullsLocated) = true)
  /\ sameNode (Some Cases.pullsLocated) (body Cases.pullsPage) = false
  /\ forall stack,
       extractPageContent stack Cases.pullsPage false = Throw RangeError.
Proof.
  assert (H1 : findMainContent Cases.pullsPage = Some Cases.pullsLocated)
    by (vm_compute; reflexivity).
  assert (H2 : matchesSimple (SClass (str "js-navigation-container"))
                             (element Cases.pullsLocated) = true
               \/ matchesSimple (SId (str "js-repo-pjax-container"))
                                (element Cases.pullsLocated) = true)
    by (left; vm_compute; reflexivity).
  assert (H3 : sameNode (Some Cases.pullsLocated) (body Cases.pullsPage)
               = false)
    by (vm_compute; reflexivity).
  repeat apply conj; try assumption.
  exact (github_container_never_returns Cases.pullsPage false
           Cases.pullsLocated H1 H2 H3).
Defined.

(** ** The root that [findMainContent] locates *)

Lemma largestCandidate_general (candidates : list Located) :
  forall (best : option Located) (maxTextLength : nat),
    (largestCandidate candidates best maxTextLength = best
     /\ forall c, In c candidates -> accepted c = true ->
                  (cleanLength c <= maxTextLength)%nat)
    \/ exists pre x post,
        largestCandidate candidates best maxTextLength = Some x
        /\ candidates = pre ++ x :: post
        /\ accepted x = true
        /\ (maxTextLength < cleanLength x)%nat
        /\ (forall c, In c pre -> accepted c = true ->
                      (cleanLength c < cleanLength x)%nat)
        /\ (forall c, In c post -> accepted c = true ->
                      (cleanLength c <= cleanLength x)%nat).
Proof.
  induction candidates as [|c rest IH]; intros best maxTextLength.
  - left. split; [reflexivity|]. intros c [].
  - cbn [largestCandidate].
    destruct (shouldSkipElement (element c)) eqn:Hskip.
    + destruct (IH best maxTextLength)
        as [[E H]|(pre & x & post & E & Hc & Hx & Hm & Hpre & Hpost)].
      * left. split; [exact E|]. intros c' [<-|Hin] Hacc.
        -- unfold accepted in Hacc. rewrite Hskip in Hacc. discriminate.
        -- apply H; assumption.
      * right. exists (c :: pre), x, post.
        repeat apply conj; try assumption; try reflexivity;
             try (rewrite Hc; reflexivity).
        intros c' [<-|Hin] Hacc.
        -- unfold accepted in Hacc. rewrite Hskip in Hacc. discriminate.
        -- apply Hpre; assumption.
    + fold (cleanLength c).
      destruct (maxTextLength <? cleanLength c)%nat eqn:Hlt.
      * apply Nat.ltb_lt in Hlt.
        destruct (IH (Some c) (cleanLength c))
          as [[E H]|(pre & x & post & E & Hc & Hx & Hm & Hpre & Hpost)].
        -- right. exists [], c, rest.
           repeat apply conj; try assumption; try reflexivity;
             try (rewrite Hc; reflexivity).
           ++ unfold accepted. rewrite Hskip. reflexivity.
           ++ intros c' [].
        -- right. exists (c :: pre), x, post.
           repeat apply conj; try assumption; try reflexivity;
             try (rewrite Hc; reflexivity).
           ++ lia.
           ++ intros c' [<-|Hin] Hacc; [exact Hm|]. apply Hpre; assumption.
      * apply Nat.ltb_ge in Hlt.
        destruct (IH best maxTextLength)
          as [[E H]|(pre & x & post & E & Hc & Hx & Hm & Hpre & Hpost)].
        -- left. split; [exact E|]. intros c' [<-|Hin] Hacc.
           ++ exact Hlt.
           ++ apply H; assumption.
        -- right. exists (c :: pre), x, post.
           repeat apply conj; try assumption; try reflexivity;
             try (rewrite Hc; reflexivity).
           intros c' [<-|Hin] Hacc; [lia|]. apply Hpre; assumption.
Qed.

(** X2: the fourth strategy of [findMainContent]. Among the candidates
    in document order it returns the first one of greatest clean text
    length among those that [shouldSkipElement] accepts: every accepted
    candidate before it is strictly shorter, none after it is longer, and
    its text is not empty. It returns nothing exactly when every accepted
    candidate has an empty clean text. *)
Theorem largestCandidate_first_longest :
  forall candidates : list Located,
    (largestCandidate candidates None 0 = None
     /\ forall c, In c candidates -> accepted c = true -> cleanLength c = 0%nat)
    \/ exists pre x post,
        largestCandidate candidates None 0 = Some x
        /\ candidates = pre ++ x :: post
        /\ accepted x = true
        /\ (0 < cleanLength x)%nat
        /\ (forall c, In c pre -> accepted c = true ->
                      (cleanLength c < cleanLength x)%nat)
        /\ (forall c, In c post -> accepted c = true ->
                      (cleanLength c <= cleanLength x)%nat).
Proof.
  intros candidates.
  destruct (largestCandidate_general candidates None 0) as [[E H]|H].
  - left. split; [exact E|]. intros c Hc Hacc.
    specialize (H c Hc Hacc). lia.
  - right. exact H.
Qed.

Lemma nodeAt_app (root : Node) (p q : path) (n : Node) :
  nodeAt root p = Some n -> nodeAt root (p ++ q) = nodeAt n q.
Proof.
  revert root. induction p as [|i p IH]; intros root H; simpl in *.
  - inversion H. reflexivity.
  - destruct (nth_error (childNodesOf root) i); [|discriminate].
    apply IH. exact H.
Qed.

Lemma elementsFrom_sound (root : Node) (n : Node) :
  forall (p : path) (ancs : list Node),
    nodeAt root p = Some n -> chainOf root p ancs ->
    forall x, In x (elementsFrom p ancs n) ->
              nodeAt root (fst (fst x)) = Some (snd x)
              /\ isElement (snd x) = true
              /\ chainOf root (fst (fst x)) (snd (fst x)).
Proof.
  induction n as [d|d|t attrs st cs IH] using Node_induction;
    intros p ancs Hp Hc x Hx; simpl in Hx; try contradiction.
  destruct Hx as [<-|Hx].
  - simpl. repeat apply conj; try assumption; reflexivity.
  - assert (G : forall (l : list Node) (i : nat),
               Forall (fun c => forall p ancs,
                           nodeAt root p = Some c -> chainOf root p ancs ->
                           forall x, In x (elementsFrom p ancs c) ->
                                     nodeAt root (fst (fst x)) = Some (snd x)
                                     /\ isElement (snd x) = true
                                     /\ chainOf root (fst (fst x)) (snd (fst x))) l ->
               (forall j c, nth_error l j = Some c ->
                            nth_error cs (i + j) = Some c) ->
               forall x,
                 In x ((fix go (i : nat) (l : list Node)
                         : list (path * list Node * Node) :=
                         match l with
                         | [] => []
                         | c :: l' =>
                             elementsFrom (p ++ [i])
                               (ElementNode t attrs st cs :: ancs) c
                             ++ go (S i) l'
                         end) i l) ->
                 nodeAt root (fst (fst x)) = Some (snd x)
                 /\ isElement (snd x) = true
                 /\ chainOf root (fst (fst x)) (snd (fst x))).
    { induction l as [|c l IHl]; intros i Hall Hnth y Hy.
      - destruct Hy.
      - inversion Hall as [|c' l' Hc' Hl']; subst.
        apply in_app_or in Hy. destruct Hy as [Hy|Hy].
        + apply (Hc' (p ++ [i]) (ElementNode t attrs st cs :: ancs)).
          * rewrite (nodeAt_app root p [i] _ Hp). simpl.
            specialize (Hnth 0%nat c eq_refl). rewrite Nat.add_0_r in Hnth.
            rewrite Hnth. reflexivity.
          * simpl. rewrite removelast_last. repeat apply conj.
            -- intros E. destruct p; discriminate.
            -- exact Hp.
            -- exact Hc.
          * exact Hy.
        + apply (IHl (S i) Hl').
          * intros j c0 Hj. replace (S i + j)%nat with (i + S j)%nat by lia.
            apply Hnth. exact Hj.
          * exact Hy. }
    apply (G cs 0%nat IH); [|exact Hx].
    intros j c Hj. exact Hj.
Qed.

Lemma allElements_inDocument (d : Page) (l : Located) :
  In l (allElements d) -> inDocument (documentElement d) l.
Proof.
  unfold allElements. intros H. apply in_map_iff in H.
  destruct H as [x [<- Hx]]. unfold inDocument. simpl.
  apply (elementsFrom_sound (documentElement d) (documentElement d) [] []);
    [reflexivity|exact I|exact Hx].
Qed.

Lemma matchesSimple_isElement (s : simple) (n : Node) :
  matchesSimple s n = true -> isElement n = true.
Proof. destruct n; simpl; intros H; try discriminate; reflexivity. Qed.

Lemma closestFrom_inDocument (root : Node) (s : simple) :
  forall (chain : list Node) (p : path) (l : Located),
    match chain with
    | [] => True
    | n :: rest => nodeAt root p = Some n /\ chainOf root p rest
    end ->
    closestFrom s p chain = Some l -> inDocument root l.
Proof.
  induction chain as [|n rest IH]; intros p l H E; simpl in E.
  - discriminate.
  - destruct H as [Hn Hc]. destruct (matchesSimple s n) eqn:M.
    + inversion E; subst. unfold inDocument. simpl.
      repeat apply conj; try assumption.
      apply (matchesSimple_isElement s n M).
    + apply (IH (removelast p) l); [|exact E].
      destruct rest as [|a rest']; [exact I|].
      simpl in Hc. destruct Hc as [_ [Ha Hc]]. split; assumption.
Qed.

Lemma closest_inDocument (root : Node) (s : simple) (l l' : Located) :
  inDocument root l -> closest s l = Some l' -> inDocument root l'.
Proof.
  intros [Hn [_ Hc]] E. unfold closest in E.
  apply (closestFrom_inDocument root s (element l :: ancestors l)
           (handle l) l'); [split; assumption|exact E].
Qed.

Lemma querySelector_inDocument (d : Page) (sel : selector) (l : Located) :
  querySelector d sel = Some l -> inDocument (documentElement d) l.
Proof.
  unfold querySelector. intros H. apply find_some in H.
  apply allElements_inDocument. apply H.
Qed.

Lemma firstOf_inDocument (d : Page) (sels : list selector) (l : Located) :
  firstOf (querySelector d) sels = Some l ->
  inDocument (documentElement d) l.
Proof.
  induction sels as [|sel sels IH]; simpl; intros H.
  - discriminate.
  - unfold orElse in H. destruct (querySelector d sel) as [x|] eqn:E.
    + inversion H; subst. apply (querySelector_inDocument d sel l E).
    + apply IH. exact H.
Qed.

Lemma largestCandidate_In (candidates : list Located) :
  forall best maxTextLength x,
    largestCandidate candidates best maxTextLength = Some x ->
    In x candidates \/ best = Some x.
Proof.
  induction candidates as [|c rest IH]; intros best m x H; simpl in H.
  - right. exact H.
  - destruct (shouldSkipElement (element c)).
    + destruct (IH best m x H) as [G|G]; [left; right; exact G|right; exact G].
    + destruct (m <? length (getCleanTextContent (element c)))%nat.
      * destruct (IH _ _ x H) as [G|G]; [left; right; exact G|].
        inversion G; subst. left. left. reflexivity.
      * destruct (IH best m x H) as [G|G];
          [left; right; exact G|right; exact G].
Qed.

Lemma bodyIndex_nth (cs : list Node) :
  forall (i j : nat) (b : Node),
    bodyIndex cs i = Some (j, b) ->
    exists k, j = (i + k)%nat /\ nth_error cs k = Some b
              /\ isElement b = true.
Proof.
  induction cs as [|c cs IH]; intros i j b H; simpl in H.
  - discriminate.
  - destruct (tagIs (str "body") c || tagIs (str "frameset") c) eqn:T.
    + inversion H; subst. exists 0%nat. repeat apply conj.
      * lia.
      * reflexivity.
      * destruct b; simpl in T; try discriminate. reflexivity.
    + destruct (IH (S i) j b H) as [k [Hj [Hk Hb]]].
      exists (S k). repeat apply conj; [lia|exact Hk|exact Hb].
Qed.

Lemma body_inDocument (d : Page) (l : Located) :
  body d = Some l -> inDocument (documentElement d) l.
Proof.
  unfold body. intros H.
  destruct (tagIs (str "html") (documentElement d)); [|discriminate].
  destruct (bodyIndex (childNodesOf (documentElement d)) 0)
    as [[j b]|] eqn:E; [|discriminate].
  inversion H; subst. clear H.
  destruct (bodyIndex_nth _ 0%nat j b E) as [k [Hj [Hk Hb]]].
  simpl in Hj. subst k. unfold inDocument. simpl.
  rewrite Hk. repeat apply conj; try reflexivity; try assumption.
  discriminate.
Qed.

Lemma findMainContent_located (d : Page) (l : Located) :
  findMainContent d = Some l -> inDocument (documentElement d) l.
Proof.
  intros F. unfold findMainContent, orElse in F.
  destruct (firstOf (querySelector d) semanticSelectors) as [x|] eqn:E1.
  { inversion F; subst. apply (firstOf_inDocument d _ l E1). }
  destruct (firstOf (querySelector d) contentSelectors) as [x|] eqn:E2.
  { inversion F; subst. apply (firstOf_inDocument d _ l E2). }
  destruct (githubContent d) as [x|] eqn:E3.
  { inversion F; subst. unfold githubContent in E3.
    destruct (includes _ _); [|discriminate].
    destruct (firstOf (querySelector d) githubSelectors) as [m|] eqn:E4;
      [|discriminate].
    pose proof (firstOf_inDocument d _ m E4) as Hm.
    unfold orElse in E3.
    destruct (closest (SClass (str "js-navigation-container")) m)
      as [c|] eqn:E5.
    - inversion E3; subst. apply (closest_inDocument _ _ m l Hm E5).
    - inversion E3; subst. exact Hm. }
  destruct (largestCandidate (querySelectorAll d candidateSelectors) None 0)
    as [x|] eqn:E4.
  { inversion F; subst.
    destruct (largestCandidate_In _ None 0%nat l E4) as [G|G];
      [|discriminate].
    unfold querySelectorAll in G. apply filter_In in G.
    apply allElements_inDocument. apply G. }
  apply (body_inDocument d l F).
Qed.

Lemma findMainContent_none (d : Page) :
  findMainContent d = None -> body d = None.
Proof.
  intros F. unfold findMainContent, orElse in F.
  destruct (firstOf (querySelector d) semanticSelectors); [discriminate|].
  destruct (firstOf (querySelector d) contentSelectors); [discriminate|].
  destruct (githubContent d); [discriminate|].
  destruct (largestCandidate _ None 0); [discriminate|]. exact F.
Qed.

(** X3: what [findMainContent] returns is an element of the document:
    its handle leads from the document element to it, and the ancestors
    recorded with it are the nodes on that path. It returns nothing only
    when the document has no body, and the extraction then throws a
    [TypeError] at once, in both modes. *)
Theorem findMainContent_in_document :
  forall d : Page,
    match findMainContent d with
    | Some l => inDocument (documentElement d) l
    | None =>
        body d = None
        /\ forall notionMode stack,
             extractPageContent (S stack) d notionMode = Throw TypeError
    end.
Proof.
  intros d. destruct (findMainContent d) as [l|] eqn:F.
  - apply (findMainContent_located d l F).
  - split; [apply (findMainContent_none d F)|]. intros notionMode stack.
    apply extract_throws. unfold extractOnce. rewrite F. reflexivity.
Qed.

(** ** The [table] rule *)

Lemma endsWith_count (a : N) (s : jsstring) :
  endsWith s [a] = true -> (1 <= count_char a s)%nat.
Proof.
  unfold endsWith. intros H.
  destruct (rev s) as [|h t] eqn:E.
  - discriminate.
  - change (rev [a]) with [a] in H. rewrite startsWith_single in H.
    apply N.eqb_eq in H. subst h.
    assert (S : s = rev t ++ [a]).
    { rewrite <- (rev_involutive s), E. reflexivity. }
    rewrite S, count_char_app. unfold count_char at 2. simpl.
    unfold is_char. rewrite N.eqb_refl. simpl. lia.
Qed.

Lemma closed_row_pipes (r : jsstring) :
  (1 <= count_char c_pipe
          (if negb (endsWith r (str "|")) then r ++ str " |" else r))%nat.
Proof.
  destruct (endsWith r (str "|")) eqn:E; cbn [negb].
  - apply (endsWith_count c_pipe r E).
  - rewrite count_char_app.
    change (count_char c_pipe (str " |")) with 1%nat. lia.
Qed.

Lemma tableRow_returns (acc : jsstring * bool) (row : jsstring) :
  exists tableMarkdown, tableRow acc row = Ok (tableMarkdown, false).
Proof.
  destruct acc as [tm first]. unfold tableRow.
  set (r := if negb (startsWith (trim row) (str "|"))
            then str "| " ++ trim row else trim row).
  pose proof (closed_row_pipes r) as P.
  set (c := if negb (endsWith r (str "|")) then r ++ str " |" else r) in *.
  destruct first.
  - destruct (Z.of_nat (count_char c_pipe c) - 1 <? 0)%Z eqn:Hz.
    + apply Z.ltb_lt in Hz. exfalso.
      change (1 <= count_char c_pipe c)%nat in P. lia.
    + eexists. reflexivity.
  - eexists. reflexivity.
Qed.

Lemma tableRows_returns (rows : list jsstring) :
  forall acc, exists out, tableRows rows acc = Ok out.
Proof.
  induction rows as [|row rows IH]; intros acc; simpl.
  - exists acc. reflexivity.
  - destruct (tableRow_returns acc row) as [tm E]. rewrite E. simpl.
    apply IH.
Qed.

Lemma table_returns (childrenMarkdown : jsstring) :
  exists out, table childrenMarkdown = Ok out.
Proof.
  revert childrenMarkdown. intros md. unfold table.
  destruct (truthy (trim md)); [|exists []; reflexivity].
  destruct (filter _ _) as [|row rows] eqn:F; [exists []; reflexivity|].
  destruct (tableRows_returns (row :: rows) ([], true)) as [out E].
  rewrite E. simpl. eexists. reflexivity.
Qed.

(** ** Conversions that cannot throw *)

Lemma childLaTeX_returns (rs : list (result jsstring)) (i : nat) :
  Forall (fun r => exists s, r = Ok s) rs -> (i < length rs)%nat ->
  exists s, childLaTeX rs i = Ok s.
Proof.
  intros H Hi. unfold childLaTeX.
  destruct (nth_error rs i) as [r|] eqn:E.
  - apply nth_error_In in E. rewrite Forall_forall in H. apply (H r E).
  - apply nth_error_None in E. lia.
Qed.

Lemma joinedLaTeX_returns (rs : list (result jsstring)) :
  Forall (fun r => exists s, r = Ok s) rs -> exists s, joinedLaTeX rs = Ok s.
Proof.
  intros H. unfold joinedLaTeX.
  assert (S : exists l, sequence rs = Ok l).
  { induction H as [|r rs [s ->] _ [l IH]]; simpl.
    - exists []. reflexivity.
    - rewrite IH. simpl. eexists. reflexivity. }
  destruct S as [l ->]. simpl. eexists. reflexivity.
Qed.

Ltac read_child rs H i :=
  let s := fresh "s" in
  let E := fresh "E" in
  destruct (childLaTeX_returns rs i H) as [s E]; [lia|];
  rewrite E; cbn [bind].

Lemma mathMLCase_returns (notionMode : bool) (tagName : jsstring)
      (node : Node) (attrs : list (jsstring * jsstring))
      (rs : list (result jsstring)) :
  Forall (fun r => exists s, r = Ok s) rs ->
  (requiredChildren tagName <= length rs)%nat ->
  exists s, mathMLCase notionMode tagName node attrs rs = Ok s.
Proof.
  intros H Hn. unfold mathMLCase, requiredChildren in *.
  destruct (joinedLaTeX_returns rs H) as [j J].
  destruct (JSString.eqb tagName (str "mi")); [eexists; reflexivity|].
  destruct (JSString.eqb tagName (str "mn")); [eexists; reflexivity|].
  destruct (JSString.eqb tagName (str "mo")); [eexists; reflexivity|].
  destruct (JSString.eqb tagName (str "msup")).
  { read_child rs H 0%nat. read_child rs H 1%nat. eexists; reflexivity. }
  destruct (JSString.eqb tagName (str "msub")).
  { read_child rs H 0%nat. read_child rs H 1%nat. eexists; reflexivity. }
  destruct (JSString.eqb tagName (str "mfrac")).
  { read_child rs H 0%nat. read_child rs H 1%nat. eexists; reflexivity. }
  destruct (JSString.eqb tagName (str "msqrt")).
  { read_child rs H 0%nat. eexists; reflexivity. }
  destruct (JSString.eqb tagName (str "mroot")).
  { destruct (2 <=? length rs)%nat eqn:L; [|exists j; exact J].
    apply Nat.leb_le in L.
    read_child rs H 0%nat. read_child rs H 1%nat. eexists; reflexivity. }
  destruct (JSString.eqb tagName (str "mrow")); [exists j; exact J|].
  destruct (JSString.eqb tagName (str "msubsup")).
  { destruct (3 <=? length rs)%nat eqn:L; [|exists j; exact J].
    apply Nat.leb_le in L.
    read_child rs H 0%nat. read_child rs H 1%nat. read_child rs H 2%nat.
    eexists; reflexivity. }
  destruct (JSString.eqb tagName (str "mover")).
  { destruct (2 <=? length rs)%nat eqn:L; [|exists j; exact J].
    apply Nat.leb_le in L.
    read_child rs H 0%nat. read_child rs H 1%nat.
    destruct (JSString.eqb _ _); [eexists; reflexivity|].
    destruct (_ || _); eexists; reflexivity. }
  destruct (JSString.eqb tagName (str "munder")).
  { destruct (2 <=? length rs)%nat eqn:L; [|exists j; exact J].
    apply Nat.leb_le in L.
    read_child rs H 0%nat. read_child rs H 1%nat. eexists; reflexivity. }
  destruct (JSString.eqb tagName (str "math")); [|exists j; exact J].
  rewrite J. cbn [bind].
  destruct (getAttribute attrs (str "display")) as [v|].
  - destruct (JSString.eqb v (str "block")); destruct notionMode;
      eexists; reflexivity.
  - destruct notionMode; eexists; reflexivity.
Qed.

Lemma mathMLToLaTeX_returns (notionMode : bool) (n : Node) :
  isElement n = true -> arityOK n = true ->
  exists s, mathMLToLaTeX notionMode n = Ok s.
Proof.
  induction n as [d|d|t attrs st cs IH] using Node_induction;
    intros He Ha; try discriminate.
  rewrite mathMLToLaTeX_element. cbn [arityOK] in Ha.
  apply andb_true_iff in Ha. destruct Ha as [Hn Hcs].
  apply Nat.leb_le in Hn.
  apply mathMLCase_returns.
  - unfold children, childNodesOf. clear Hn.
    induction cs as [|c cs IHcs]; simpl.
    + constructor.
    + inversion IH as [|c' cs' Hc Hrest]; subst.
      simpl in Hcs. apply andb_true_iff in Hcs. destruct Hcs as [Hc1 Hc2].
      destruct (isElement c) eqn:Ec.
      * simpl. constructor; [apply Hc; assumption|apply IHcs; assumption].
      * apply IHcs; assumption.
  - unfold children, childNodesOf. rewrite length_map. exact Hn.
Qed.

Ltac tag_case tagName x :=
  destruct (JSString.eqb tagName (str x)) eqn:?; cbn [orb];
  [try (eexists; reflexivity)|].

Lemma formatElement_returns (w : Window) (notionMode : bool) (ctx : Ctx)
      (node : Node) (tagName : jsstring)
      (attrs : list (jsstring * jsstring)) (isInsideMath : bool)
      (childrenMarkdown : jsstring) :
  (JSString.eqb tagName (str "a") = true ->
   refOK w attrs (str "href") = true) ->
  (JSString.eqb tagName (str "img") = true ->
   refOK w attrs (str "src") = true) ->
  (JSString.eqb tagName (str "math") = true ->
   exists s, mathMLToLaTeX notionMode node = Ok s) ->
  exists out,
    formatElement w notionMode ctx node tagName attrs isInsideMath
                  childrenMarkdown = Ok out.
Proof.
  intros Ha Hi Hm. unfold formatElement. cbv beta zeta.
  tag_case tagName "h1"%string. tag_case tagName "h2"%string.
  tag_case tagName "h3"%string. tag_case tagName "h4"%string.
  tag_case tagName "h5"%string. tag_case tagName "h6"%string.
  tag_case tagName "p"%string. tag_case tagName "br"%string.
  tag_case tagName "strong"%string. tag_case tagName "b"%string.
  tag_case tagName "em"%string. tag_case tagName "i"%string.
  tag_case tagName "code"%string.
  { destruct (parentTag ctx); [destruct (negb _)|]; eexists; reflexivity. }
  tag_case tagName "pre"%string. tag_case tagName "blockquote"%string.
  tag_case tagName "ul"%string. tag_case tagName "ol"%string.
  tag_case tagName "li"%string.
  { destruct (truthy (trim childrenMarkdown));
      [destruct (parentIs _ _)|]; eexists; reflexivity. }
  tag_case tagName "a"%string.
  { specialize (Ha eq_refl). unfold anchorCase. unfold refOK in Ha.
    destruct (getAttribute attrs (str "href")) as [href|];
      [|eexists; reflexivity].
    destruct (_ && _); [|eexists; reflexivity].
    destruct (absoluteURL w href) as [u|e]; [|discriminate]. cbn [bind].
    eexists; reflexivity. }
  tag_case tagName "img"%string.
  { specialize (Hi eq_refl). unfold imgCase. unfold refOK in Hi.
    destruct (getAttribute attrs (str "src")) as [src|];
      [|eexists; reflexivity].
    destruct (truthy src); [|eexists; reflexivity].
    destruct (absoluteURL w src) as [u|e]; [|discriminate]. cbn [bind].
    eexists; reflexivity. }
  tag_case tagName "math"%string.
  { destruct (Hm eq_refl) as [s ->]. cbn [bind].
    destruct (_ && _); eexists; reflexivity. }
  tag_case tagName "table"%string.
  { apply table_returns. }
  tag_case tagName "tr"%string. tag_case tagName "td"%string.
  tag_case tagName "th"%string. tag_case tagName "span"%string.
  destruct (includesStr containerTags tagName); [eexists; reflexivity|].
  destruct (includesStr ignoredTags tagName); eexists; reflexivity.
Qed.

Lemma processNode_returns (w : Window) (notionMode : bool) (n : Node) :
  refsResolve w n = true -> mathReady n = true ->
  forall ctx, exists out, processNode w notionMode ctx n = Ok out.
Proof.
  induction n as [d|d|t attrs st cs IH] using Node_induction;
    intros Hw Hr ctx; try (eexists; reflexivity).
  destruct (shouldSkipElement (ElementNode t attrs st cs)) eqn:Hskip.
  { rewrite (processNode_skipped _ _ _ _ _ _ _ Hskip). eexists; reflexivity. }
  rewrite (processNode_element _ _ _ _ _ _ _ Hskip).
  cbn [mathReady] in Hr. apply andb_true_iff in Hr. destruct Hr as [Hm Hcs].
  cbn [refsResolve] in Hw. apply andb_true_iff in Hw.
  destruct Hw as [Hw Hws]. apply andb_true_iff in Hw.
  destruct Hw as [Ha Hi].
  assert (C : forall prev acc, exists md,
               processChildren (processNode w notionMode) t
                 (mathAncestor ctx
                  || JSString.eqb (toLowerCase t) (str "math"))
                 prev cs acc = Ok md).
  { clear Hm Hskip. induction cs as [|c cs IHcs]; intros prev acc.
    - exists acc. reflexivity.
    - inversion IH as [|c' cs' Hc Hrest]; subst.
      simpl in Hcs. apply andb_true_iff in Hcs. destruct Hcs as [Hc1 Hc2].
      simpl in Hws. apply andb_true_iff in Hws. destruct Hws as [Hw1 Hw2].
      rewrite processChildren_cons.
      destruct (Hc Hw1 Hc1 {| parentTag := Some t;
                              mathAncestor :=
                                mathAncestor ctx
                                || JSString.eqb (toLowerCase t) (str "math");
                              previousSibling := prev |}) as [r ->].
      cbn [bind]. apply IHcs; assumption. }
  destruct (C None []) as [md ->]. cbn [bind].
  apply formatElement_returns.
  - intros Ht. rewrite Ht in Ha. exact Ha.
  - intros Ht. rewrite Ht in Hi. exact Hi.
  - intros Ht. rewrite Ht in Hm.
    apply mathMLToLaTeX_returns; [reflexivity|exact Hm].
Qed.

Lemma forallb_nodeAt (P : Node -> bool) :
  (forall t attrs st cs c,
      P (ElementNode t attrs st cs) = true -> In c cs -> P c = true) ->
  forall p root n, P root = true -> nodeAt root p = Some n -> P n = true.
Proof.
  intros HP. induction p as [|i p IH]; intros root n H E; simpl in E.
  - inversion E; subst. exact H.
  - destruct (nth_error (childNodesOf root) i) as [c|] eqn:Ec;
      [|discriminate].
    apply (IH c n); [|exact E].
    destruct root as [x|x|t attrs st cs]; simpl in Ec;
      try (destruct i; discriminate).
    apply (HP t attrs st cs c H). apply (nth_error_In _ _ Ec).
Qed.

Lemma mathReady_nodeAt (p : path) :
  forall root n, mathReady root = true -> nodeAt root p = Some n ->
                 mathReady n = true.
Proof.
  apply forallb_nodeAt. intros t attrs st cs c H Hc.
  cbn [mathReady] in H. apply andb_true_iff in H.
  destruct H as [_ H]. rewrite forallb_forall in H. apply (H c Hc).
Qed.

Lemma refsResolve_nodeAt (w : Window) (p : path) :
  forall root n, refsResolve w root = true -> nodeAt root p = Some n ->
                 refsResolve w n = true.
Proof.
  apply forallb_nodeAt. intros t attrs st cs c H Hc.
  cbn [refsResolve] in H. apply andb_true_iff in H.
  destruct H as [_ H]. rewrite forallb_forall in H. apply (H c Hc).
Qed.

Lemma extractOnce_no_exception (d : Page) (notionMode : bool) :
  refsResolve (window d) (documentElement d) = true ->
  mathReady (documentElement d) = true ->
  body d <> None ->
  extractOnce d notionMode = CallsItself
  \/ exists out, extractOnce d notionMode = Returns out.
Proof.
  intros Hw Hm Hb. unfold extractOnce.
  destruct (findMainContent d) as [l|] eqn:F.
  - destruct (findMainContent_located d l F) as [Hn _].
    pose proof (mathReady_nodeAt _ _ _ Hm Hn) as Hl.
    pose proof (refsResolve_nodeAt _ _ _ _ Hw Hn) as Hr.
    unfold processRoot.
    destruct (processNode_returns (window d) notionMode (element l) Hr Hl
                                  (ctxOf l)) as [raw ->].
    destruct (wordCount (cleanup raw notionMode) <? 3)%nat;
      [destruct (negb _)|]; [left; reflexivity| |];
      right; eexists; reflexivity.
  - exfalso. apply Hb. apply (findMainContent_none d F).
Qed.

(** ** The conversions with the call stack counted *)

Lemma orOverflow_refl (A : Type) (r : result A) : orOverflow r r.
Proof. left. reflexivity. Qed.

Lemma orOverflow_bind (A B : Type) (m' m : result A)
      (f' f : A -> result B) :
  orOverflow m' m -> (forall a, orOverflow (f' a) (f a)) ->
  orOverflow (bind m' f') (bind m f).
Proof.
  intros [-> | ->] Hf.
  - destruct m as [a|e]; [apply Hf|left; reflexivity].
  - right. reflexivity.
Qed.

Lemma orOverflow_childLaTeX (rs' rs : list (result jsstring)) (i : nat) :
  Forall2 orOverflow rs' rs ->
  orOverflow (childLaTeX rs' i) (childLaTeX rs i).
Proof.
  intros H. revert i. unfold childLaTeX.
  induction H as [|r' r rs' rs Hr _ IH]; intros i.
  - destruct i; left; reflexivity.
  - destruct i as [|i]; [exact Hr|apply IH].
Qed.

Lemma orOverflow_sequence (A : Type) (rs' rs : list (result A)) :
  Forall2 orOverflow rs' rs -> orOverflow (sequence rs') (sequence rs).
Proof.
  induction 1 as [|r' r rs' rs Hr _ IH]; [left; reflexivity|].
  cbn [sequence]. apply orOverflow_bind; [exact Hr|]. intros a.
  apply orOverflow_bind; [exact IH|]. intros l. left. reflexivity.
Qed.

Lemma orOverflow_joinedLaTeX (rs' rs : list (result jsstring)) :
  Forall2 orOverflow rs' rs ->
  orOverflow (joinedLaTeX rs') (joinedLaTeX rs).
Proof.
  intros H. unfold joinedLaTeX.
  apply orOverflow_bind; [apply orOverflow_sequence; exact H|].
  intros l. left. reflexivity.
Qed.

Ltac overflow_step H :=
  first [ apply orOverflow_joinedLaTeX; exact H
        | apply orOverflow_bind;
          [ first [ apply orOverflow_childLaTeX; exact H
                  | apply orOverflow_joinedLaTeX; exact H ]
          | intros ? ]
        | apply orOverflow_refl ].

Lemma orOverflow_mathMLCase (notionMode : bool) (tagName : jsstring)
      (node : Node) (attrs : list (jsstring * jsstring))
      (rs' rs : list (result jsstring)) :
  Forall2 orOverflow rs' rs ->
  orOverflow (mathMLCase notionMode tagName node attrs rs')
             (mathMLCase notionMode tagName node attrs rs).
Proof.
  intros H. pose proof (Forall2_length H) as L.
  unfold mathMLCase. rewrite L.
  repeat match goal with
         | |- orOverflow (if ?b then _ else _) _ => destruct b
         end;
    repeat overflow_step H.
Qed.

Lemma mathML_within (room : nat) :
  forall (notionMode : bool) (n : Node),
    orOverflow (mathMLToLaTeXWithin room notionMode n)
               (mathMLToLaTeX notionMode n).
Proof.
  induction room as [|room IH]; intros notionMode n;
    destruct n as [d|d|t attrs st cs]; try (left; reflexivity);
    rewrite mathMLToLaTeX_element; cbn [mathMLToLaTeXWithin].
  - set (rs := map (mathMLToLaTeX notionMode) _).
    set (rs' := map (fun _ => Throw RangeError) _).
    assert (H : Forall2 orOverflow rs' rs).
    { unfold rs, rs'.
      induction (children (ElementNode t attrs st cs)); constructor;
        [right; reflexivity|assumption]. }
    destruct (orOverflow_mathMLCase notionMode (toLowerCase t)
                (ElementNode t attrs st cs) attrs rs' rs H) as [E|E];
      rewrite E.
    + destruct (mathMLCase _ _ _ _ rs); [left|right]; reflexivity.
    + right. reflexivity.
  - apply orOverflow_mathMLCase.
    induction (children (ElementNode t attrs st cs)); constructor;
      [apply IH|assumption].
Qed.

Lemma depth_child (t : jsstring) (attrs : list (jsstring * jsstring))
      (st : ComputedStyle) (cs : list Node) (c : Node) :
  In c cs -> depth c < depth (ElementNode t attrs st cs).
Proof.
  intros H. cbn [depth]. apply Nat.lt_succ_r.
  assert (F : Forall (fun k => k <= list_max (map depth cs))
                     (map depth cs)).
  { apply list_max_le. apply le_n. }
  rewrite Forall_forall in F. apply F. apply in_map. exact H.
Qed.

Lemma mathML_within_enough (room : nat) :
  forall (notionMode : bool) (n : Node),
    depth n <= room ->
    mathMLToLaTeXWithin room notionMode n = mathMLToLaTeX notionMode n.
Proof.
  induction room as [|room IH]; intros notionMode n H;
    destruct n as [d|d|t attrs st cs]; try reflexivity.
  - cbn [depth] in H. lia.
  - rewrite mathMLToLaTeX_element. cbn [mathMLToLaTeXWithin]. f_equal.
    apply map_ext_in. intros c Hc. apply IH.
    unfold children, childNodesOf in Hc. apply filter_In in Hc.
    pose proof (depth_child t attrs st cs c (proj1 Hc)). lia.
Qed.

Lemma orOverflow_processChildren
      (process' process : Ctx -> Node -> result jsstring)
      (t : jsstring) (isInsideMath : bool) :
  (forall ctx c, orOverflow (process' ctx c) (process ctx c)) ->
  forall cs prev acc,
    orOverflow (processChildren process' t isInsideMath prev cs acc)
               (processChildren process t isInsideMath prev cs acc).
Proof.
  intros H. induction cs as [|c cs IH]; intros prev acc.
  - left. reflexivity.
  - rewrite !processChildren_cons. apply orOverflow_bind; [apply H|].
    intros r. apply IH.
Qed.

Lemma formatElement_math (w : Window) (notionMode : bool) (ctx : Ctx)
      (node : Node) (tagName : jsstring)
      (attrs : list (jsstring * jsstring)) (isInsideMath : bool)
      (childrenMarkdown : jsstring) :
  JSString.eqb tagName (str "math") = true ->
  formatElement w notionMode ctx node tagName attrs isInsideMath
                childrenMarkdown
  = (markdown <- mathMLToLaTeX notionMode node ;;
     if attrIs attrs (str "display") (str "block") && negb notionMode
     then Ok (markdown ++ nl ++ nl)
     else Ok markdown).
Proof. intros H. apply eqb_eq in H. subst tagName. reflexivity. Qed.

Lemma processNode_within (room : nat) :
  forall (w : Window) (notionMode : bool) (ctx : Ctx) (n : Node),
    orOverflow (processNodeWithin room w notionMode ctx n)
               (processNode w notionMode ctx n).
Proof.
  induction room as [|room IH]; intros w notionMode ctx n;
    destruct n as [d|d|t attrs st cs]; try (left; reflexivity);
    cbn [processNodeWithin processNode];
    (destruct (shouldSkipElement (ElementNode t attrs st cs));
     [left; reflexivity|]).
  - destruct (orOverflow_processChildren (fun _ _ => Throw RangeError)
                (processNode w notionMode) t
                (mathAncestor ctx
                 || JSString.eqb (toLowerCase t) (str "math"))
                (fun c x => or_intror eq_refl) cs None []) as [E|E];
      rewrite E; clear E; [|right; reflexivity].
    destruct (processChildren _ _ _ _ _ _) as [md|e]; [|left; reflexivity].
    unfold formatElementWithin.
    destruct (JSString.eqb (toLowerCase t) (str "math")) eqn:M;
      [right; reflexivity|left; reflexivity].
  - destruct (orOverflow_processChildren
                (processNodeWithin room w notionMode)
                (processNode w notionMode) t
                (mathAncestor ctx
                 || JSString.eqb (toLowerCase t) (str "math"))
                (IH w notionMode) cs None []) as [E|E];
      rewrite E; clear E; [|right; reflexivity].
    destruct (processChildren _ _ _ _ _ _) as [md|e]; [|left; reflexivity].
    unfold formatElementWithin.
    destruct (JSString.eqb (toLowerCase t) (str "math")) eqn:M;
      [|left; reflexivity].
    rewrite (formatElement_math _ _ _ _ _ _ _ _ M).
    apply orOverflow_bind; [apply mathML_within|].
    intros a. left. reflexivity.
Qed.

Lemma processChildren_ext
      (process' process : Ctx -> Node -> result jsstring)
      (t : jsstring) (isInsideMath : bool) :
  forall cs,
    (forall ctx c, In c cs -> process' ctx c = process ctx c) ->
    forall prev acc,
      processChildren process' t isInsideMath prev cs acc
      = processChildren process t isInsideMath prev cs acc.
Proof.
  induction cs as [|c cs IH]; intros H prev acc; [reflexivity|].
  rewrite !processChildren_cons. rewrite (H _ c (or_introl eq_refl)).
  destruct (process _ c) as [r|e]; [|reflexivity]. cbn [bind].
  apply IH. intros ctx x Hx. apply H. right. exact Hx.
Qed.

Lemma processNode_within_enough (room : nat) :
  forall (w : Window) (notionMode : bool) (ctx : Ctx) (n : Node),
    depth n < room ->
    processNodeWithin room w notionMode ctx n
    = processNode w notionMode ctx n.
Proof.
  induction room as [|room IH]; intros w notionMode ctx n H; [lia|].
  destruct n as [d|d|t attrs st cs]; try reflexivity.
  cbn [processNodeWithin processNode].
  destruct (shouldSkipElement (ElementNode t attrs st cs)); [reflexivity|].
  rewrite (processChildren_ext (processNodeWithin room w notionMode)
             (processNode w notionMode)).
  - destruct (processChildren _ _ _ _ _ _) as [md|e]; [|reflexivity].
    unfold formatElementWithin.
    destruct (JSString.eqb (toLowerCase t) (str "math")) eqn:M;
      [|reflexivity].
    rewrite (formatElement_math _ _ _ _ _ _ _ _ M).
    rewrite mathML_within_enough; [reflexivity|lia].
  - intros x c Hc. apply IH.
    pose proof (depth_child t attrs st cs c Hc). lia.
Qed.

(** ** Tags that the switch never sees *)

Lemma ignoredTags_rejected (tagName : jsstring) :
  includesStr ignoredTags tagName = true ->
  includesStr skipTags tagName || includesStr skipInteractive tagName = true.
Proof.
  unfold includesStr at 1. intros H. apply existsb_exists in H.
  destruct H as [y [Hin Heq]]. apply eqb_eq in Heq. subst tagName.
  simpl in Hin.
  repeat (destruct Hin as [<-|Hin]; [vm_compute; reflexivity|]).
  destruct Hin.
Qed.

(** ** Text nodes *)

Lemma without_weaken (Q Q' : N -> bool) (s : jsstring) :
  (forall c, Q c = true -> Q' c = true) -> without Q' s -> without Q s.
Proof.
  intros H. unfold without. apply Forall_impl. intros c Hc.
  destruct (Q c) eqn:E; [|reflexivity]. rewrite (H c E) in Hc. discriminate.
Qed.

Lemma trimStart_Forall (P : N -> Prop) (s : jsstring) :
  Forall P s -> Forall P (trimStart s).
Proof.
  intros H. destruct (trimStart_suffix s) as [p E]. rewrite E in H.
  apply Forall_app in H. apply H.
Qed.

Lemma trimEnd_Forall (P : N -> Prop) (s : jsstring) :
  Forall P s -> Forall P (trimEnd s).
Proof.
  intros H. destruct (trimEnd_prefix s) as [p E]. rewrite E in H.
  apply Forall_app in H. apply H.
Qed.

Lemma trim_Forall (P : N -> Prop) (s : jsstring) :
  Forall P s -> Forall P (trim s).
Proof. intros H. apply trimEnd_Forall, trimStart_Forall, H. Qed.

Lemma trimStart_blank (s : jsstring) :
  Forall (fun c => is_space c = true) s -> trimStart s = [].
Proof.
  induction 1 as [|c s Hc _ IH]; simpl; [reflexivity|].
  rewrite Hc. exact IH.
Qed.

Lemma trim_blank (s : jsstring) :
  Forall (fun c => is_space c = true) s -> trim s = [].
Proof. intros H. unfold trim. rewrite (trimStart_blank s H). reflexivity. Qed.

Lemma trimStart_solid (s : jsstring) :
  without is_space s -> trimStart s = s.
Proof.
  intros H. destruct H as [|c s Hc _]; [reflexivity|].
  apply trimStart_keep. exact Hc.
Qed.

Lemma trim_solid (s : jsstring) : without is_space s -> trim s = s.
Proof.
  intros H. unfold trim, trimEnd. rewrite (trimStart_solid s H).
  rewrite trimStart_solid; [apply rev_involutive|].
  unfold without. apply Forall_rev. exact H.
Qed.

Lemma req_spaces : requires is_space re_spaces. Proof. req. Qed.
Lemma req_word_unders_word :
  requires (is_char c_underscore) re_word_unders_word.
Proof. req. Qed.
Lemma req_unders_text_unders :
  requires (is_char c_underscore) re_unders_text_unders.
Proof. req. Qed.
Lemma req_block_eq : requires (is_char c_dollar) re_block_eq.
Proof. req. Qed.
Lemma req_inline_eq : requires (is_char c_dollar) re_inline_eq.
Proof. req. Qed.

Lemma marker_star (s : jsstring) :
  without marker s -> without (is_char c_star) s.
Proof.
  apply without_weaken. intros c H. unfold marker. rewrite H. reflexivity.
Qed.

Lemma marker_underscore (s : jsstring) :
  without marker s -> without (is_char c_underscore) s.
Proof.
  apply without_weaken. intros c H. unfold marker. rewrite H.
  rewrite orb_true_r. reflexivity.
Qed.

Lemma marker_dollar (s : jsstring) :
  without marker s -> without (is_char c_dollar) s.
Proof.
  apply without_weaken. intros c H. unfold marker. rewrite H.
  apply orb_true_r.
Qed.

Lemma protectLaTeX_plain (text : jsstring) :
  without marker text -> protectLaTeX text = text.
Proof.
  intros H. unfold protectLaTeX.
  rewrite (replace_all_requires _ _ t_sup12 text req_word_stars_caps
             (marker_star text H)).
  rewrite (replace_all_requires _ _ t_sup12 text req_word_stars_word
             (marker_star text H)).
  rewrite (replace_all_requires _ _ t_sub12 text req_word_unders_word
             (marker_underscore text H)).
  rewrite (replace_all_requires _ _ t_sup1 text req_stars_caps_stars
             (marker_star text H)).
  apply (replace_all_requires _ _ t_sub1 text req_unders_text_unders
           (marker_underscore text H)).
Qed.

Lemma processText_plain (notionMode : bool) (data : jsstring) :
  without marker data ->
  processText notionMode data
  = trim (replace_all re_spaces [TLit (str " ")] data).
Proof.
  intros H. unfold processText.
  set (text := trim (replace_all re_spaces [TLit (str " ")] data)).
  assert (Ht : without marker text).
  { unfold text, without. apply trim_Forall.
    apply replace_all_literal_Forall; [|exact H].
    repeat constructor. }
  destruct text as [|c text'] eqn:E; [reflexivity|].
  cbn [truthy negb]. rewrite (protectLaTeX_plain _ Ht).
  destruct (containsLaTeX (c :: text') && notionMode); [|reflexivity].
  rewrite (replace_all_requires _ _ _ _ req_block_eq (marker_dollar _ Ht)).
  apply (replace_all_requires _ _ _ _ req_inline_eq (marker_dollar _ Ht)).
Qed.

Lemma processText_blank (notionMode : bool) (data : jsstring) :
  Forall (fun c => is_space c = true) data -> processText notionMode data = [].
Proof.
  intros H. unfold processText.
  rewrite trim_blank; [reflexivity|].
  apply replace_all_literal_Forall; [|exact H].
  repeat constructor.
Qed.

Lemma alnum_range (c : N) : alnum c = true -> (48 <= c <= 122)%N.
Proof.
  unfold alnum, is_digit, is_upper, is_lower, in_range.
  rewrite !orb_true_iff, !andb_true_iff, !N.leb_le. lia.
Qed.

Lemma alnum_not_marker (s : jsstring) :
  Forall (fun c => alnum c = true) s -> without marker s.
Proof.
  unfold without. apply Forall_impl. intros c H.
  destruct (marker c) eqn:M; [|reflexivity].
  unfold marker, is_char in M.
  apply orb_true_iff in M. destruct M as [M|M];
    [apply orb_true_iff in M; destruct M as [M|M]|];
    apply N.eqb_eq in M; subst c; discriminate.
Qed.

Lemma alnum_not_space (s : jsstring) :
  Forall (fun c => alnum c = true) s -> without is_space s.
Proof.
  unfold without. apply Forall_impl. intros c H.
  apply alnum_range in H. unfold is_space, in_range.
  repeat match goal with
         | |- context [(?a =? ?b)%N] =>
             destruct (N.eqb_spec a b); [exfalso; lia|]
         end.
  destruct (N.leb_spec c 13); [exfalso; lia|].
  destruct (N.leb_spec 8192 c); [exfalso; lia|].
  rewrite !andb_false_r. reflexivity.
Qed.

(** ** Emphasis around a single word *)

Lemma alnum_word (s : jsstring) :
  Forall (fun c => alnum c = true) s -> Forall (fun c => is_word c = true) s.
Proof.
  apply Forall_impl. intros c H. unfold is_word.
  unfold alnum in H. rewrite H. reflexivity.
Qed.

Lemma test_single_word (word : jsstring) :
  word <> [] -> Forall (fun c => is_word c = true) word ->
  test re_single_word word = true.
Proof.
  intros Hne H. destruct H as [|c s Hc Hs]; [contradiction|].
  unfold test. cbn [search]. unfold match_here, re_single_word.
  cbn [seqs plus rmatch at_bol]. rewrite Hc.
  rewrite (rep_cls_all (nat * caps)%type is_word _
             (length (c :: s) - length (@nil N), @nil (nat * jsstring))).
  - reflexivity.
  - intros prev. reflexivity.
  - exact Hs.
Qed.

Lemma formatElement_strong (w : Window) (notionMode : bool) (ctx : Ctx)
      (node : Node) (tagName : jsstring)
      (attrs : list (jsstring * jsstring)) (isInsideMath : bool)
      (childrenMarkdown : jsstring) :
  tagName = str "strong" \/ tagName = str "b" ->
  formatElement w notionMode ctx node tagName attrs isInsideMath
                childrenMarkdown
  = Ok (strongCase ctx isInsideMath childrenMarkdown).
Proof. intros [->| ->]; reflexivity. Qed.

Lemma formatElement_em (w : Window) (notionMode : bool) (ctx : Ctx)
      (node : Node) (tagName : jsstring)
      (attrs : list (jsstring * jsstring)) (isInsideMath : bool)
      (childrenMarkdown : jsstring) :
  tagName = str "em" \/ tagName = str "i" ->
  formatElement w notionMode ctx node tagName attrs isInsideMath
                childrenMarkdown
  = Ok (emCase isInsideMath childrenMarkdown).
Proof. intros [->| ->]; reflexivity. Qed.

Lemma processText_word (notionMode : bool) (word : jsstring) :
  Forall (fun c => alnum c = true) word -> processText notionMode word = word.
Proof.
  intros H. rewrite (processText_plain _ _ (alnum_not_marker word H)).
  rewrite (replace_all_requires _ _ _ _ req_spaces (alnum_not_space word H)).
  apply trim_solid. apply (alnum_not_space word H).
Qed.

(** An element whose only child is a text node of one word. *)
Lemma processNode_one_word (w : Window) (notionMode : bool) (ctx : Ctx)
      (t : jsstring) (attrs : list (jsstring * jsstring))
      (st : ComputedStyle) (word : jsstring) :
  shouldSkipElement (ElementNode t attrs st [TextNode word]) = false ->
  Forall (fun c => alnum c = true) word ->
  processNode w notionMode ctx (ElementNode t attrs st [TextNode word])
  = formatElement w notionMode ctx (ElementNode t attrs st [TextNode word])
      (toLowerCase t) attrs
      (mathAncestor ctx || JSString.eqb (toLowerCase t) (str "math")) word.
Proof.
  intros Hskip H. rewrite (processNode_element _ _ _ _ _ _ _ Hskip).
  rewrite processChildren_cons. cbn [processNode bind].
  rewrite processChildren_nil, appendChild_first.
  rewrite (processText_word notionMode word H). reflexivity.
Qed.

Lemma strongCase_word (ctx : Ctx) (isInsideMath : bool) (word : jsstring) :
  word <> [] -> Forall (fun c => alnum c = true) word ->
  strongCase ctx isInsideMath word
  = if test re_word_end (prevTextOf ctx)
    then str "^{" ++ word ++ str "}" else word.
Proof.
  intros Hne H. unfold strongCase.
  rewrite (trim_solid word (alnum_not_space word H)).
  rewrite (test_single_word word Hne (alnum_word word H)).
  rewrite orb_true_r. reflexivity.
Qed.

Lemma emCase_word (isInsideMath : bool) (word : jsstring) :
  word <> [] -> Forall (fun c => alnum c = true) word ->
  emCase isInsideMath word = word.
Proof.
  intros Hne H. unfold emCase.
  rewrite (trim_solid word (alnum_not_space word H)).
  rewrite (test_single_word word Hne (alnum_word word H)).
  rewrite orb_true_r. reflexivity.
Qed.

(** ** Text that is taken for LaTeX *)

Lemma rep_cls_some (A : Type) (p : N -> bool) (prev : option N)
      (s : jsstring) (k : option N -> jsstring -> option A) :
  (exists v, k prev s = Some v) -> exists v, rep_cls p prev s k = Some v.
Proof.
  intros [v H]. destruct s as [|c s]; simpl.
  - exists v. exact H.
  - destruct (p c); [|exists v; exact H].
    destruct (rep_cls p (Some c) s k) as [x|]; [exists x; reflexivity|].
    exists v. exact H.
Qed.

Lemma search_app (ml : bool) (r : regex) (s : jsstring) :
  (forall prev, exists m, match_here ml r prev s = Some m) ->
  forall pre prev, exists m, search ml r prev (pre ++ s) = Some m.
Proof.
  intros H. induction pre as [|c pre IH]; intros prev.
  - cbn [app]. destruct (H prev) as [m E]. exists m.
    destruct s; cbn [search]; rewrite E; reflexivity.
  - cbn [app search].
    destruct (match_here ml r prev (c :: pre ++ s)) as [m|];
      [exists m; reflexivity|apply IH].
Qed.

Lemma test_app (r : regex) (pre s : jsstring) :
  (forall prev, exists m, match_here false r prev s = Some m) ->
  test r (pre ++ s) = true.
Proof.
  intros H. unfold test.
  destruct (search_app false r s H pre None) as [m ->]. reflexivity.
Qed.

Lemma match_word_mark_word (mark a b : N) (post : jsstring) :
  is_word a = true -> is_word b = true ->
  forall prev, exists m,
    match_here false
      (seqs [plus is_word; Cls (is_char mark); Cls is_word])
      prev (a :: mark :: b :: post) = Some m.
Proof.
  intros Ha Hb prev. unfold match_here. cbn [seqs plus rmatch].
  rewrite Ha. apply rep_cls_some.
  unfold is_char. rewrite N.eqb_refl, Hb. eexists. reflexivity.
Qed.

Lemma containsLaTeX_identifier (pre post : jsstring) (a mark b : N) :
  is_word a = true -> is_word b = true ->
  mark = c_underscore \/ mark = c_caret ->
  containsLaTeX (pre ++ a :: mark :: b :: post) = true.
Proof.
  intros Ha Hb Hm. unfold containsLaTeX. apply existsb_exists.
  exists (seqs [plus is_word; Cls (is_char mark); Cls is_word]). split.
  - destruct Hm as [->| ->]; simpl; auto 8.
  - apply test_app. apply (match_word_mark_word mark a b post Ha Hb).
Qed.

(** ** Runs of line feeds *)

Lemma leadingNewlines_length (s : jsstring) :
  leadingNewlines s <= length s.
Proof.
  induction s as [|c s IH]; simpl; [lia|]. destruct (is_nl c); simpl; lia.
Qed.

Lemma leadingNewlines_skipn (s : jsstring) :
  leadingNewlines (skipn (leadingNewlines s) s) = 0.
Proof.
  induction s as [|c s IH]; simpl; [reflexivity|].
  destruct (is_nl c) eqn:E; simpl; [exact IH|]. rewrite E. reflexivity.
Qed.

Lemma rep_cls_run (A : Type) (g : jsstring -> A) :
  forall s prev,
    rep_cls is_nl prev s (fun _ s' => Some (g s'))
    = Some (g (skipn (leadingNewlines s) s)).
Proof.
  induction s as [|c s IH]; intros prev; simpl; [reflexivity|].
  destruct (is_nl c); [|reflexivity]. rewrite IH. reflexivity.
Qed.

Lemma match_nl3 (prev : option N) (s : jsstring) :
  match_here false re_nl3 prev s
  = if 3 <=? leadingNewlines s then Some (leadingNewlines s, []) else None.
Proof.
  unfold match_here, re_nl3. cbn [at_least rmatch].
  destruct s as [|a s]; [reflexivity|]. cbn [leadingNewlines].
  destruct (is_nl a); [|reflexivity].
  destruct s as [|b s]; [reflexivity|]. cbn [leadingNewlines].
  destruct (is_nl b); [|reflexivity].
  destruct s as [|c s]; [reflexivity|]. cbn [leadingNewlines].
  destruct (is_nl c); [|reflexivity].
  rewrite (rep_cls_run _ (fun s' => (length (a :: b :: c :: s) - length s',
                                     @nil (nat * jsstring)))).
  cbn [Nat.leb]. f_equal. f_equal.
  rewrite length_skipn. pose proof (leadingNewlines_length s).
  simpl length. lia.
Qed.

Lemma replace_go_skip (ml : bool) (r : regex)
      (f : jsstring -> caps -> jsstring) :
  forall n s prev,
    n <= length s ->
    exists prev',
      replace_go ml r f prev s n = replace_go ml r f prev' (skipn n s) 0.
Proof.
  induction n as [|n IH]; intros s prev H.
  - exists prev. reflexivity.
  - destruct s as [|c s]; [simpl in H; lia|].
    cbn [replace_go skipn]. apply IH. simpl in H. lia.
Qed.

Lemma startsWith_nl (a : N) (s p : jsstring) :
  startsWith (a :: s) (10%N :: p) = is_nl a && startsWith s p.
Proof. cbn [startsWith]. rewrite N.eqb_sym. reflexivity. Qed.

Lemma startsWith_blankLines (s : jsstring) :
  startsWith s blankLines = (3 <=? leadingNewlines s).
Proof.
  unfold blankLines. change (nl ++ nl ++ nl) with [10%N; 10%N; 10%N].
  destruct s as [|a s]; [reflexivity|].
  rewrite startsWith_nl. cbn [leadingNewlines].
  destruct (is_nl a); [|reflexivity]. cbn [andb].
  destruct s as [|b s]; [reflexivity|].
  rewrite startsWith_nl. cbn [leadingNewlines].
  destruct (is_nl b); [|reflexivity]. cbn [andb].
  destruct s as [|c s]; [reflexivity|].
  rewrite startsWith_nl. cbn [leadingNewlines].
  destruct (is_nl c); [|reflexivity]. cbn [andb].
  destruct s; reflexivity.
Qed.

Lemma includes_blankLines_cons (c : N) (s : jsstring) :
  leadingNewlines (c :: s) <= 2 -> includes s blankLines = false ->
  includes (c :: s) blankLines = false.
Proof.
  intros H1 H2. cbn [includes]. rewrite H2, startsWith_blankLines.
  rewrite orb_false_r. apply Nat.leb_gt. lia.
Qed.

Lemma replace_go_here (ml : bool) (r : regex)
      (f : jsstring -> caps -> jsstring) (prev : option N) (s : jsstring) :
  replace_go ml r f prev s 0
  = match match_here ml r prev s with
    | Some (len, cs) =>
        f (firstn len s) cs ++
        match s with
        | c :: s' =>
            match len with
            | O => c :: replace_go ml r f (Some c) s' 0
            | S n => replace_go ml r f (Some c) s' n
            end
        | [] => []
        end
    | None =>
        match s with
        | c :: s' => c :: replace_go ml r f (Some c) s' 0
        | [] => []
        end
    end.
Proof. destruct s; reflexivity. Qed.

Lemma replace_nl3_runs (n : nat) :
  forall s prev,
    length s <= n ->
    includes (replace_go false re_nl3
                (fun _ cs => expand [TLit (nl ++ nl)] cs) prev s 0)
             blankLines = false
    /\ leadingNewlines (replace_go false re_nl3
                          (fun _ cs => expand [TLit (nl ++ nl)] cs) prev s 0)
       <= Nat.min 2 (leadingNewlines s).
Proof.
  induction n as [|n IH]; intros s prev Hn.
  - destruct s; [|simpl in Hn; lia]. split; reflexivity.
  - rewrite replace_go_here, match_nl3.
    destruct (3 <=? leadingNewlines s) eqn:E.
    + apply Nat.leb_le in E. destruct s as [|c s]; [simpl in E; lia|].
      destruct (leadingNewlines (c :: s)) as [|k] eqn:K; [lia|].
      destruct (replace_go_skip false re_nl3
                  (fun _ cs => expand [TLit (nl ++ nl)] cs) k s (Some c))
        as [prev' ->].
      { pose proof (leadingNewlines_length (c :: s)). simpl in *. lia. }
      assert (L : leadingNewlines (skipn k s) = 0).
      { pose proof (leadingNewlines_skipn (c :: s)) as L.
        rewrite K in L. exact L. }
      destruct (IH (skipn k s) prev') as [I1 I2].
      { rewrite length_skipn. simpl in Hn. lia. }
      rewrite L in I2.
      set (out := replace_go false re_nl3 _ prev' (skipn k s) 0) in *.
      change (expand [TLit (nl ++ nl)] []) with [10%N; 10%N].
      assert (O : leadingNewlines out = 0) by lia.
      cbn [app]. split.
      * apply includes_blankLines_cons.
        { cbn [leadingNewlines is_nl N.eqb Pos.eqb]. rewrite O. lia. }
        apply includes_blankLines_cons; [|exact I1].
        cbn [leadingNewlines is_nl N.eqb Pos.eqb]. rewrite O. lia.
      * cbn [leadingNewlines is_nl N.eqb Pos.eqb]. rewrite O. lia.
    + apply Nat.leb_gt in E. destruct s as [|c s]; [split; reflexivity|].
      destruct (IH s (Some c)) as [I1 I2]; [simpl in Hn; lia|].
      set (out := replace_go false re_nl3 _ (Some c) s 0) in *.
      assert (B : leadingNewlines (c :: out)
                  <= Nat.min 2 (leadingNewlines (c :: s))).
      { cbn [leadingNewlines] in *. destruct (is_nl c); lia. }
      split; [|exact B].
      apply includes_blankLines_cons; [lia|exact I1].
Qed.

Lemma replace_nl3_clean (s : jsstring) :
  includes (replace_all re_nl3 [TLit (nl ++ nl)] s) blankLines = false.
Proof.
  unfold replace_all, replace_fn.
  apply (replace_nl3_runs (length s) s None (le_n _)).
Qed.

Lemma cleanup_notion_runs (raw : jsstring) :
  includes (cleanup raw true) blankLines = false.
Proof.
  unfold cleanup, notionPasses, applyPasses at 1. cbn [fold_left].
  apply replace_nl3_clean.
Qed.

(** ** Lists *)

Lemma formatElement_li (w : Window) (notionMode : bool) (ctx : Ctx)
      (node : Node) (attrs : list (jsstring * jsstring))
      (isInsideMath : bool) (childrenMarkdown : jsstring) :
  formatElement w notionMode ctx node (str "li") attrs isInsideMath
                childrenMarkdown
  = if truthy (trim childrenMarkdown) then
      if parentIs ctx (str "ol")
      then Ok (str "1. " ++ trim childrenMarkdown ++ nl)
      else Ok (str "- " ++ trim childrenMarkdown ++ nl)
    else Ok [].
Proof. reflexivity. Qed.

Lemma formatElement_list (w : Window) (notionMode : bool) (ctx : Ctx)
      (node : Node) (tagName : jsstring)
      (attrs : list (jsstring * jsstring)) (isInsideMath : bool)
      (childrenMarkdown : jsstring) :
  tagName = str "ul" \/ tagName = str "ol" ->
  formatElement w notionMode ctx node tagName attrs isInsideMath
                childrenMarkdown
  = Ok (childrenMarkdown ++ nl).
Proof. intros [->| ->]; reflexivity. Qed.

Lemma appendChild_item (acc : jsstring) (ct : jsstring)
      (attrs : list (jsstring * jsstring)) (st : ComputedStyle)
      (cs : list Node) (r : jsstring) :
  toLowerCase ct = str "li" ->
  appendChild acc (ElementNode ct attrs st cs) r = acc ++ r.
Proof.
  intros Hct. unfold appendChild. rewrite Hct.
  destruct r as [|x r]; [cbn [truthy]; rewrite app_nil_r; reflexivity|].
  cbn [truthy].
  change (includesStr inlineTags (str "li")) with false.
  rewrite andb_false_r.
  destruct (_ && _); reflexivity.
Qed.

(** ** The further properties of the transducer *)

(** X4: the [table] rule never throws. The separator line is built with
    [repeat] from the number of pipes of the first row less one, and
    [repeat] throws a [RangeError] on a negative count; the first row
    has been closed with a pipe before it is counted, so the count is
    never negative, whatever the children have produced. *)
Theorem table_never_throws :
  forall childrenMarkdown : jsstring,
    exists out, table childrenMarkdown = Ok out.
Proof. exact table_returns. Qed.

(** X5: on an element in whose tree each [msup], [msub] and [mfrac]
    has at least two element children and each [msqrt] at least one,
    [mathMLToLaTeX] fails in one way only, by exhausting the call
    stack. Whatever room the stack has, the conversion returns or
    throws the [RangeError] of the stack, never a [TypeError]; it
    returns when the stack has room for the levels of the tree, and
    what it returns does not depend on the room. *)
Theorem mathMLToLaTeX_well_formed :
  forall (notionMode : bool) (n : Node),
    isElement n = true -> arityOK n = true ->
    exists s,
      forall room,
        (mathMLToLaTeXWithin room notionMode n = Ok s
         \/ mathMLToLaTeXWithin room notionMode n = Throw RangeError)
        /\ (depth n <= room ->
            mathMLToLaTeXWithin room notionMode n = Ok s).
Proof.
  intros notionMode n He Ha.
  destruct (mathMLToLaTeX_returns notionMode n He Ha) as [s E].
  exists s. intros room. split.
  - destruct (mathML_within room notionMode n) as [H|H];
      [left; rewrite H; exact E|right; exact H].
  - intros H. rewrite (mathML_within_enough room notionMode n H). exact E.
Qed.

(** The conversion of [x x^2] nests two calls: it returns when the
    stack takes two nested calls and not when it takes one. *)
Lemma mathMLToLaTeX_well_formed_witness :
  isElement (Sample.xTimesXSquared [] Sample.visible) = true
  /\ arityOK (Sample.xTimesXSquared [] Sample.visible) = true
  /\ mathMLToLaTeXWithin 2 false (Sample.xTimesXSquared [] Sample.visible)
     = Ok (str "$x x^{2}$")
  /\ mathMLToLaTeXWithin 1 false (Sample.xTimesXSquared [] Sample.visible)
     = Throw RangeError
  /\ exists s,
       forall room,
         (mathMLToLaTeXWithin room false
            (Sample.xTimesXSquared [] Sample.visible) = Ok s
          \/ mathMLToLaTeXWithin room false
               (Sample.xTimesXSquared [] Sample.visible) = Throw RangeError)
         /\ (depth (Sample.xTimesXSquared [] Sample.visible) <= room ->
             mathMLToLaTeXWithin room false
               (Sample.xTimesXSquared [] Sample.visible) = Ok s).
Proof.
  repeat apply conj; try reflexivity.
  apply (mathMLToLaTeX_well_formed false
           (Sample.xTimesXSquared [] Sample.visible));
    reflexivity.
Defined.

(** X6: [processNode] throws only through the [URL] constructor,
    through [mathMLToLaTeX] or by exhausting the call stack. When the
    references of the tree resolve and its [math] elements are well
    formed, then in both modes, in every context and whatever room the
    stack has, it returns or throws the [RangeError] of the stack; it
    returns when the stack has room for the levels of the tree. *)
Theorem processNode_never_throws :
  forall (w : Window) (notionMode : bool) (n : Node),
    refsResolve w n = true -> mathReady n = true ->
    forall ctx,
    exists out,
      forall room,
        (processNodeWithin room w notionMode ctx n = Ok out
         \/ processNodeWithin room w notionMode ctx n = Throw RangeError)
        /\ (depth n < room ->
            processNodeWithin room w notionMode ctx n = Ok out).
Proof.
  intros w notionMode n Hw Hm ctx.
  destruct (processNode_returns w notionMode n Hw Hm ctx) as [out E].
  exists out. intros room. split.
  - destruct (processNode_within room w notionMode ctx n) as [H|H];
      [left; rewrite H; exact E|right; exact H].
  - intros H.
    rewrite (processNode_within_enough room w notionMode ctx n H). exact E.
Qed.

(** The window of the witness refuses the references that hold a
    bracket; the article has a relative link and an image. *)
Lemma processNode_never_throws_witness :
  refsResolve Cases.strictWin Cases.linked = true
  /\ mathReady Cases.linked = true
  /\ resolveURL Cases.strictWin (str "//[") (location_href Cases.strictWin)
     = Throw TypeError
  /\ processNodeWithin 2 Cases.strictWin false Sample.ctx0 Cases.linked
     = Throw RangeError
  /\ forall ctx,
     exists out,
       forall room,
         (processNodeWithin room Cases.strictWin false ctx Cases.linked
          = Ok out
          \/ processNodeWithin room Cases.strictWin false ctx Cases.linked
             = Throw RangeError)
         /\ (depth Cases.linked < room ->
             processNodeWithin room Cases.strictWin false ctx Cases.linked
             = Ok out).
Proof.
  assert (H1 : refsResolve Cases.strictWin Cases.linked = true)
    by (vm_compute; reflexivity).
  assert (H2 : mathReady Cases.linked = true) by (vm_compute; reflexivity).
  split; [exact H1|]. split; [exact H2|].
  split; [vm_compute; reflexivity|]. split; [vm_compute; reflexivity|].
  exact (processNode_never_throws Cases.strictWin false Cases.linked H1 H2).
Defined.

(** X7: on a document that has a body, whose references resolve and
    whose [math] elements are well formed, the extraction never ends in
    a [TypeError]: it returns a string, or it exhausts the call stack. *)
Theorem extraction_never_type_error :
  forall (d : Page) (notionMode : bool),
    refsResolve (window d) (documentElement d) = true ->
    mathReady (documentElement d) = true ->
    body d <> None ->
    forall stack,
      (exists out, extractPageContent stack d notionMode = Ok out)
      \/ extractPageContent stack d notionMode = Throw RangeError.
Proof.
  intros d notionMode Hw Hm Hb stack.
  destruct stack as [|stack]; [right; reflexivity|].
  destruct (extractOnce_no_exception d notionMode Hw Hm Hb) as [H|[out H]].
  - right. apply (extract_overflows d notionMode H).
  - left. exists out. apply (extract_returns d notionMode out H).
Qed.

Lemma extraction_never_type_error_witness :
  refsResolve (window Cases.linkedPage) (documentElement Cases.linkedPage)
  = true
  /\ mathReady (documentElement Cases.linkedPage) = true
  /\ body Cases.linkedPage <> None
  /\ resolveURL (window Cases.linkedPage) (str "//[")
                (location_href (window Cases.linkedPage))
     = Throw TypeError
  /\ forall stack,
       (exists out, extractPageContent stack Cases.linkedPage false = Ok out)
       \/ extractPageContent stack Cases.linkedPage false
          = Throw RangeError.
Proof.
  assert (H1 : refsResolve (window Cases.linkedPage)
                           (documentElement Cases.linkedPage) = true)
    by (vm_compute; reflexivity).
  assert (H2 : mathReady (documentElement Cases.linkedPage) = true)
    by (vm_compute; reflexivity).
  assert (H3 : body Cases.linkedPage <> None) by discriminate.
  split; [exact H1|]. split; [exact H2|]. split; [exact H3|].
  split; [vm_compute; reflexivity|].
  exact (extraction_never_type_error Cases.linkedPage false H1 H2 H3).
Defined.

(** X8: the case of the switch of [processNode] that lists the tags to
    ignore is never reached: each of them is a tag that
    [shouldSkipElement] rejects, and a rejected element has returned
    the empty string before the switch. *)
Theorem ignored_tags_unreachable :
  forall (t : jsstring) (attrs : list (jsstring * jsstring))
         (st : ComputedStyle) (cs : list Node),
    shouldSkipElement (ElementNode t attrs st cs) = false ->
    includesStr ignoredTags (toLowerCase t) = false.
Proof.
  intros t attrs st cs H.
  destruct (includesStr ignoredTags (toLowerCase t)) eqn:E;
    [|reflexivity].
  apply ignoredTags_rejected in E.
  rewrite shouldSkipElement_element in H.
  rewrite E in H. discriminate.
Qed.

Lemma ignored_tags_unreachable_witness :
  shouldSkipElement Sample.boxDiv = false
  /\ includesStr ignoredTags (toLowerCase (str "DIV")) = false.
Proof.
  assert (H : shouldSkipElement Sample.boxDiv = false)
    by (vm_compute; reflexivity).
  split; [exact H|].
  exact (ignored_tags_unreachable (str "DIV")
           [(str "class", str "Box")] Sample.visible
           [Sample.txt "Repository files"] H).
Defined.

(** X9: the text measure [getCleanTextContent] does not see a child that
    [shouldSkipElement] rejects: with or without that child, whatever it
    holds, the text of the element is the same. *)
Theorem getCleanTextContent_ignores_rejected :
  forall (t : jsstring) (attrs : list (jsstring * jsstring))
         (st : ComputedStyle) (pre post : list Node) (c : Node),
    shouldSkipElement c = true ->
    getCleanTextContent (ElementNode t attrs st (pre ++ c :: post))
    = getCleanTextContent (ElementNode t attrs st (pre ++ post)).
Proof.
  intros t attrs st pre post c H. cbn [getCleanTextContent].
  generalize (@nil N).
  induction pre as [|x pre IH]; intros text.
  - cbn [app]. destruct c as [d|d|ct ca cst ccs]; try discriminate.
    rewrite H. reflexivity.
  - cbn [app]. destruct x as [d|d|xt xa xst xcs].
    + apply IH.
    + apply IH.
    + destruct (shouldSkipElement (ElementNode xt xa xst xcs)); apply IH.
Qed.

Lemma getCleanTextContent_ignores_rejected_witness :
  shouldSkipElement Sample.sidebarDiv = true
  /\ getCleanTextContent
       (ElementNode (str "DIV") [] Sample.visible
          ([Sample.txt "before "] ++ Sample.sidebarDiv
                                  :: [Sample.txt "after"]))
     = getCleanTextContent
         (ElementNode (str "DIV") [] Sample.visible
            ([Sample.txt "before "] ++ [Sample.txt "after"])).
Proof.
  assert (H : shouldSkipElement Sample.sidebarDiv = true)
    by (vm_compute; reflexivity).
  split; [exact H|].
  exact (getCleanTextContent_ignores_rejected (str "DIV") [] Sample.visible
           [Sample.txt "before "] [Sample.txt "after"] Sample.sidebarDiv H).
Defined.

(** X10: a text node without asterisk, underscore and dollar sign is
    only normalised: its runs of white space become single spaces and it
    is trimmed. The repair of mathematical notation and the removal of
    delimiters leave it as it is, in both modes. *)
Theorem processText_plain_text :
  forall (notionMode : bool) (data : jsstring),
    without marker data ->
    processText notionMode data
    = trim (replace_all re_spaces [TLit (str " ")] data).
Proof. exact processText_plain. Qed.

Lemma processText_plain_text_witness :
  without marker (str " two  words ")
  /\ processText true (str " two  words ")
     = trim (replace_all re_spaces [TLit (str " ")] (str " two  words ")).
Proof.
  assert (H : without marker (str " two  words ")).
  { repeat constructor. }
  split; [exact H|].
  exact (processText_plain_text true (str " two  words ") H).
Defined.

(** X11: a text node of white space alone renders to the empty string,
    so the indentation between two tags adds nothing to the output. *)
Theorem processText_white_space :
  forall (notionMode : bool) (data : jsstring),
    Forall (fun c => is_space c = true) data ->
    processText notionMode data = [].
Proof. exact processText_blank. Qed.

Lemma processText_white_space_witness :
  Forall (fun c => is_space c = true) (nl ++ str "    ")
  /\ processText false (nl ++ str "    ") = [].
Proof.
  assert (H : Forall (fun c => is_space c = true) (nl ++ str "    ")).
  { repeat constructor. }
  split; [exact H|].
  exact (processText_white_space false (nl ++ str "    ") H).
Defined.

(** X12: a [strong] or [b] element around one word of letters and digits
    never gets the bold markers: a single word counts as mathematical
    notation, and the element renders as the bare word, or as the
    exponent [^{word}] when the text of its previous sibling ends in a
    word character. *)
Theorem strong_word_loses_markup :
  forall (w : Window) (notionMode : bool) (ctx : Ctx) (t : jsstring)
         (attrs : list (jsstring * jsstring)) (st : ComputedStyle)
         (word : jsstring),
    toLowerCase t = str "strong" \/ toLowerCase t = str "b" ->
    shouldSkipElement (ElementNode t attrs st [TextNode word]) = false ->
    word <> [] -> Forall (fun c => alnum c = true) word ->
    processNode w notionMode ctx (ElementNode t attrs st [TextNode word])
    = Ok (if test re_word_end (prevTextOf ctx)
          then str "^{" ++ word ++ str "}" else word).
Proof.
  intros w notionMode ctx t attrs st word Ht Hskip Hne H.
  rewrite (processNode_one_word _ _ _ _ _ _ _ Hskip H).
  rewrite (formatElement_strong _ _ _ _ _ _ _ _ Ht).
  rewrite (strongCase_word _ _ _ Hne H). reflexivity.
Qed.

Lemma strong_word_loses_markup_witness :
  (toLowerCase (str "STRONG") = str "strong"
   \/ toLowerCase (str "STRONG") = str "b")
  /\ shouldSkipElement Cases.strongNote = false
  /\ str "Note" <> []
  /\ Forall (fun c => alnum c = true) (str "Note")
  /\ processNode Sample.win false Sample.ctx0 Cases.strongNote
     = Ok (if test re_word_end (prevTextOf Sample.ctx0)
           then str "^{" ++ str "Note" ++ str "}" else str "Note").
Proof.
  assert (H1 : toLowerCase (str "STRONG") = str "strong"
               \/ toLowerCase (str "STRONG") = str "b")
    by (left; reflexivity).
  assert (H2 : shouldSkipElement Cases.strongNote = false)
    by (vm_compute; reflexivity).
  assert (H3 : str "Note" <> []) by discriminate.
  assert (H4 : Forall (fun c => alnum c = true) (str "Note")).
  { repeat constructor. }
  repeat apply conj; try assumption.
  exact (strong_word_loses_markup Sample.win false Sample.ctx0
           (str "STRONG") [] Sample.visible (str "Note") H1 H2 H3 H4).
Defined.

(** X13: an [em] or [i] element around one word of letters and digits
    renders as the bare word, without the emphasis markers. *)
Theorem em_word_loses_markup :
  forall (w : Window) (notionMode : bool) (ctx : Ctx) (t : jsstring)
         (attrs : list (jsstring * jsstring)) (st : ComputedStyle)
         (word : jsstring),
    toLowerCase t = str "em" \/ toLowerCase t = str "i" ->
    shouldSkipElement (ElementNode t attrs st [TextNode word]) = false ->
    word <> [] -> Forall (fun c => alnum c = true) word ->
    processNode w notionMode ctx (ElementNode t attrs st [TextNode word])
    = Ok word.
Proof.
  intros w notionMode ctx t attrs st word Ht Hskip Hne H.
  rewrite (processNode_one_word _ _ _ _ _ _ _ Hskip H).
  rewrite (formatElement_em _ _ _ _ _ _ _ _ Ht).
  rewrite (emCase_word _ _ Hne H). reflexivity.
Qed.

Lemma em_word_loses_markup_witness :
  (toLowerCase (str "EM") = str "em" \/ toLowerCase (str "EM") = str "i")
  /\ shouldSkipElement Cases.emNote = false
  /\ str "Note" <> []
  /\ Forall (fun c => alnum c = true) (str "Note")
  /\ processNode Sample.win false Sample.ctx0 Cases.emNote
     = Ok (str "Note").
Proof.
  assert (H1 : toLowerCase (str "EM") = str "em"
               \/ toLowerCase (str "EM") = str "i")
    by (left; reflexivity).
  assert (H2 : shouldSkipElement Cases.emNote = false)
    by (vm_compute; reflexivity).
  assert (H3 : str "Note" <> []) by discriminate.
  assert (H4 : Forall (fun c => alnum c = true) (str "Note")).
  { repeat constructor. }
  repeat apply conj; try assumption.
  exact (em_word_loses_markup Sample.win false Sample.ctx0
           (str "EM") [] Sample.visible (str "Note") H1 H2 H3 H4).
Defined.

(** X14: [containsLaTeX] takes every text for LaTeX in which two word
    characters stand around an underscore or a caret, an identifier such
    as [my_var] among them; emphasis around such a text is then dropped:
    [strong] gives the trimmed text or an exponent, [em] the trimmed
    text. *)
Theorem identifier_taken_for_latex :
  forall (pre post : jsstring) (a mark b : N),
    is_word a = true -> is_word b = true ->
    mark = c_underscore \/ mark = c_caret ->
    containsLaTeX (pre ++ a :: mark :: b :: post) = true
    /\ (forall ctx isInsideMath,
          strongCase ctx isInsideMath (pre ++ a :: mark :: b :: post)
          = if test re_word_end (prevTextOf ctx)
            then str "^{" ++ trim (pre ++ a :: mark :: b :: post) ++ str "}"
            else trim (pre ++ a :: mark :: b :: post))
    /\ (forall isInsideMath,
          emCase isInsideMath (pre ++ a :: mark :: b :: post)
          = trim (pre ++ a :: mark :: b :: post)).
Proof.
  intros pre post a mark b Ha Hb Hm.
  pose proof (containsLaTeX_identifier pre post a mark b Ha Hb Hm) as H.
  repeat apply conj.
  - exact H.
  - intros ctx im. unfold strongCase. rewrite H.
    rewrite orb_true_r. reflexivity.
  - intros im. unfold emCase. rewrite H. rewrite orb_true_r. reflexivity.
Qed.

Lemma identifier_taken_for_latex_witness :
  is_word 121 = true /\ is_word 118 = true
  /\ (c_underscore = c_underscore \/ c_underscore = c_caret)
  /\ containsLaTeX (str "see my_var") = true
  /\ (forall ctx isInsideMath,
        strongCase ctx isInsideMath (str "see my_var")
        = if test re_word_end (prevTextOf ctx)
          then str "^{" ++ trim (str "see my_var") ++ str "}"
          else trim (str "see my_var"))
  /\ (forall isInsideMath,
        emCase isInsideMath (str "see my_var") = trim (str "see my_var")).
Proof.
  assert (H1 : is_word 121 = true) by reflexivity.
  assert (H2 : is_word 118 = true) by reflexivity.
  assert (H3 : c_underscore = c_underscore \/ c_underscore = c_caret)
    by (left; reflexivity).
  split; [exact H1|]. split; [exact H2|]. split; [exact H3|].
  exact (identifier_taken_for_latex (str "see m") (str "ar")
           121%N c_underscore 118%N H1 H2 H3).
Defined.

(** X15: in Notion mode the cleanup ends with the pass that reduces runs
    of line feeds, so no string that the extraction returns in that mode
    holds three line feeds in a row, and neither does the cleanup of any
    string. The other mode ends with the trimming of the lines, which
    can leave such a run. *)
Theorem notion_output_has_no_blank_lines :
  forall (stack : nat) (d : Page) (out : jsstring),
    extractPageContent stack d true = Ok out ->
    includes out blankLines = false
    /\ (forall raw, includes (cleanup raw true) blankLines = false)
    /\ includes (cleanup [97; 10; 160; 10; 160; 10; 98]%N false) blankLines
       = true.
Proof.
  intros stack d out H. repeat apply conj.
  - destruct (extract_returns_cleanup d true stack out H) as [raw ->].
    apply cleanup_notion_runs.
  - apply cleanup_notion_runs.
  - vm_compute. reflexivity.
Qed.

Lemma notion_output_has_no_blank_lines_witness :
  extractPageContent 1 Sample.linearPage true
  = Ok (str "Let a X+b be linear.")
  /\ includes (str "Let a X+b be linear.") blankLines = false
  /\ (forall raw, includes (cleanup raw true) blankLines = false)
  /\ includes (cleanup [97; 10; 160; 10; 160; 10; 98]%N false) blankLines
     = true.
Proof.
  assert (H : extractPageContent 1 Sample.linearPage true
              = Ok (str "Let a X+b be linear."))
    by (vm_compute; reflexivity).
  split; [exact H|].
  exact (notion_output_has_no_blank_lines 1 Sample.linearPage
           (str "Let a X+b be linear.") H).
Defined.

(** ** Text between the elements of an expression *)

Lemma mathMLCase_node (notionMode : bool) (tagName : jsstring)
      (node node' : Node) (attrs : list (jsstring * jsstring))
      (rs : list (result jsstring)) :
  isToken tagName = false ->
  mathMLCase notionMode tagName node attrs rs
  = mathMLCase notionMode tagName node' attrs rs.
Proof.
  unfold isToken. intros H.
  apply orb_false_iff in H. destruct H as [H Hmo].
  apply orb_false_iff in H. destruct H as [Hmi Hmn].
  unfold mathMLCase. rewrite Hmi, Hmn, Hmo. reflexivity.
Qed.

Lemma elementsOnly_element (t : jsstring)
      (attrs : list (jsstring * jsstring)) (st : ComputedStyle)
      (cs : list Node) :
  elementsOnly (ElementNode t attrs st cs)
  = if isToken (toLowerCase t) then ElementNode t attrs st cs
    else ElementNode t attrs st (map elementsOnly (filter isElement cs)).
Proof.
  cbn [elementsOnly]. destruct (isToken (toLowerCase t)); [reflexivity|].
  f_equal. induction cs as [|c cs IH]; [reflexivity|].
  destruct c; cbn [filter isElement map]; rewrite <- IH; reflexivity.
Qed.

Lemma elementsOnly_isElement (n : Node) :
  isElement (elementsOnly n) = isElement n.
Proof.
  destruct n as [d|d|t attrs st cs]; try reflexivity.
  rewrite elementsOnly_element.
  destruct (isToken (toLowerCase t)); reflexivity.
Qed.

Lemma filter_elementsOnly (cs : list Node) :
  filter isElement (map elementsOnly (filter isElement cs))
  = map elementsOnly (filter isElement cs).
Proof.
  induction cs as [|c cs IH]; [reflexivity|]. cbn [filter].
  destruct (isElement c) eqn:E; [|exact IH].
  cbn [map filter]. rewrite elementsOnly_isElement, E, IH. reflexivity.
Qed.

(** X18: outside the token elements [mi], [mn] and [mo], [mathMLToLaTeX]
    reads the element children alone: the text and the comments between
    the elements of an expression, at any depth, change nothing, neither
    the result nor an exception. The text of any other element, an
    [mtext] say, is lost. *)
Theorem mathMLToLaTeX_reads_elements_only :
  forall (notionMode : bool) (n : Node),
    mathMLToLaTeX notionMode (elementsOnly n) = mathMLToLaTeX notionMode n.
Proof.
  intros notionMode n.
  induction n as [d|d|t attrs st cs IH] using Node_induction;
    try reflexivity.
  rewrite elementsOnly_element. destruct (isToken (toLowerCase t)) eqn:T;
    [reflexivity|].
  rewrite !mathMLToLaTeX_element.
  rewrite (mathMLCase_node notionMode (toLowerCase t) _
             (ElementNode t attrs st cs) attrs _ T).
  f_equal. unfold children, childNodesOf.
  rewrite filter_elementsOnly, map_map.
  apply map_ext_in. intros c Hc. apply filter_In in Hc.
  rewrite Forall_forall in IH. apply IH. apply Hc.
Qed.

(** ** Emphasis around a phrase *)

Lemma spaced_trimEnd (s : jsstring) :
  spaced s -> forall c, is_space c = false -> trimEnd (c :: s) = c :: s.
Proof.
  induction 1 as [|c' s Hc' Hs IH|c' s Hc' Hs IH]; intros c Hc.
  - apply trimEnd_single. exact Hc.
  - rewrite trimEnd_cons; rewrite (IH c' Hc'); [reflexivity|discriminate].
  - assert (E : trimEnd (32%N :: c' :: s) = 32%N :: c' :: s).
    { rewrite trimEnd_cons; rewrite (IH c' Hc'); [reflexivity|discriminate]. }
    rewrite trimEnd_cons; rewrite E; [reflexivity|discriminate].
Qed.

Lemma spaced_trim (s : jsstring) :
  spaced s -> startsWith s (str " ") = false -> trim s = s.
Proof.
  intros H Hs. unfold trim. inversion H as [|c u Hc Hu|c u Hc Hu]; subst.
  - reflexivity.
  - rewrite (trimStart_keep c u Hc). apply spaced_trimEnd; assumption.
  - discriminate.
Qed.

Lemma match_spaces_none (prev : option N) (c : N) (s : jsstring) :
  is_space c = false -> match_here false re_spaces prev (c :: s) = None.
Proof.
  intros H. unfold match_here, re_spaces, plus. cbn [rmatch].
  rewrite H. reflexivity.
Qed.

Lemma match_spaces_one (prev : option N) (c : N) (s : jsstring) :
  is_space c = false ->
  match_here false re_spaces prev (32%N :: c :: s) = Some (1, []).
Proof.
  intros H. unfold match_here, re_spaces, plus. cbn [rmatch rep_cls].
  change (is_space 32) with true. cbv iota. rewrite H.
  f_equal. f_equal. simpl length. lia.
Qed.

Lemma replace_spaces_spaced (f : jsstring -> caps -> jsstring) :
  (forall cs, f (str " ") cs = str " ") ->
  forall s, spaced s ->
            forall prev, replace_go false re_spaces f prev s 0 = s.
Proof.
  intros Hf. induction 1 as [|c s Hc Hs IH|c s Hc Hs IH]; intros prev.
  - reflexivity.
  - rewrite replace_go_here, (match_spaces_none prev c s Hc), IH.
    reflexivity.
  - rewrite replace_go_here, (match_spaces_one prev c s Hc).
    cbn [firstn]. change [32%N] with (str " "). rewrite Hf.
    rewrite replace_go_here, (match_spaces_none _ c s Hc), IH.
    reflexivity.
Qed.

Lemma spaced_normal (s : jsstring) :
  spaced s -> startsWith s (str " ") = false ->
  trim (replace_all re_spaces [TLit (str " ")] s) = s.
Proof.
  intros H Hs. unfold replace_all, replace_fn.
  rewrite (replace_spaces_spaced _ (fun cs => eq_refl) s H).
  apply (spaced_trim s H Hs).
Qed.

Lemma mathChar_marker (s : jsstring) :
  without mathChar s -> without marker s.
Proof.
  apply without_weaken. intros c H. unfold mathChar. rewrite H. reflexivity.
Qed.

Lemma search_requires (Q : N -> bool) (r : regex) :
  requires Q r ->
  forall s prev, without Q s -> search false r prev s = None.
Proof.
  intros Hr. induction s as [|c s IH]; intros prev Hs; cbn [search].
  - unfold match_here. rewrite (rmatch_requires _ Q false r Hr); auto.
  - unfold match_here. rewrite (rmatch_requires _ Q false r Hr); auto.
    apply IH. apply (without_tail Q c s Hs).
Qed.

Lemma test_requires (Q : N -> bool) (r : regex) (s : jsstring) :
  requires Q r -> without Q s -> test r s = false.
Proof.
  intros Hr Hs. unfold test. rewrite (search_requires Q r Hr s None Hs).
  reflexivity.
Qed.

Lemma containsLaTeX_plain (s : jsstring) :
  without mathChar s -> containsLaTeX s = false.
Proof.
  intros Hplain.
  assert (B : without (is_char c_backslash) s).
  { revert Hplain. apply without_weaken. intros c E. unfold mathChar.
    rewrite E. rewrite orb_true_r. reflexivity. }
  assert (C : without (is_char c_caret) s).
  { revert Hplain. apply without_weaken. intros c E. unfold mathChar.
    rewrite E. apply orb_true_r. }
  pose proof (marker_underscore s (mathChar_marker s Hplain)) as U.
  pose proof (marker_dollar s (mathChar_marker s Hplain)) as D.
  unfold containsLaTeX, latexPatterns. cbn [existsb].
  repeat match goal with
         | |- context [test ?r s] =>
             first
               [ rewrite (test_requires (is_char c_backslash) r s)
                   by (req || exact B)
               | rewrite (test_requires (is_char c_underscore) r s)
                   by (req || exact U)
               | rewrite (test_requires (is_char c_caret) r s)
                   by (req || exact C)
               | rewrite (test_requires (is_char c_dollar) r s)
                   by (req || exact D) ]
         end.
  reflexivity.
Qed.

Lemma rep_cls_blocked (A : Type) (p : N -> bool)
      (k : option N -> jsstring -> option A) :
  (forall prev c s, k prev (c :: s) = None) ->
  forall s prev, Exists (fun c => p c = false) s ->
                 rep_cls p prev s k = None.
Proof.
  intros Hk. induction s as [|c s IH]; intros prev H.
  - inversion H.
  - cbn [rep_cls]. destruct (p c) eqn:E; [|apply Hk].
    inversion H as [x l Hx|x l Hl]; subst.
    + rewrite E in Hx. discriminate.
    + rewrite (IH (Some c) Hl). apply Hk.
Qed.

(** [/^p+$/] does not match a string that holds a code unit outside the
    class. *)
Lemma test_whole_run (p : N -> bool) (s : jsstring) :
  Exists (fun c => p c = false) s ->
  test (seqs [Bol; plus p; Eol]) s = false.
Proof.
  intros H. unfold test.
  assert (L : forall u c, search false (seqs [Bol; plus p; Eol]) (Some c) u
                          = None).
  { induction u as [|x u IH]; intros c; cbn [search]; unfold match_here;
      cbn [seqs rmatch at_bol andb]; [reflexivity|apply IH]. }
  destruct s as [|c s]; [inversion H|].
  cbn [search]. unfold match_here. cbn [seqs plus rmatch at_bol].
  destruct (p c) eqn:E.
  - inversion H as [x l Hx|x l Hl]; subst.
    + rewrite E in Hx. discriminate.
    + rewrite rep_cls_blocked; [rewrite L; reflexivity| |exact Hl].
      intros prev x u. reflexivity.
  - rewrite L. reflexivity.
Qed.

Lemma strongCase_phrase (ctx : Ctx) (text : jsstring) :
  spaced text -> startsWith text (str " ") = false ->
  without mathChar text -> Exists (fun c => is_word c = false) text ->
  strongCase ctx false text = str "**" ++ text ++ str "**".
Proof.
  intros Hs Hb Hm He. unfold strongCase.
  rewrite (spaced_trim text Hs Hb), (containsLaTeX_plain text Hm).
  change re_single_word with (seqs [Bol; plus is_word; Eol]).
  rewrite (test_whole_run is_word text He).
  change re_all_caps with (seqs [Bol; plus is_upper; Eol]).
  change re_all_digits with (seqs [Bol; plus is_digit; Eol]).
  rewrite (test_whole_run is_upper text), (test_whole_run is_digit text).
  - rewrite !andb_false_r. reflexivity.
  - revert He. apply Exists_impl. intros c E. unfold is_word in E.
    destruct (is_digit c); [discriminate|reflexivity].
  - revert He. apply Exists_impl. intros c E. unfold is_word in E.
    destruct (is_upper c); [|reflexivity].
    rewrite orb_true_r in E. discriminate.
Qed.

Lemma emCase_phrase (text : jsstring) :
  spaced text -> startsWith text (str " ") = false ->
  without mathChar text -> Exists (fun c => is_word c = false) text ->
  emCase false text = str "*" ++ text ++ str "*".
Proof.
  intros Hs Hb Hm He. unfold emCase.
  rewrite (spaced_trim text Hs Hb), (containsLaTeX_plain text Hm).
  change re_single_word with (seqs [Bol; plus is_word; Eol]).
  rewrite (test_whole_run is_word text He). reflexivity.
Qed.

(** An element whose only child is a text node of words separated by
    single spaces. *)
Lemma processNode_one_phrase (w : Window) (notionMode : bool) (ctx : Ctx)
      (t : jsstring) (attrs : list (jsstring * jsstring))
      (st : ComputedStyle) (text : jsstring) :
  shouldSkipElement (ElementNode t attrs st [TextNode text]) = false ->
  spaced text -> startsWith text (str " ") = false ->
  without mathChar text ->
  processNode w notionMode ctx (ElementNode t attrs st [TextNode text])
  = formatElement w notionMode ctx (ElementNode t attrs st [TextNode text])
      (toLowerCase t) attrs
      (mathAncestor ctx || JSString.eqb (toLowerCase t) (str "math")) text.
Proof.
  intros Hskip Hs Hb Hm. rewrite (processNode_element _ _ _ _ _ _ _ Hskip).
  rewrite processChildren_cons. cbn [processNode bind].
  rewrite processChildren_nil, appendChild_first.
  rewrite (processText_plain _ _ (mathChar_marker text Hm)).
  rewrite (spaced_normal text Hs Hb). reflexivity.
Qed.

(** ** The items of a list *)

Lemma spaced_no_nl (s : jsstring) :
  spaced s -> Forall (fun c => c <> c_nl) s.
Proof.
  induction 1 as [|c s Hc _ IH|c s Hc _ IH].
  - constructor.
  - constructor; [intros ->; discriminate|exact IH].
  - constructor; [discriminate|].
    constructor; [intros ->; discriminate|exact IH].
Qed.

Lemma itemMarker_no_nl (tagName : jsstring) :
  Forall (fun c => c <> c_nl) (itemMarker tagName).
Proof.
  unfold itemMarker. destruct (JSString.eqb tagName (str "ol"));
    repeat constructor; discriminate.
Qed.

Lemma itemMarker_cons (tagName x : jsstring) :
  truthy (itemMarker tagName ++ x) = true.
Proof.
  unfold itemMarker. destruct (JSString.eqb tagName (str "ol")); reflexivity.
Qed.

Lemma item_rendering (w : Window) (notionMode : bool) (t : jsstring)
      (isInsideMath : bool) (prev : option Node) (ct : jsstring)
      (cattrs : list (jsstring * jsstring)) (cst : ComputedStyle)
      (x : jsstring) :
  toLowerCase ct = str "li" ->
  shouldSkipElement (ElementNode ct cattrs cst [TextNode x]) = false ->
  phrase x ->
  processNode w notionMode
    {| parentTag := Some t; mathAncestor := isInsideMath;
       previousSibling := prev |} (ElementNode ct cattrs cst [TextNode x])
  = Ok (itemMarker (toLowerCase t) ++ x ++ nl).
Proof.
  intros Hct Hskip [Hne [Hs [Hb Hm]]].
  rewrite (processNode_one_phrase _ _ _ _ _ _ _ Hskip Hs Hb Hm).
  rewrite Hct, formatElement_li, (spaced_trim x Hs Hb).
  destruct x as [|c x]; [contradiction|]. cbn [truthy].
  unfold parentIs, itemMarker. cbn [parentTag].
  destruct (JSString.eqb (toLowerCase t) (str "ol")); reflexivity.
Qed.

Lemma list_children (w : Window) (notionMode : bool) (t : jsstring)
      (isInsideMath : bool) (cs : list Node) (xs : list jsstring) :
  itemsOf cs xs ->
  forall prev acc,
    processChildren (processNode w notionMode) t isInsideMath prev cs acc
    = Ok (acc ++ itemLines (toLowerCase t) xs).
Proof.
  induction 1 as [|d cs xs Hd _ IH|d cs xs _ IH
                  |ct cattrs cst x cs xs Hct Hskip Hx _ IH];
    intros prev acc.
  - rewrite processChildren_nil, app_nil_r. reflexivity.
  - rewrite processChildren_cons. cbn [processNode bind].
    rewrite (processText_blank notionMode d Hd).
    change (appendChild acc (TextNode d) []) with acc. apply IH.
  - rewrite processChildren_cons. cbn [processNode bind].
    change (appendChild acc (OtherNode d) []) with acc. apply IH.
  - rewrite processChildren_cons.
    rewrite (item_rendering _ _ _ _ _ _ _ _ _ Hct Hskip Hx). cbn [bind].
    rewrite (appendChild_item _ _ _ _ _ _ Hct), IH.
    unfold itemLines. cbn [flat_map]. rewrite <- !app_assoc. reflexivity.
Qed.

Lemma itemsOf_phrases (cs : list Node) (xs : list jsstring) :
  itemsOf cs xs -> Forall phrase xs.
Proof.
  induction 1; try assumption; constructor; assumption.
Qed.

Lemma lines_itemLines (tagName : jsstring) (xs : list jsstring) :
  Forall phrase xs ->
  lines (itemLines tagName xs ++ nl)
  = map (fun x => itemMarker tagName ++ x) xs.
Proof.
  induction 1 as [|x xs [_ [Hs _]] _ IH]; [reflexivity|].
  assert (E : itemLines tagName (x :: xs) ++ nl
              = (itemMarker tagName ++ x)
                ++ c_nl :: (itemLines tagName xs ++ nl)).
  { unfold itemLines. cbn [flat_map]. rewrite <- !app_assoc. reflexivity. }
  rewrite E. cbn [map]. unfold lines in *. rewrite split_char_app.
  2:{ apply Forall_app. split; [apply itemMarker_no_nl|].
      apply spaced_no_nl, Hs. }
  cbn [filter]. rewrite itemMarker_cons, IH. reflexivity.
Qed.

(** X16: a list ([ul] or [ol]) whose items hold one phrase each, with
    white space and comments between the items, renders as one line for
    each item, in the order of the items, then an empty line: the line of
    an item is its phrase after [- ] in a [ul] and after [1. ] in an
    [ol], whatever the position of the item. *)
Theorem list_items_one_line_each :
  forall (w : Window) (notionMode : bool) (ctx : Ctx) (t : jsstring)
         (attrs : list (jsstring * jsstring)) (st : ComputedStyle)
         (cs : list Node) (xs : list jsstring),
    toLowerCase t = str "ul" \/ toLowerCase t = str "ol" ->
    shouldSkipElement (ElementNode t attrs st cs) = false ->
    itemsOf cs xs ->
    processNode w notionMode ctx (ElementNode t attrs st cs)
    = Ok (itemLines (toLowerCase t) xs ++ nl)
    /\ lines (itemLines (toLowerCase t) xs ++ nl)
       = map (fun x => itemMarker (toLowerCase t) ++ x) xs.
Proof.
  intros w notionMode ctx t attrs st cs xs Ht Hskip Hitems. split.
  - rewrite (processNode_element _ _ _ _ _ _ _ Hskip).
    rewrite (list_children _ _ _ _ _ _ Hitems). cbn [bind].
    rewrite (formatElement_list _ _ _ _ _ _ _ _ Ht). reflexivity.
  - apply lines_itemLines, (itemsOf_phrases cs xs Hitems).
Qed.

Lemma list_items_one_line_each_witness :
  (toLowerCase (str "OL") = str "ul" \/ toLowerCase (str "OL") = str "ol")
  /\ shouldSkipElement Cases.steps = false
  /\ itemsOf [Sample.el "LI" [] [Sample.txt "step one"]; Sample.txt " ";
              Sample.el "LI" [] [Sample.txt "step two"]]
             [str "step one"; str "step two"]
  /\ processNode Sample.win false Sample.ctx0 Cases.steps
     = Ok (itemLines (toLowerCase (str "OL"))
                     [str "step one"; str "step two"] ++ nl)
  /\ lines (itemLines (toLowerCase (str "OL"))
                      [str "step one"; str "step two"] ++ nl)
     = map (fun x => itemMarker (toLowerCase (str "OL")) ++ x)
           [str "step one"; str "step two"]
  /\ itemLines (toLowerCase (str "OL")) [str "step one"; str "step two"]
     ++ nl
     = str "1. step one" ++ nl ++ str "1. step two" ++ nl ++ nl.
Proof.
  assert (H1 : toLowerCase (str "OL") = str "ul"
               \/ toLowerCase (str "OL") = str "ol")
    by (right; reflexivity).
  assert (H2 : shouldSkipElement Cases.steps = false)
    by (vm_compute; reflexivity).
  assert (P : forall x, In x [str "step one"; str "step two"] -> phrase x).
  { intros x [<-|[<-|[]]];
      (split; [discriminate|]; split;
       [repeat first [ apply sp_nil
                     | apply sp_space; [reflexivity|]
                     | apply sp_char; [reflexivity|] ]|];
       split; [reflexivity|repeat constructor]). }
  assert (H3 : itemsOf [Sample.el "LI" [] [Sample.txt "step one"];
                        Sample.txt " ";
                        Sample.el "LI" [] [Sample.txt "step two"]]
                       [str "step one"; str "step two"]).
  { apply io_item;
      [reflexivity|vm_compute; reflexivity|apply P; simpl; auto|].
    apply io_gap; [repeat constructor|].
    apply io_item;
      [reflexivity|vm_compute; reflexivity|apply P; simpl; auto|].
    apply io_nil. }
  split; [exact H1|]. split; [exact H2|]. split; [exact H3|].
  split; [|split; [|reflexivity]];
    apply (list_items_one_line_each Sample.win false Sample.ctx0 (str "OL")
             [] Sample.visible _ _ H1 H2 H3).
Defined.

(** X19: outside mathematics, a [strong] or [b] element around words
    separated by single spaces, with a code unit that is not a word
    character among them and without asterisk, underscore, dollar sign,
    backslash and caret, renders as the text between the bold markers,
    in both modes. *)
Theorem strong_phrase_keeps_markup :
  forall (w : Window) (notionMode : bool) (ctx : Ctx) (t : jsstring)
         (attrs : list (jsstring * jsstring)) (st : ComputedStyle)
         (text : jsstring),
    toLowerCase t = str "strong" \/ toLowerCase t = str "b" ->
    shouldSkipElement (ElementNode t attrs st [TextNode text]) = false ->
    mathAncestor ctx = false ->
    spaced text -> startsWith text (str " ") = false ->
    without mathChar text -> Exists (fun c => is_word c = false) text ->
    processNode w notionMode ctx (ElementNode t attrs st [TextNode text])
    = Ok (str "**" ++ text ++ str "**").
Proof.
  intros w notionMode ctx t attrs st text Ht Hskip Hctx Hs Hb Hm He.
  rewrite (processNode_one_phrase _ _ _ _ _ _ _ Hskip Hs Hb Hm).
  rewrite (formatElement_strong _ _ _ _ _ _ _ _ Ht). rewrite Hctx.
  replace (false || JSString.eqb (toLowerCase t) (str "math")) with false
    by (destruct Ht as [-> | ->]; reflexivity).
  rewrite (strongCase_phrase ctx text Hs Hb Hm He). reflexivity.
Qed.

Lemma strong_phrase_keeps_markup_witness :
  (toLowerCase (str "STRONG") = str "strong"
   \/ toLowerCase (str "STRONG") = str "b")
  /\ shouldSkipElement (Sample.el "STRONG" [] [Sample.txt "two words"])
     = false
  /\ mathAncestor Sample.ctx0 = false
  /\ spaced (str "two words")
  /\ startsWith (str "two words") (str " ") = false
  /\ without mathChar (str "two words")
  /\ Exists (fun c => is_word c = false) (str "two words")
  /\ processNode Sample.win false Sample.ctx0
       (Sample.el "STRONG" [] [Sample.txt "two words"])
     = Ok (str "**" ++ str "two words" ++ str "**").
Proof.
  assert (H0 : toLowerCase (str "STRONG") = str "strong"
               \/ toLowerCase (str "STRONG") = str "b")
    by (left; reflexivity).
  assert (H1 : shouldSkipElement
                 (Sample.el "STRONG" [] [Sample.txt "two words"]) = false)
    by (vm_compute; reflexivity).
  assert (H2 : mathAncestor Sample.ctx0 = false) by reflexivity.
  assert (H3 : spaced (str "two words")).
  { repeat first [ apply sp_nil
                 | apply sp_space; [reflexivity|]
                 | apply sp_char; [reflexivity|] ]. }
  assert (H4 : startsWith (str "two words") (str " ") = false)
    by reflexivity.
  assert (H5 : without mathChar (str "two words")).
  { repeat constructor. }
  assert (H6 : Exists (fun c => is_word c = false) (str "two words")).
  { apply Exists_exists. exists 32%N. split; [|reflexivity].
    simpl. auto 10. }
  repeat apply conj; try assumption.
  exact (strong_phrase_keeps_markup Sample.win false Sample.ctx0
           (str "STRONG") [] Sample.visible (str "two words")
           H0 H1 H2 H3 H4 H5 H6).
Defined.

(** X20: under the same conditions an [em] or [i] element renders as
    the text between the emphasis markers. *)
Theorem em_phrase_keeps_markup :
  forall (w : Window) (notionMode : bool) (ctx : Ctx) (t : jsstring)
         (attrs : list (jsstring * jsstring)) (st : ComputedStyle)
         (text : jsstring),
    toLowerCase t = str "em" \/ toLowerCase t = str "i" ->
    shouldSkipElement (ElementNode t attrs st [TextNode text]) = false ->
    mathAncestor ctx = false ->
    spaced text -> startsWith text (str " ") = false ->
    without mathChar text -> Exists (fun c => is_word c = false) text ->
    processNode w notionMode ctx (ElementNode t attrs st [TextNode text])
    = Ok (str "*" ++ text ++ str "*").
Proof.
  intros w notionMode ctx t attrs st text Ht Hskip Hctx Hs Hb Hm He.
  rewrite (processNode_one_phrase _ _ _ _ _ _ _ Hskip Hs Hb Hm).
  rewrite (formatElement_em _ _ _ _ _ _ _ _ Ht). rewrite Hctx.
  replace (false || JSString.eqb (toLowerCase t) (str "math")) with false
    by (destruct Ht as [-> | ->]; reflexivity).
  rewrite (emCase_phrase text Hs Hb Hm He). reflexivity.
Qed.

Lemma em_phrase_keeps_markup_witness :
  (toLowerCase (str "I") = str "em" \/ toLowerCase (str "I") = str "i")
  /\ shouldSkipElement (Sample.el "I" [] [Sample.txt "well-known fact"])
     = false
  /\ mathAncestor Sample.ctx0 = false
  /\ spaced (str "well-known fact")
  /\ startsWith (str "well-known fact") (str " ") = false
  /\ without mathChar (str "well-known fact")
  /\ Exists (fun c => is_word c = false) (str "well-known fact")
  /\ processNode Sample.win true Sample.ctx0
       (Sample.el "I" [] [Sample.txt "well-known fact"])
     = Ok (str "*" ++ str "well-known fact" ++ str "*").
Proof.
  assert (H0 : toLowerCase (str "I") = str "em"
               \/ toLowerCase (str "I") = str "i")
    by (right; reflexivity).
  assert (H1 : shouldSkipElement
                 (Sample.el "I" [] [Sample.txt "well-known fact"]) = false)
    by (vm_compute; reflexivity).
  assert (H2 : mathAncestor Sample.ctx0 = false) by reflexivity.
  assert (H3 : spaced (str "well-known fact")).
  { repeat first [ apply sp_nil
                 | apply sp_space; [reflexivity|]
                 | apply sp_char; [reflexivity|] ]. }
  assert (H4 : startsWith (str "well-known fact") (str " ") = false)
    by reflexivity.
  assert (H5 : without mathChar (str "well-known fact")).
  { repeat constructor. }
  assert (H6 : Exists (fun c => is_word c = false)
                      (str "well-known fact")).
  { apply Exists_exists. exists 45%N. split; [|reflexivity].
    simpl. auto 10. }
  repeat apply conj; try assumption.
  exact (em_phrase_keeps_markup Sample.win true Sample.ctx0
           (str "I") [] Sample.visible (str "well-known fact")
           H0 H1 H2 H3 H4 H5 H6).
Defined.

(** ** What is inside a rejected element *)

Lemma hollow_skipped (t : jsstring) (attrs : list (jsstring * jsstring))
      (st : ComputedStyle) (cs : list Node) :
  shouldSkipElement (ElementNode t attrs st cs) = true ->
  hollow (ElementNode t attrs st cs) = ElementNode t attrs st [].
Proof. intros H. cbn [hollow]. rewrite H. reflexivity. Qed.

Lemma hollow_kept (t : jsstring) (attrs : list (jsstring * jsstring))
      (st : ComputedStyle) (cs : list Node) :
  shouldSkipElement (ElementNode t attrs st cs) = false ->
  hollow (ElementNode t attrs st cs) = ElementNode t attrs st (map hollow cs).
Proof. intros H. cbn [hollow]. rewrite H. reflexivity. Qed.

Lemma hollow_tag (c : Node) :
  match hollow c with
  | ElementNode ct _ _ _ =>
      match c with ElementNode ct' _ _ _ => ct = ct' | _ => False end
  | TextNode d => c = TextNode d
  | OtherNode d => c = OtherNode d
  end.
Proof.
  destruct c as [d|d|t attrs st cs]; try reflexivity.
  cbn [hollow]. destruct (shouldSkipElement _); reflexivity.
Qed.

Lemma appendChild_hollow (acc : jsstring) (c : Node) (r : jsstring) :
  appendChild acc (hollow c) r = appendChild acc c r.
Proof.
  destruct c as [d|d|t attrs st cs]; try reflexivity.
  cbn [hollow]. destruct (shouldSkipElement _); reflexivity.
Qed.

Lemma containerCase_hollow (t : jsstring)
      (attrs : list (jsstring * jsstring)) (st : ComputedStyle)
      (cs : list Node) (childrenMarkdown : jsstring) :
  containerCase (ElementNode t attrs st (map hollow cs)) childrenMarkdown
  = containerCase (ElementNode t attrs st cs) childrenMarkdown.
Proof.
  unfold containerCase, children. cbn [childNodesOf].
  assert (E : forall l,
             existsb (fun child =>
                        match child with
                        | ElementNode ct _ _ _ =>
                            includesStr containerBlockTags (toLowerCase ct)
                        | _ => false
                        end) (filter isElement (map hollow l))
             = existsb (fun child =>
                          match child with
                          | ElementNode ct _ _ _ =>
                              includesStr containerBlockTags (toLowerCase ct)
                          | _ => false
                          end) (filter isElement l)).
  { induction l as [|c l IH]; [reflexivity|].
    cbn [map filter].
    destruct c as [d|d|ct cattrs cst ccs]; cbn [hollow isElement];
      try exact IH.
    destruct (shouldSkipElement _); cbn [isElement existsb];
      rewrite IH; reflexivity. }
  rewrite E. reflexivity.
Qed.

Ltac same_tag tagName x :=
  destruct (JSString.eqb tagName (str x)) eqn:?; cbn [orb];
  [try reflexivity|].

(** The switch on the tag reads the surroundings through the tag of the
    parent and the text of the previous sibling, and the node through
    the rules of [pre], [math] and the containers. *)
Lemma formatElement_same (w : Window) (notionMode : bool)
      (pt : option jsstring) (ma : bool) (ps ps' : option Node)
      (node node' : Node) (tagName : jsstring)
      (attrs : list (jsstring * jsstring)) (isInsideMath : bool)
      (childrenMarkdown : jsstring) :
  (readsRawText tagName = true -> node' = node) ->
  (JSString.eqb tagName (str "strong") || JSString.eqb tagName (str "b")
   = true -> textOf ps' = textOf ps) ->
  containerCase node' childrenMarkdown = containerCase node childrenMarkdown ->
  formatElement w notionMode
    {| parentTag := pt; mathAncestor := ma; previousSibling := ps' |}
    node' tagName attrs isInsideMath childrenMarkdown
  = formatElement w notionMode
      {| parentTag := pt; mathAncestor := ma; previousSibling := ps |}
      node tagName attrs isInsideMath childrenMarkdown.
Proof.
  intros Hraw Hbold Hcont. unfold readsRawText in Hraw.
  unfold formatElement. cbv beta zeta.
  same_tag tagName "h1"%string. same_tag tagName "h2"%string.
  same_tag tagName "h3"%string. same_tag tagName "h4"%string.
  same_tag tagName "h5"%string. same_tag tagName "h6"%string.
  same_tag tagName "p"%string. same_tag tagName "br"%string.
  destruct (JSString.eqb tagName (str "strong")
            || JSString.eqb tagName (str "b")) eqn:Hb.
  { unfold strongCase, prevTextOf. cbn [previousSibling].
    fold (textOf ps') (textOf ps). rewrite (Hbold eq_refl). reflexivity. }
  same_tag tagName "em"%string. same_tag tagName "i"%string.
  same_tag tagName "code"%string.
  destruct (JSString.eqb tagName (str "pre")) eqn:Hpre.
  { rewrite (Hraw eq_refl). reflexivity. }
  same_tag tagName "blockquote"%string.
  same_tag tagName "ul"%string. same_tag tagName "ol"%string.
  same_tag tagName "li"%string.
  same_tag tagName "a"%string. same_tag tagName "img"%string.
  destruct (JSString.eqb tagName (str "math")) eqn:Hmath.
  { rewrite (Hraw eq_refl). reflexivity. }
  same_tag tagName "table"%string. same_tag tagName "tr"%string.
  same_tag tagName "td"%string. same_tag tagName "th"%string.
  same_tag tagName "span"%string.
  rewrite Hcont. reflexivity.
Qed.

Lemma processChildren_hollow (w : Window) (notionMode : bool)
      (t : jsstring) (isInsideMath : bool) (cs : list Node) :
  Forall (fun c =>
            calm c ->
            forall pt ma ps ps',
              (boldNode c = true -> textOf ps' = textOf ps) ->
              processNode w notionMode
                {| parentTag := pt; mathAncestor := ma;
                   previousSibling := ps' |} (hollow c)
              = processNode w notionMode
                  {| parentTag := pt; mathAncestor := ma;
                     previousSibling := ps |} c) cs ->
  forall prev acc,
    siblingsCalm calm prev cs ->
    processChildren (processNode w notionMode) t isInsideMath
                    (option_map hollow prev) (map hollow cs) acc
    = processChildren (processNode w notionMode) t isInsideMath prev cs acc.
Proof.
  induction 1 as [|c cs Hc _ IH]; intros prev acc Hs; [reflexivity|].
  destruct Hs as [Hcalm [Hbold Hrest]].
  cbn [map]. rewrite !processChildren_cons.
  rewrite (Hc Hcalm (Some t) isInsideMath prev (option_map hollow prev) Hbold).
  destruct (processNode w notionMode _ c) as [r|e]; [|reflexivity].
  cbn [bind]. rewrite appendChild_hollow.
  exact (IH (Some c) _ Hrest).
Qed.

Lemma processNode_hollow (w : Window) (notionMode : bool) (n : Node) :
  calm n ->
  forall pt ma ps ps',
    (boldNode n = true -> textOf ps' = textOf ps) ->
    processNode w notionMode
      {| parentTag := pt; mathAncestor := ma; previousSibling := ps' |}
      (hollow n)
    = processNode w notionMode
        {| parentTag := pt; mathAncestor := ma; previousSibling := ps |} n.
Proof.
  induction n as [d|d|t attrs st cs IH] using Node_induction;
    intros Hcalm pt ma ps ps' Hbold; try reflexivity.
  destruct (shouldSkipElement (ElementNode t attrs st cs)) eqn:Hskip.
  - rewrite (hollow_skipped _ _ _ _ Hskip).
    rewrite (processNode_skipped _ _ _ t attrs st [] Hskip).
    rewrite (processNode_skipped _ _ _ t attrs st cs Hskip). reflexivity.
  - destruct Hcalm as [Hcalm|[Hraw Hsib]]; [congruence|].
    rewrite (hollow_kept _ _ _ _ Hskip).
    rewrite (processNode_element _ _ _ t attrs st (map hollow cs) Hskip).
    rewrite (processNode_element _ _ _ t attrs st cs Hskip).
    cbn [mathAncestor].
    rewrite (processChildren_hollow w notionMode t _ cs IH None [] Hsib).
    destruct (processChildren _ _ _ _ _ _) as [md|e]; [|reflexivity].
    cbn [bind]. apply formatElement_same.
    + intros H. rewrite (Hraw H). reflexivity.
    + exact Hbold.
    + apply containerCase_hollow.
Qed.

(** C7, amended: an element whose class list holds a term of the generic
    noise vocabulary, or whose computed display is "none", is rejected by
    [shouldSkipElement], and [processNode] gives the empty string for it
    whatever its child nodes are: they are not visited. What is inside
    the rejected elements of a tree does not reach the output of the
    transducer: the output is the one of the tree with the child nodes of
    every rejected element removed. This holds where no rule reads raw
    text without asking the filter, that is when, outside the rejected
    elements, no [pre] or [math] element holds a rejected element with
    child nodes, and no [strong] or [b] element comes after a node with
    text inside a rejected element. *)
Theorem C7_rejected_elements_render_empty :
  forall (t : jsstring) (attrs : list (jsstring * jsstring))
         (st : ComputedStyle) (cs : list Node),
    hasNoiseClass attrs \/ display st = str "none" ->
    shouldSkipElement (ElementNode t attrs st cs) = true
    /\ (forall w notionMode ctx,
          processNode w notionMode ctx (ElementNode t attrs st cs) = Ok [])
    /\ hollow (ElementNode t attrs st cs) = ElementNode t attrs st []
    /\ (forall w notionMode ctx n,
          calm n ->
          processNode w notionMode ctx (hollow n)
          = processNode w notionMode ctx n).
Proof.
  intros t attrs st cs H.
  assert (S := noise_rejected t attrs st cs H).
  split; [exact S|]. split; [|split].
  - intros w notionMode ctx. apply processNode_skipped. exact S.
  - apply hollow_skipped. exact S.
  - intros w notionMode [pt ma ps] n Hn.
    apply processNode_hollow; [exact Hn|reflexivity].
Qed.

Lemma C7_rejected_elements_render_empty_witness :
  (hasNoiseClass [(str "class", str "sidebar")]
   \/ display Sample.visible = str "none")
  /\ shouldSkipElement Sample.sidebarDiv = true
  /\ (forall w notionMode ctx,
        processNode w notionMode ctx Sample.sidebarDiv = Ok [])
  /\ hollow Sample.sidebarDiv
     = Sample.el "DIV" [("class", "sidebar")%string] []
  /\ calm Cases.withSidebar
  /\ hollow Cases.withSidebar
     = Sample.el "ARTICLE" []
         [Sample.el "H1" [] [Sample.txt "Kept title"];
          Sample.el "DIV" [("class", "sidebar")%string] [];
          Sample.el "P" [] [Sample.txt "Kept text"]]
  /\ processNode Sample.win false Sample.ctx0 (hollow Cases.withSidebar)
     = processNode Sample.win false Sample.ctx0 Cases.withSidebar
  /\ processNode Sample.win false Sample.ctx0 Cases.withSidebar
     = Ok (str "# Kept title" ++ nl ++ nl ++ str "Kept text" ++ nl ++ nl).
Proof.
  assert (H : hasNoiseClass [(str "class", str "sidebar")]
              \/ display Sample.visible = str "none").
  { left. exists (str "sidebar"), (str "sidebar").
    repeat split; vm_compute; tauto. }
  assert (Hc : calm Cases.withSidebar).
  { right. split; [intros R; discriminate R|].
    repeat split; try (intros R; discriminate R);
      try (left; vm_compute; reflexivity);
      right; (split; [intros R; discriminate R|]);
      repeat split; intros R; discriminate R. }
  destruct (C7_rejected_elements_render_empty
              (str "DIV") [(str "class", str "sidebar")] Sample.visible
              [Sample.el "H2" [] [Sample.txt "menu entries"]] H)
    as [T1 [T2 [T3 T4]]].
  split; [exact H|]. split; [exact T1|]. split; [exact T2|].
  split; [exact T3|]. split; [exact Hc|].
  split; [vm_compute; reflexivity|].
  split; [exact (T4 Sample.win false Sample.ctx0 Cases.withSidebar Hc)|].
  vm_compute; reflexivity.
Defined.

(** The two other rules that read raw text: the conversion of a [math]
    element reads the text of a rejected token, and the rule of [strong]
    reads the text of a rejected previous sibling, which turns the
    element into an exponent. Neither tree is calm. *)
Example raw_text_of_rejected_elements :
  shouldSkipElement
    (Sample.el "mi" [("class", "sidebar")%string] [Sample.txt "x"]) = true
  /\ processNode Sample.win false Sample.ctx0 Cases.mathWithSidebar
     = Ok (str "$x$")
  /\ processNode Sample.win false Sample.ctx0 (hollow Cases.mathWithSidebar)
     = Ok (str "$$")
  /\ shouldSkipElement
       (Sample.el "SPAN" [("class", "sidebar")%string] [Sample.txt "n"])
     = true
  /\ processNode Sample.win false Sample.ctx0 Cases.boldAfterSidebar
     = Ok (str "^{2}" ++ nl ++ nl)
  /\ processNode Sample.win false Sample.ctx0 (hollow Cases.boldAfterSidebar)
     = Ok (str "2" ++ nl ++ nl).
Proof. repeat apply conj; vm_compute; reflexivity. Qed.

(** ** Equations in compact mode *)

Lemma inertTail_spaced (s : jsstring) : inertTail s -> spaced s.
Proof.
  induction 1 as [|c s Hc _ IH|c s Hc _ IH].
  - constructor.
  - apply sp_char; [apply (inert_spec c Hc)|exact IH].
  - apply sp_space; [apply (inert_spec c Hc)|exact IH].
Qed.

Lemma spaced_insert (c : N) :
  is_space c = false ->
  forall w, spaced w -> forall u v, w = u ++ v -> spaced (u ++ c :: v).
Proof.
  intros Hc w H.
  induction H as [|x s Hx Hs IH|x s Hx Hs IH]; intros u v E.
  - destruct u; [|discriminate]. destruct v; [|discriminate].
    apply sp_char; [exact Hc|constructor].
  - destruct u as [|y u].
    + cbn [app] in *. subst v. apply sp_char; [exact Hc|].
      apply sp_char; assumption.
    + cbn [app] in E. inversion E; subst. cbn [app].
      apply sp_char; [exact Hx|]. apply IH. reflexivity.
  - destruct u as [|y u].
    + cbn [app] in *. subst v. apply sp_char; [exact Hc|].
      apply sp_space; assumption.
    + cbn [app] in E. inversion E as [[Ey E']]. destruct u as [|z u].
      * cbn [app] in *. subst v. apply sp_space; [exact Hc|].
        apply sp_char; assumption.
      * cbn [app] in E'. inversion E'; subst. cbn [app].
        apply sp_space; [exact Hx|]. apply IH. reflexivity.
Qed.

Lemma rep_cls_greedy (A : Type) (p : N -> bool)
      (k : option N -> jsstring -> option A) (x : A) (rest : jsstring) :
  (forall prev, k prev rest = Some x) ->
  match rest with c :: _ => p c = false | [] => True end ->
  forall u prev,
    Forall (fun c => p c = true) u -> rep_cls p prev (u ++ rest) k = Some x.
Proof.
  intros Hk Hrest. induction u as [|c u IH]; intros prev Hu.
  - cbn [app]. destruct rest as [|c r]; cbn [rep_cls]; [apply Hk|].
    rewrite Hrest. apply Hk.
  - inversion Hu as [|c' u' Hc Hu']; subst. cbn [app rep_cls].
    rewrite Hc. rewrite (IH (Some c) Hu'). reflexivity.
Qed.

Lemma firstn_consumed (u rest : jsstring) :
  firstn (length (u ++ rest) - length rest) (u ++ rest) = u.
Proof.
  rewrite length_app, Nat.add_sub.
  rewrite firstn_app, Nat.sub_diag, firstn_all. apply app_nil_r.
Qed.

Lemma not_dollar (E : jsstring) :
  without (is_char c_dollar) E ->
  Forall (fun c => not_char c_dollar c = true) E.
Proof.
  intros H. apply (Forall_impl _ (fun a (P : is_char c_dollar a = false) =>
                      proj2 (negb_true_iff _) P) H).
Qed.

Lemma match_inline_eq (E b : jsstring) (prev : option N) :
  E <> [] -> without (is_char c_dollar) E ->
  match_here false re_inline_eq prev (c_dollar :: E ++ c_dollar :: b)
  = Some (S (S (length E)), [(1%nat, E)]).
Proof.
  intros Hne Hw. destruct E as [|e E]; [contradiction|].
  pose proof (not_dollar _ Hw) as Hn.
  inversion Hn as [|e' E' He HE]; subst.
  unfold match_here, re_inline_eq. cbn [seqs plus rmatch].
  change (is_char c_dollar c_dollar) with true. cbv iota.
  cbn [app]. rewrite He.
  apply rep_cls_greedy; [|reflexivity|exact HE].
  intros prev'.
  change (is_char c_dollar c_dollar) with true. cbv iota.
  change (e :: E ++ c_dollar :: b) with ((e :: E) ++ c_dollar :: b).
  rewrite firstn_consumed. f_equal. f_equal.
  cbn [length]. rewrite length_app. cbn [length]. lia.
Qed.

Lemma match_block_eq (E b : jsstring) (prev : option N) :
  E <> [] -> without (is_char c_dollar) E ->
  match_here false re_block_eq prev
    (c_dollar :: c_dollar :: E ++ c_dollar :: c_dollar :: b)
  = Some (S (S (S (S (length E)))), [(1%nat, E)]).
Proof.
  intros Hne Hw. destruct E as [|e E]; [contradiction|].
  pose proof (not_dollar _ Hw) as Hn.
  inversion Hn as [|e' E' He HE]; subst.
  unfold match_here, re_block_eq.
  change (lit (str "$$"))
    with (Seq (Cls (is_char c_dollar)) (Cls (is_char c_dollar))).
  cbn [seqs plus rmatch].
  change (is_char c_dollar c_dollar) with true. cbv iota.
  cbn [app]. rewrite He.
  apply rep_cls_greedy; [|reflexivity|exact HE].
  intros prev'.
  change (is_char c_dollar c_dollar) with true. cbv iota.
  change (e :: E ++ c_dollar :: c_dollar :: b)
    with ((e :: E) ++ c_dollar :: c_dollar :: b).
  rewrite firstn_consumed. f_equal. f_equal.
  cbn [length]. rewrite length_app. cbn [length]. lia.
Qed.

(** The seventh pattern of the detection finds an equation between
    single dollar signs. *)
Lemma containsLaTeX_inline (pre E post : jsstring) :
  E <> [] -> without (is_char c_dollar) E ->
  containsLaTeX (pre ++ c_dollar :: E ++ c_dollar :: post) = true.
Proof.
  intros Hne Hw.
  assert (T : test (seqs [Cls (is_char c_dollar); plus (not_char c_dollar);
                          Cls (is_char c_dollar)])
                   (pre ++ c_dollar :: E ++ c_dollar :: post) = true).
  { apply test_app. intros prev. destruct E as [|e E]; [contradiction|].
    pose proof (not_dollar _ Hw) as Hn.
    inversion Hn as [|e' E' He HE]; subst.
    unfold match_here. cbn [seqs plus rmatch].
    change (is_char c_dollar c_dollar) with true. cbv iota.
    cbn [app]. rewrite He. eexists.
    apply rep_cls_greedy; [|reflexivity|exact HE].
    intros prev'.
    change (is_char c_dollar c_dollar) with true. cbv iota. reflexivity. }
  unfold containsLaTeX, latexPatterns. cbn [existsb].
  rewrite T. rewrite !orb_true_r. reflexivity.
Qed.

(** Where the expression starts with a class, no match starts at a code
    unit that is not of the class. *)
Lemma replace_go_prefix (ml : bool) (r : regex)
      (f : jsstring -> caps -> jsstring) (p : N -> bool) :
  (forall prev c s, p c = false -> match_here ml r prev (c :: s) = None) ->
  forall a, Forall (fun c => p c = false) a ->
  forall rest prev,
    exists prev',
      replace_go ml r f prev (a ++ rest) 0
      = a ++ replace_go ml r f prev' rest 0.
Proof.
  intros Hnone. induction 1 as [|c a Hc _ IH]; intros rest prev.
  - exists prev. reflexivity.
  - cbn [app]. rewrite replace_go_here, (Hnone prev c _ Hc).
    destruct (IH rest (Some c)) as [prev' E]. exists prev'.
    rewrite E. reflexivity.
Qed.

Lemma inline_eq_first (prev : option N) (c : N) (s : jsstring) :
  is_char c_dollar c = false ->
  match_here false re_inline_eq prev (c :: s) = None.
Proof.
  intros H. unfold match_here, re_inline_eq. cbn [seqs rmatch].
  rewrite H. reflexivity.
Qed.

Lemma block_eq_first (prev : option N) (c : N) (s : jsstring) :
  is_char c_dollar c = false ->
  match_here false re_block_eq prev (c :: s) = None.
Proof.
  intros H. unfold match_here, re_block_eq.
  change (lit (str "$$"))
    with (Seq (Cls (is_char c_dollar)) (Cls (is_char c_dollar))).
  cbn [seqs rmatch]. rewrite H. reflexivity.
Qed.

Lemma replace_go_without (Q : N -> bool) (r : regex)
      (f : jsstring -> caps -> jsstring) (s : jsstring) (prev : option N) :
  requires Q r -> without Q s -> replace_go false r f prev s 0 = s.
Proof.
  intros Hr Hs.
  apply (replace_go_noop false r f (fun _ s => without Q s)).
  - intros prev0 c s0. apply without_tail.
  - intros prev0 s0 H0. unfold match_here.
    apply (rmatch_requires _ Q false r Hr). exact H0.
  - exact Hs.
Qed.

Lemma skipn_past (u v w : jsstring) :
  skipn (length u + length v) (u ++ v ++ w) = w.
Proof.
  rewrite app_assoc, <- length_app, skipn_app, skipn_all, Nat.sub_diag.
  reflexivity.
Qed.

(** The equation between single dollar signs is replaced by its
    content. *)
Lemma replace_inline_eq (a E b : jsstring) :
  E <> [] -> without (is_char c_dollar) a -> without (is_char c_dollar) E ->
  without (is_char c_dollar) b ->
  replace_all re_inline_eq [TRef 1] (a ++ c_dollar :: E ++ c_dollar :: b)
  = a ++ E ++ b.
Proof.
  intros Hne Ha HE Hb. unfold replace_all, replace_fn.
  set (f := fun (_ : jsstring) (cs : caps) => expand [TRef 1] cs).
  destruct (replace_go_prefix false re_inline_eq f (is_char c_dollar)
              inline_eq_first a Ha (c_dollar :: E ++ c_dollar :: b) None)
    as [prev' ->].
  f_equal. rewrite replace_go_here, (match_inline_eq E b prev' Hne HE).
  unfold f at 1. cbn [expand group Nat.eqb]. rewrite app_nil_r. f_equal.
  destruct (replace_go_skip false re_inline_eq f (S (length E))
              (E ++ c_dollar :: b) (Some c_dollar)) as [prev'' ->].
  { rewrite length_app. cbn [length]. lia. }
  replace (skipn (S (length E)) (E ++ c_dollar :: b)) with b.
  - apply (replace_go_without (is_char c_dollar) _ _ b prev'' req_inline_eq Hb).
  - replace (S (length E)) with (length E + length [c_dollar])
      by (cbn [length]; lia).
    symmetry. apply (skipn_past E [c_dollar] b).
Qed.

(** The equation between doubled dollar signs is replaced by the
    template. *)
Lemma replace_block_eq (a E b : jsstring) (t : list titem) :
  E <> [] -> without (is_char c_dollar) a -> without (is_char c_dollar) E ->
  without (is_char c_dollar) b ->
  replace_all re_block_eq t
    (a ++ c_dollar :: c_dollar :: E ++ c_dollar :: c_dollar :: b)
  = a ++ expand t [(1%nat, E)] ++ b.
Proof.
  intros Hne Ha HE Hb. unfold replace_all, replace_fn.
  set (f := fun (_ : jsstring) (cs : caps) => expand t cs).
  destruct (replace_go_prefix false re_block_eq f (is_char c_dollar)
              block_eq_first a Ha
              (c_dollar :: c_dollar :: E ++ c_dollar :: c_dollar :: b) None)
    as [prev' ->].
  f_equal. rewrite replace_go_here, (match_block_eq E b prev' Hne HE).
  unfold f at 1. f_equal.
  destruct (replace_go_skip false re_block_eq f (S (S (S (length E))))
              (c_dollar :: E ++ c_dollar :: c_dollar :: b) (Some c_dollar))
    as [prev'' ->].
  { cbn [length]. rewrite length_app. cbn [length]. lia. }
  replace (skipn (S (S (S (length E))))
                 (c_dollar :: E ++ c_dollar :: c_dollar :: b)) with b.
  - apply (replace_go_without (is_char c_dollar) _ _ b prev'' req_block_eq Hb).
  - change (skipn (S (S (S (length E))))
                  (c_dollar :: E ++ c_dollar :: c_dollar :: b))
      with (skipn (S (S (length E))) (E ++ c_dollar :: c_dollar :: b)).
    replace (S (S (length E))) with (length E + length [c_dollar; c_dollar])
      by (cbn [length]; lia).
    symmetry. apply (skipn_past E [c_dollar; c_dollar] b).
Qed.

Lemma block_eq_single (prev : option N) (s : jsstring) :
  match s with c :: _ => is_char c_dollar c = false | [] => True end ->
  match_here false re_block_eq prev (c_dollar :: s) = None.
Proof.
  intros H. unfold match_here, re_block_eq.
  change (lit (str "$$"))
    with (Seq (Cls (is_char c_dollar)) (Cls (is_char c_dollar))).
  cbn [seqs rmatch]. change (is_char c_dollar c_dollar) with true. cbv iota.
  destruct s as [|c s]; [reflexivity|]. rewrite H. reflexivity.
Qed.

(** A single dollar sign on each side is no block equation. *)
Lemma replace_block_none (a E b : jsstring) (t : list titem) :
  E <> [] -> without (is_char c_dollar) a -> without (is_char c_dollar) E ->
  without (is_char c_dollar) b ->
  replace_all re_block_eq t (a ++ c_dollar :: E ++ c_dollar :: b)
  = a ++ c_dollar :: E ++ c_dollar :: b.
Proof.
  intros Hne Ha HE Hb. unfold replace_all, replace_fn.
  set (f := fun (_ : jsstring) (cs : caps) => expand t cs).
  destruct (replace_go_prefix false re_block_eq f (is_char c_dollar)
              block_eq_first a Ha (c_dollar :: E ++ c_dollar :: b) None)
    as [prev1 ->].
  f_equal. rewrite replace_go_here, block_eq_single.
  2:{ destruct E as [|e E]; [contradiction|].
      inversion HE; subst. assumption. }
  f_equal.
  destruct (replace_go_prefix false re_block_eq f (is_char c_dollar)
              block_eq_first E HE (c_dollar :: b) (Some c_dollar))
    as [prev2 ->].
  f_equal. rewrite replace_go_here, block_eq_single.
  2:{ destruct b as [|c b]; [exact I|]. inversion Hb; subst. assumption. }
  f_equal.
  apply (replace_go_without (is_char c_dollar) _ _ b _ req_block_eq Hb).
Qed.

Lemma startsWith_dollar (u v : jsstring) :
  startsWith (u ++ v) (str " ") = false ->
  startsWith (u ++ c_dollar :: v) (str " ") = false.
Proof.
  destruct u as [|x u]; [reflexivity|]. cbn [app].
  change (str " ") with [32%N]. cbn [startsWith].
  assert (E : forall s : jsstring, startsWith s [] = true)
    by (intros []; reflexivity).
  rewrite !E. intros H. exact H.
Qed.

Lemma protectLaTeX_unmarked (text : jsstring) :
  without (is_char c_star) text -> without (is_char c_underscore) text ->
  protectLaTeX text = text.
Proof.
  intros Hs Hu. unfold protectLaTeX.
  rewrite (replace_all_requires (is_char c_star) re_word_stars_caps _ text
             req_word_stars_caps Hs).
  rewrite (replace_all_requires (is_char c_star) re_word_stars_word _ text
             req_word_stars_word Hs).
  rewrite (replace_all_requires (is_char c_underscore) re_word_unders_word _
             text req_word_unders_word Hu).
  rewrite (replace_all_requires (is_char c_star) re_stars_caps_stars _ text
             req_stars_caps_stars Hs).
  apply (replace_all_requires (is_char c_underscore) re_unders_text_unders _
           text req_unders_text_unders Hu).
Qed.

Lemma without_app (Q : N -> bool) (u v : jsstring) :
  without Q (u ++ v) <-> without Q u /\ without Q v.
Proof. apply Forall_app. Qed.

Lemma quiet_parts (a E b : jsstring) :
  quiet (a ++ E ++ b) ->
  forall Q, avoided Q \/ Q = is_char c_underscore \/ Q = is_char c_pipe ->
            without Q a /\ without Q E /\ without Q b.
Proof.
  intros [[Hi _] [Hu Hp]] Q HQ.
  assert (W : without Q (a ++ E ++ b)).
  { destruct HQ as [HQ|[->| ->]]; [|exact Hu|exact Hp].
    apply inertTail_without; assumption. }
  apply without_app in W. destruct W as [Wa W].
  apply without_app in W. destruct W as [WE Wb]. auto.
Qed.

(** The repair of a text node in compact mode, on an equation in plain
    text. *)
Lemma processText_inline (a E b : jsstring) :
  E <> [] -> quiet (a ++ E ++ b) ->
  processText true (a ++ str "$" ++ E ++ str "$" ++ b) = a ++ E ++ b.
Proof.
  intros Hne Hq.
  change (a ++ str "$" ++ E ++ str "$" ++ b)
    with (a ++ c_dollar :: E ++ c_dollar :: b).
  destruct (quiet_parts a E b Hq (is_char c_dollar)
              (or_introl avoided_dollar)) as [Da [DE Db]].
  destruct (quiet_parts a E b Hq (is_char c_star)
              (or_introl avoided_star)) as [Sa [SE Sb]].
  destruct (quiet_parts a E b Hq (is_char c_underscore)
              (or_intror (or_introl eq_refl))) as [Ua [UE Ub]].
  destruct Hq as [[Hi Hs] _].
  assert (Hsp : spaced (a ++ c_dollar :: E ++ c_dollar :: b)).
  { apply (spaced_insert c_dollar eq_refl (a ++ E ++ c_dollar :: b));
      [|reflexivity].
    rewrite app_assoc.
    apply (spaced_insert c_dollar eq_refl ((a ++ E) ++ b)); [|reflexivity].
    rewrite <- app_assoc. apply inertTail_spaced, Hi. }
  assert (Hst : startsWith (a ++ c_dollar :: E ++ c_dollar :: b) (str " ")
                = false).
  { apply startsWith_dollar. rewrite app_assoc. apply startsWith_dollar.
    rewrite <- app_assoc. exact Hs. }
  unfold processText. cbv zeta.
  rewrite (spaced_normal _ Hsp Hst).
  replace (truthy (a ++ c_dollar :: E ++ c_dollar :: b)) with true
    by (destruct a; reflexivity).
  cbn [negb].
  rewrite protectLaTeX_unmarked.
  2:{ apply without_app. split; [exact Sa|]. constructor; [reflexivity|].
      apply without_app. split; [exact SE|]. constructor; [reflexivity|].
      exact Sb. }
  2:{ apply without_app. split; [exact Ua|]. constructor; [reflexivity|].
      apply without_app. split; [exact UE|]. constructor; [reflexivity|].
      exact Ub. }
  rewrite (containsLaTeX_inline a E b Hne DE). cbn [andb].
  rewrite (replace_block_none a E b _ Hne Da DE Db).
  apply (replace_inline_eq a E b Hne Da DE Db).
Qed.

Lemma processText_block (a E b : jsstring) :
  E <> [] -> quiet (a ++ E ++ b) ->
  processText true (a ++ str "$$" ++ E ++ str "$$" ++ b)
  = a ++ nl ++ nl ++ E ++ nl ++ nl ++ b.
Proof.
  intros Hne Hq.
  change (a ++ str "$$" ++ E ++ str "$$" ++ b)
    with (a ++ c_dollar :: c_dollar :: E ++ c_dollar :: c_dollar :: b).
  destruct (quiet_parts a E b Hq (is_char c_dollar)
              (or_introl avoided_dollar)) as [Da [DE Db]].
  destruct (quiet_parts a E b Hq (is_char c_star)
              (or_introl avoided_star)) as [Sa [SE Sb]].
  destruct (quiet_parts a E b Hq (is_char c_underscore)
              (or_intror (or_introl eq_refl))) as [Ua [UE Ub]].
  destruct Hq as [[Hi Hs] _].
  assert (Hsp : spaced (a ++ c_dollar :: c_dollar :: E
                          ++ c_dollar :: c_dollar :: b)).
  { apply (spaced_insert c_dollar eq_refl
             (a ++ c_dollar :: E ++ c_dollar :: c_dollar :: b));
      [|reflexivity].
    apply (spaced_insert c_dollar eq_refl
             (a ++ E ++ c_dollar :: c_dollar :: b)); [|reflexivity].
    rewrite app_assoc.
    apply (spaced_insert c_dollar eq_refl ((a ++ E) ++ c_dollar :: b));
      [|reflexivity].
    apply (spaced_insert c_dollar eq_refl ((a ++ E) ++ b)); [|reflexivity].
    rewrite <- app_assoc. apply inertTail_spaced, Hi. }
  assert (Hst : startsWith (a ++ c_dollar :: c_dollar :: E
                              ++ c_dollar :: c_dollar :: b) (str " ")
                = false).
  { apply startsWith_dollar. apply startsWith_dollar.
    rewrite app_assoc. apply startsWith_dollar. apply startsWith_dollar.
    rewrite <- app_assoc. exact Hs. }
  unfold processText. cbv zeta.
  rewrite (spaced_normal _ Hsp Hst).
  replace (truthy (a ++ c_dollar :: c_dollar :: E
                     ++ c_dollar :: c_dollar :: b)) with true
    by (destruct a; reflexivity).
  cbn [negb].
  rewrite protectLaTeX_unmarked.
  2:{ apply without_app. split; [exact Sa|]. constructor; [reflexivity|].
      constructor; [reflexivity|].
      apply without_app. split; [exact SE|]. constructor; [reflexivity|].
      constructor; [reflexivity|]. exact Sb. }
  2:{ apply without_app. split; [exact Ua|]. constructor; [reflexivity|].
      constructor; [reflexivity|].
      apply without_app. split; [exact UE|]. constructor; [reflexivity|].
      constructor; [reflexivity|]. exact Ub. }
  assert (C : containsLaTeX (a ++ c_dollar :: c_dollar :: E
                               ++ c_dollar :: c_dollar :: b) = true).
  { replace (a ++ c_dollar :: c_dollar :: E ++ c_dollar :: c_dollar :: b)
      with ((a ++ [c_dollar]) ++ c_dollar :: E ++ c_dollar :: c_dollar :: b)
      by (rewrite <- app_assoc; reflexivity).
    apply containsLaTeX_inline; assumption. }
  rewrite C. cbn [andb].
  rewrite (replace_block_eq a E b _ Hne Da DE Db).
  cbn [expand group Nat.eqb]. rewrite app_nil_r.
  rewrite <- !app_assoc.
  apply (replace_all_requires (is_char c_dollar) re_inline_eq _ _
           req_inline_eq).
  apply without_app. split; [exact Da|].
  constructor; [reflexivity|]. constructor; [reflexivity|].
  apply without_app. split; [exact DE|].
  constructor; [reflexivity|]. constructor; [reflexivity|]. exact Db.
Qed.


(** *** The cleanup of a paragraph *)

Lemma closedTail_tail (c : N) (s : jsstring) :
  closedTail (c :: s) -> closedTail s.
Proof.
  intros H. inversion H; subst; try constructor; assumption.
Qed.

Lemma inertTail_closed (x : jsstring) :
  inertTail x -> closedTail (x ++ nl ++ nl).
Proof.
  induction 1 as [|c s Hc _ IH|c s Hc _ IH].
  - apply ct_end.
  - apply ct_char; assumption.
  - apply ct_space; assumption.
Qed.

Lemma replace_closed (r : regex) (t : list titem) (y : jsstring) :
  (forall prev s, closedTail s -> match_here false r prev s = None) ->
  closedTail y -> replace_all r t y = y.
Proof.
  intros Hnone Hy. unfold replace_all, replace_fn.
  apply (replace_go_noop false r _ (fun _ s => closedTail s)).
  - intros prev c s. apply closedTail_tail.
  - exact Hnone.
  - exact Hy.
Qed.

Ltac closed_cases H :=
  inversion H as [| | |c s' Hc Hs|c s' Hc Hs]; subst;
  unfold match_here; cbn [at_least seqs plus rmatch];
  try reflexivity;
  try (rewrite (proj2 avoided_nl c Hc); reflexivity);
  try (rewrite (inert_not_blank c Hc); reflexivity);
  try (change (is_blank 32) with true; cbv iota; cbn [rep_cls];
       rewrite (inert_not_blank c Hc);
       try rewrite (proj2 avoided_nl c Hc); reflexivity).

Lemma closed_nl4 (prev : option N) (s : jsstring) :
  closedTail s -> match_here false re_nl4 prev s = None.
Proof. intros H. unfold re_nl4. closed_cases H. Qed.

Lemma closed_nl3 (prev : option N) (s : jsstring) :
  closedTail s -> match_here false re_nl3 prev s = None.
Proof. intros H. unfold re_nl3. closed_cases H. Qed.

Lemma closed_blank_nl (prev : option N) (s : jsstring) :
  closedTail s -> match_here false re_blank_nl prev s = None.
Proof. intros H. unfold re_blank_nl. closed_cases H. Qed.

Lemma closed_nl_blank (prev : option N) (s : jsstring) :
  closedTail s -> match_here false re_nl_blank prev s = None.
Proof. intros H. unfold re_nl_blank. closed_cases H. Qed.

Lemma closed_blank2 (prev : option N) (s : jsstring) :
  closedTail s -> match_here false re_blank2 prev s = None.
Proof. intros H. unfold re_blank2. closed_cases H. Qed.

(** The trimming pass removes the two line feeds that end the
    paragraph. *)
Lemma trim_paragraph_tail (f : jsstring -> caps -> jsstring) :
  (forall m cs, f m cs = []) ->
  forall s, inertTail s ->
  forall p, replace_go false re_trim f (Some p) (s ++ nl ++ nl) 0 = s.
Proof.
  intros Hf. induction 1 as [|c s Hc _ IH|c s Hc _ IH]; intros p.
  - cbn [app]. rewrite replace_go_here.
    change (match_here false re_trim (Some p) (nl ++ nl))
      with (Some (2%nat, @nil (nat * jsstring))).
    cbv iota. rewrite Hf. reflexivity.
  - cbn [app]. rewrite replace_go_here.
    replace (match_here false re_trim (Some p) (c :: s ++ nl ++ nl))
      with (@None (nat * caps)).
    + rewrite IH. reflexivity.
    + unfold match_here, re_trim. cbn [seqs plus rmatch at_bol andb].
      rewrite (proj1 (inert_spec c Hc)). reflexivity.
  - cbn [app]. rewrite replace_go_here.
    replace (match_here false re_trim (Some p)
               (32%N :: c :: s ++ nl ++ nl))
      with (@None (nat * caps)).
    + f_equal. rewrite replace_go_here.
      replace (match_here false re_trim (Some 32%N) (c :: s ++ nl ++ nl))
        with (@None (nat * caps)).
      * rewrite IH. reflexivity.
      * unfold match_here, re_trim. cbn [seqs plus rmatch at_bol andb].
        rewrite (proj1 (inert_spec c Hc)). reflexivity.
    + unfold match_here, re_trim. cbn [seqs plus rmatch at_bol andb].
      change (is_space 32) with true. cbv iota. cbn [rep_cls].
      rewrite (proj1 (inert_spec c Hc)). reflexivity.
Qed.

Lemma replace_trim_paragraph (x : jsstring) :
  x <> [] -> plainLine x -> replace_all re_trim [] (x ++ nl ++ nl) = x.
Proof.
  intros Hne [Hx Hs]. unfold replace_all, replace_fn.
  inversion Hx as [|c s Hc Ht|c s Hc Ht]; subst.
  - contradiction.
  - cbn [app]. rewrite replace_go_here.
    replace (match_here false re_trim None (c :: s ++ nl ++ nl))
      with (@None (nat * caps)).
    + rewrite trim_paragraph_tail; [reflexivity|reflexivity|exact Ht].
    + unfold match_here, re_trim. cbn [seqs plus rmatch at_bol].
      rewrite (proj1 (inert_spec c Hc)). reflexivity.
  - discriminate.
Qed.

Lemma without_paragraph (Q : N -> bool) (x : jsstring) :
  Q c_nl = false -> without Q x -> without Q (x ++ nl ++ nl).
Proof.
  intros Hn Hx. apply without_app. split; [exact Hx|].
  repeat constructor; exact Hn.
Qed.

Lemma req_pipe_nl_pipe : requires (is_char c_pipe) re_pipe_nl.
Proof. req. Qed.

(** The eleventh to the last pass leave a plain line as it is. *)
Lemma lastPasses_plain (x : jsstring) :
  plainLine x -> applyPasses (skipn 10 cleanupPasses) x = x.
Proof.
  intros Hp. pose proof Hp as [Hx _].
  unfold applyPasses, cleanupPasses. cbn [skipn fold_left].
  rewrite (replace_all_avoided (is_char 91) re_empty_target _ x
             req_empty_target avoided_bracket Hx).
  rewrite (replace_all_avoided (is_char 91) re_empty_text _ x
             req_empty_text avoided_bracket Hx).
  rewrite (replace_all_avoided is_nl re_empty_cell _ x req_empty_cell
             avoided_nl Hx).
  rewrite (replace_all_avoided (is_char c_star) re_word_bold_caps _ x
             req_word_bold_caps avoided_star Hx).
  rewrite (replace_all_avoided (is_char c_star) re_word_bold_word _ x
             req_word_bold_word avoided_star Hx).
  rewrite (replace_all_avoided (is_char c_star) re_word_stars_caps _ x
             req_word_stars_caps avoided_star Hx).
  rewrite (replace_all_avoided (is_char c_star) re_word_stars_word _ x
             req_word_stars_word avoided_star Hx).
  rewrite (replace_all_avoided (is_char c_star) re_stars_caps_stars _ x
             req_stars_caps_stars avoided_star Hx).
  rewrite (replace_all_avoided (is_char c_star) re_bold_word _ x
             req_bold_word avoided_star Hx).
  rewrite (replace_all_avoided is_nl re_nl_nl_nl _ x req_nl_nl_nl avoided_nl
             Hx).
  rewrite (replace_all_avoided is_sentence_end re_sentence_nl_cap _ x
             req_sentence_nl_cap avoided_sentence_end Hx).
  apply (replace_line_plain x Hp).
Qed.

(** The cleanup of a paragraph of quiet text gives the text. *)
Lemma cleanup_paragraph (x : jsstring) (notionMode : bool) :
  x <> [] -> quiet x -> cleanup (x ++ nl ++ nl) notionMode = x.
Proof.
  intros Hne [Hp [_ Hpipe]]. pose proof Hp as [Hx _].
  pose proof (inertTail_closed x Hx) as Hc.
  assert (F : applyPasses cleanupPasses (x ++ nl ++ nl) = x).
  { change (applyPasses cleanupPasses (x ++ nl ++ nl))
      with (applyPasses (skipn 10 cleanupPasses)
              (applyPasses (firstn 10 cleanupPasses) (x ++ nl ++ nl))).
    replace (applyPasses (firstn 10 cleanupPasses) (x ++ nl ++ nl)) with x;
      [apply (lastPasses_plain x Hp)|].
    unfold applyPasses, cleanupPasses. cbn [firstn fold_left].
    rewrite (replace_closed re_nl4 _ _ closed_nl4 Hc).
    rewrite (replace_closed re_blank_nl _ _ closed_blank_nl Hc).
    rewrite (replace_closed re_nl_blank _ _ closed_nl_blank Hc).
    rewrite (replace_closed re_blank2 _ _ closed_blank2 Hc).
    rewrite (replace_all_requires is_sentence_end re_sentence_cap _ _
               req_sentence_cap
               (without_paragraph _ x eq_refl
                  (inertTail_without _ x avoided_sentence_end Hx))).
    rewrite (replace_all_requires is_upper re_camel _ _ req_camel
               (without_paragraph _ x eq_refl
                  (inertTail_without _ x avoided_upper Hx))).
    rewrite (replace_all_requires is_sentence_end re_punct_word _ _
               req_punct_word
               (without_paragraph _ x eq_refl
                  (inertTail_without _ x avoided_sentence_end Hx))).
    rewrite (replace_closed re_nl3 _ _ closed_nl3 Hc).
    rewrite (replace_all_requires (is_char c_pipe) re_pipe_nl _ _
               req_pipe_nl_pipe (without_paragraph _ x eq_refl Hpipe)).
    symmetry. apply (replace_trim_paragraph x Hne Hp). }
  unfold cleanup. rewrite F.
  destruct notionMode; [apply (notionPasses_plain x Hp)|reflexivity].
Qed.

(** *** The paragraph in the document *)

Lemma paragraph_rendering (w : Window) (notionMode : bool) (ctx : Ctx)
      (data x : jsstring) :
  trim (processText notionMode data) = x -> x <> [] ->
  processNode w notionMode ctx (Sample.el "P" [] [TextNode data])
  = Ok (x ++ nl ++ nl).
Proof.
  intros Hx Hne. unfold Sample.el. cbn [map].
  rewrite processNode_element by reflexivity.
  rewrite processChildren_cons. cbn [processNode bind].
  rewrite processChildren_nil, appendChild_first.
  change (toLowerCase (str "P")) with (str "p").
  unfold formatElement. cbv beta zeta.
  change (JSString.eqb (str "p") (str "h1")) with false.
  change (JSString.eqb (str "p") (str "h2")) with false.
  change (JSString.eqb (str "p") (str "h3")) with false.
  change (JSString.eqb (str "p") (str "h4")) with false.
  change (JSString.eqb (str "p") (str "h5")) with false.
  change (JSString.eqb (str "p") (str "h6")) with false.
  change (JSString.eqb (str "p") (str "p")) with true.
  cbv iota. cbn [bind]. rewrite Hx.
  destruct x; [contradiction|reflexivity].
Qed.

Lemma extract_paragraph (data x : jsstring) :
  trim (processText true data) = x -> x <> [] -> quiet x ->
  forall stack,
    extractPageContent (S stack) (Cases.paragraphPage data) true = Ok x.
Proof.
  intros Hx Hne Hq. apply extract_returns. unfold extractOnce. cbv zeta.
  change (findMainContent (Cases.paragraphPage data))
    with (body (Cases.paragraphPage data)).
  assert (R : processRoot (Cases.paragraphPage data) true
                (body (Cases.paragraphPage data)) = Ok (x ++ nl ++ nl)).
  { change (processRoot (Cases.paragraphPage data) true
              (body (Cases.paragraphPage data)))
      with (processNode Sample.win true
              {| parentTag := Some (str "HTML"); mathAncestor := false;
                 previousSibling :=
                   Some (Sample.el "HEAD" []
                           [Sample.el "TITLE" [] [Sample.txt "Notes"]]) |}
              (ElementNode (str "BODY") [] Sample.visible
                 [Sample.el "P" [] [TextNode data]])).
    rewrite processNode_element by reflexivity.
    rewrite processChildren_cons.
    rewrite (paragraph_rendering _ _ _ data x Hx Hne). cbn [bind].
    rewrite processChildren_nil, appendChild_first. reflexivity. }
  rewrite R. rewrite (cleanup_paragraph x true Hne Hq).
  replace (sameNode (body (Cases.paragraphPage data))
                    (body (Cases.paragraphPage data))) with true
    by reflexivity.
  cbn [negb]. destruct (wordCount x <? 3)%nat; reflexivity.
Qed.

Lemma trim_block (E : jsstring) :
  E <> [] -> plainLine E -> trim (nl ++ nl ++ E ++ nl ++ nl) = E.
Proof.
  intros Hne Hp. pose proof (plainLine_trim E Hp) as T.
  destruct Hp as [Hx Hs].
  inversion Hx as [|c s Hc Ht|c s Hc Ht]; subst;
    [contradiction| |discriminate].
  unfold trim in *.
  rewrite (trimStart_keep c s (proj1 (inert_spec c Hc))) in T.
  change (nl ++ nl ++ (c :: s) ++ nl ++ nl)
    with (10%N :: 10%N :: c :: s ++ nl ++ nl).
  rewrite !trimStart_drop by reflexivity.
  rewrite (trimStart_keep c _ (proj1 (inert_spec c Hc))).
  change (c :: s ++ nl ++ nl) with ((c :: s) ++ [10%N] ++ [10%N]).
  rewrite !app_assoc. rewrite !trimEnd_drop by reflexivity. exact T.
Qed.

Lemma includes_here (s p : jsstring) :
  startsWith s p = true -> includes s p = true.
Proof.
  intros H. destruct s; cbn [includes]; rewrite H; reflexivity.
Qed.

Lemma startsWith_app (p s : jsstring) : startsWith (p ++ s) p = true.
Proof.
  induction p as [|c p IH]; [destruct s; reflexivity|].
  cbn [app startsWith]. rewrite N.eqb_refl, IH. reflexivity.
Qed.

Lemma includes_middle (a E b : jsstring) : includes (a ++ E ++ b) E = true.
Proof.
  apply includes_app_r, includes_here, startsWith_app.
Qed.

(** The content is not kept everywhere in a document: an equation in
    an element that [shouldSkipElement] rejects is dropped with the
    element. *)
Example equation_in_rejected_element :
  extractPageContent 1
    (Sample.page [Sample.el "NAV" [] [Sample.txt "$x+b$"];
                  Sample.el "P" [] [Sample.txt "plenty of words here"]])
    true
  = Ok (str "plenty of words here")
  /\ includes (str "plenty of words here") (str "x+b") = false.
Proof. split; vm_compute; reflexivity. Qed.

(** C6, amended: in compact mode the string that the extraction returns
    has no dollar sign, for every document. The content of an equation
    is kept when the equation stands in quiet text (lower-case words
    separated by single spaces, without capital letter and without any
    of [. ! ? * _ [ | $]): a text node [a$E$b] is rendered as [aEb] and
    a text node [a$$E$$b] as [a], [E] and [b] separated by empty lines,
    wherever the node is; the paragraph [a$E$b] is extracted as [aEb],
    which holds [E], and the paragraph [$$E$$] as [E]. Other content
    goes through the repair and the cleanup like the rest of the
    text. *)
Theorem C6_compact_mode_keeps_plain_content :
  forall (a E b : jsstring),
    E <> [] -> quiet (a ++ E ++ b) ->
    (forall w ctx,
        processNode w true ctx
          (TextNode (a ++ str "$" ++ E ++ str "$" ++ b))
        = Ok (a ++ E ++ b))
    /\ (forall w ctx,
          processNode w true ctx
            (TextNode (a ++ str "$$" ++ E ++ str "$$" ++ b))
          = Ok (a ++ nl ++ nl ++ E ++ nl ++ nl ++ b))
    /\ (forall stack,
          extractPageContent (S stack)
            (Cases.paragraphPage (a ++ str "$" ++ E ++ str "$" ++ b)) true
          = Ok (a ++ E ++ b))
    /\ (quiet E ->
        forall stack,
          extractPageContent (S stack)
            (Cases.paragraphPage (str "$$" ++ E ++ str "$$")) true
          = Ok E)
    /\ includes (a ++ E ++ b) E = true
    /\ (forall stack d out,
          extractPageContent stack d true = Ok out ->
          count_char c_dollar out = 0%nat)
    /\ (forall raw, count_char c_dollar (cleanup raw true) = 0%nat).
Proof.
  intros a E b Hne Hq.
  assert (Hx : a ++ E ++ b <> []).
  { destruct a; [destruct E; [contradiction|discriminate]|discriminate]. }
  split; [|split; [|split; [|split; [|split; [|split]]]]].
  - intros w ctx. cbn [processNode].
    rewrite (processText_inline a E b Hne Hq). reflexivity.
  - intros w ctx. cbn [processNode].
    rewrite (processText_block a E b Hne Hq). reflexivity.
  - apply extract_paragraph; [|exact Hx|exact Hq].
    rewrite (processText_inline a E b Hne Hq).
    apply plainLine_trim, Hq.
  - intros HE. apply extract_paragraph; [|exact Hne|exact HE].
    assert (HE' : quiet ([] ++ E ++ []))
      by (cbn [app]; rewrite app_nil_r; exact HE).
    assert (P : processText true (str "$$" ++ E ++ str "$$")
                = nl ++ nl ++ E ++ nl ++ nl)
      by exact (processText_block [] E [] Hne HE').
    rewrite P. apply (trim_block E Hne), HE.
  - apply includes_middle.
  - intros stack d out H.
    destruct (extract_returns_cleanup d true stack out H) as [raw ->].
    apply cleanup_compact_clean.
  - apply cleanup_compact_clean.
Qed.

Lemma C6_compact_mode_keeps_plain_content_witness :
  str "x+b" <> []
  /\ quiet (str "let " ++ str "x+b" ++ str " be linear")
  /\ quiet (str "x+b")
  /\ processNode Sample.win true Sample.ctx0
       (Sample.txt "let $x+b$ be linear")
     = Ok (str "let x+b be linear")
  /\ extractPageContent 1
       (Cases.paragraphPage (str "let $x+b$ be linear")) true
     = Ok (str "let x+b be linear")
  /\ extractPageContent 1 (Cases.paragraphPage (str "$$x+b$$")) true
     = Ok (str "x+b")
  /\ includes (str "let x+b be linear") (str "x+b") = true
  /\ count_char c_dollar (str "let x+b be linear") = 0%nat.
Proof.
  assert (H1 : str "x+b" <> []) by discriminate.
  assert (Q : forall x,
             In x [str "let " ++ str "x+b" ++ str " be linear"; str "x+b"] ->
             quiet x).
  { intros x [<-|[<-|[]]];
      (split; [split; [|reflexivity]|split; repeat constructor]);
      repeat first [ apply it_nil
                   | apply it_space; [reflexivity|]
                   | apply it_char; [reflexivity|] ]. }
  assert (H2 := Q _ (or_introl eq_refl)).
  assert (H3 := Q _ (or_intror (or_introl eq_refl))).
  destruct (C6_compact_mode_keeps_plain_content
              (str "let ") (str "x+b") (str " be linear") H1 H2)
    as [T1 [_ [T3 [T4 [T5 [T6 _]]]]]].
  split; [exact H1|]. split; [exact H2|]. split; [exact H3|].
  split; [exact (T1 Sample.win Sample.ctx0)|].
  split; [exact (T3 0%nat)|].
  split; [exact (T4 H3 0%nat)|].
  split; [exact T5|].
  exact (T6 1%nat _ _ (T3 0%nat)).
Defined.

(** ** The call stack and the depth of the tree *)

Lemma spans_rendering (w : Window) (notionMode : bool) :
  forall k ctx, processNode w notionMode ctx (Cases.spans k) = Ok (str "x").
Proof.
  induction k as [|k IH]; intros ctx; [destruct notionMode; reflexivity|].
  cbn [Cases.spans]. unfold Sample.el. cbn [map].
  rewrite processNode_element by reflexivity.
  rewrite processChildren_cons, IH. cbn [bind].
  rewrite processChildren_nil, appendChild_first.
  destruct notionMode; reflexivity.
Qed.

Lemma spans_overflow (w : Window) (notionMode : bool) :
  forall room ctx,
    processNodeWithin room w notionMode ctx (Cases.spans (S room))
    = Throw RangeError.
Proof.
  induction room as [|room IH]; intros ctx; [reflexivity|].
  change (Cases.spans (S (S room)))
    with (ElementNode (str "SPAN") [] Sample.visible
            [Cases.spans (S room)]).
  cbn [processNodeWithin].
  change (shouldSkipElement
            (ElementNode (str "SPAN") [] Sample.visible
               [Cases.spans (S room)])) with false.
  cbv iota zeta. rewrite processChildren_cons, IH. reflexivity.
Qed.

(** X21: the recursion of [processNode] and of [mathMLToLaTeX] with the
    call stack counted. Whatever room the stack has, each gives what the
    function gives without the count, or the [RangeError] of the
    exhausted stack; it gives the same when the stack has room for the
    levels of the tree. A tree that is deeper than the stack overflows
    it: [span] elements nested one more time than the stack has room
    for, around a text, throw the [RangeError] where the function
    without the count returns the text. *)
Theorem stack_bounds_the_recursion :
  (forall room w notionMode ctx n,
      processNodeWithin room w notionMode ctx n
      = processNode w notionMode ctx n
      \/ processNodeWithin room w notionMode ctx n = Throw RangeError)
  /\ (forall room w notionMode ctx n,
        depth n < room ->
        processNodeWithin room w notionMode ctx n
        = processNode w notionMode ctx n)
  /\ (forall room notionMode n,
        mathMLToLaTeXWithin room notionMode n = mathMLToLaTeX notionMode n
        \/ mathMLToLaTeXWithin room notionMode n = Throw RangeError)
  /\ (forall room notionMode n,
        depth n <= room ->
        mathMLToLaTeXWithin room notionMode n = mathMLToLaTeX notionMode n)
  /\ (forall room w notionMode ctx,
        processNodeWithin room w notionMode ctx (Cases.spans (S room))
        = Throw RangeError
        /\ processNode w notionMode ctx (Cases.spans (S room))
           = Ok (str "x")).
Proof.
  split; [|split; [|split; [|split]]].
  - intros room w notionMode ctx n. apply processNode_within.
  - intros room w notionMode ctx n. apply processNode_within_enough.
  - intros room notionMode n. apply mathML_within.
  - intros room notionMode n. apply mathML_within_enough.
  - intros room w notionMode ctx. split;
      [apply spans_overflow|apply spans_rendering].
Qed.

Lemma stack_bounds_the_recursion_witness :
  depth (Cases.spans 3) < 5
  /\ processNodeWithin 5 Sample.win false Sample.ctx0 (Cases.spans 3)
     = Ok (str "x")
  /\ processNodeWithin 2 Sample.win false Sample.ctx0 (Cases.spans 3)
     = Throw RangeError
  /\ processNode Sample.win false Sample.ctx0 (Cases.spans 3)
     = Ok (str "x").
Proof.
  destruct stack_bounds_the_recursion as [_ [T2 [_ [_ T5]]]].
  assert (H : depth (Cases.spans 3) < 5) by (cbn; lia).
  split; [exact H|].
  destruct (T5 2%nat Sample.win false Sample.ctx0) as [O R].
  split; [|split; [exact O|exact R]].
  rewrite (T2 5%nat Sample.win false Sample.ctx0 (Cases.spans 3) H).
  exact R.
Defined.

(** ** Letters outside the Basic Latin range *)

(** The lower case of the Kelvin sign is the letter [k]: a class name
    written with it holds the term [hunk-] once in lower case, and the
    element is rejected. *)
Example kelvin_sign_class_rejected :
  toLowerCase (str "HUN" ++ [8490%N] ++ str "-x") = str "hunk-x"
  /\ shouldSkipElement Cases.kelvinStrong = true
  /\ processNode Sample.win false Sample.ctx0 Cases.kelvinStrong = Ok [].
Proof. repeat apply conj; vm_compute; reflexivity. Qed.

(** ** The separator of a table *)

(** X22: a table of two rows of two cells with plain texts is rendered,
    in both modes, with a separator line of three [---] cells, one more
    than the rows have cells, and each row line ends with a doubled
    pipe: the [tr] rule adds a pipe after cells that already end with
    one, and the [table] rule counts the doubled pipe of the first row as
    a cell. *)
Theorem table_separator_has_one_cell_too_many :
  forall (w : Window) (notionMode : bool) (ctx : Ctx) (a b c d : jsstring),
    plainCell (cellText notionMode a) -> plainCell (cellText notionMode b) ->
    plainCell (cellText notionMode c) -> plainCell (cellText notionMode d) ->
    processNode w notionMode ctx
      (Sample.tableOf [TextNode a] [TextNode b] [TextNode c] [TextNode d])
    = Ok (str "| " ++ cellText notionMode a ++ str " | "
          ++ cellText notionMode b ++ str " ||" ++ nl
          ++ str "| --- | --- | --- | " ++ nl
          ++ str "| " ++ cellText notionMode c ++ str " | "
          ++ cellText notionMode d ++ str " ||" ++ nl ++ nl).
Proof.
  intros w notionMode ctx a b c d Ha Hb Hc Hd.
  rewrite (two_rows_rendering w notionMode ctx a b c d Ha Hb Hc Hd).
  unfold tableLine. rewrite <- !app_assoc. reflexivity.
Qed.

Lemma table_separator_has_one_cell_too_many_witness :
  plainCell (cellText true (str "a")) /\ plainCell (cellText true (str "b"))
  /\ plainCell (cellText true (str "c")) /\ plainCell (cellText true (str "d"))
  /\ processNode Sample.win true Sample.ctx0 Sample.table2x2
     = Ok (str "| a | b ||" ++ nl ++ str "| --- | --- | --- | " ++ nl
           ++ str "| c | d ||" ++ nl ++ nl).
Proof.
  assert (P : forall x, In x [str "a"; str "b"; str "c"; str "d"] ->
                        plainCell (cellText true x)).
  { intros x [<-|[<-|[<-|[<-|[]]]]];
      (split; [discriminate|vm_compute; repeat constructor; discriminate]). }
  assert (Pa := P (str "a") (or_introl eq_refl)).
  assert (Pb := P (str "b") (or_intror (or_introl eq_refl))).
  assert (Pc := P (str "c") (or_intror (or_intror (or_introl eq_refl)))).
  assert (Pd := P (str "d")
                  (or_intror (or_intror (or_intror (or_introl eq_refl))))).
  split; [exact Pa|]. split; [exact Pb|]. split; [exact Pc|].
  split; [exact Pd|].
  exact (table_separator_has_one_cell_too_many Sample.win true Sample.ctx0
           (str "a") (str "b") (str "c") (str "d") Pa Pb Pc Pd).
Defined.
